(** * Rate-limit probing engine: a shallow embedding and its properties

    The development embeds the parts of [rate_limiter_checker.py] and
    [appstore_search_rankings.py] that the specification talks about:
    the request executor [send_request], the paced strategies
    ([run_sustained_test], [run_ramp_test], [run_unique_terms_test]),
    the aggregation [TestReport.per_term_stats], the conclusion printed
    by [run_same_vs_unique_test] and the batched [lookup_app_metadata].
    It goes on to the rest of [TestReport], [run_repeat_per_term_test],
    [print_summary], the configuration built by [main], the scraper's
    [extract_search_results], [fetch_search_html] and [get_rankings],
    and the score sketch of [calculate_popularity_score.py].  The
    concurrent strategies ([run_burst_test], [run_burst_unique_test]),
    the argument parsing and dispatch of the two [main]s and
    [format_output] are not embedded.

    Conventions.
    - Python [int] is [Z]; counters that only ever grow from zero are [nat].
    - Python [float] values (rates, durations, clock readings) are exact
      rationals [Q]; rounding of binary floating point is not modelled.
    - [dict]s compared as mappings are [gmap]s; ordered data are lists.
    - The network, the clock and the standard output form an explicit
      [World] threaded through a state-and-exception monad.
    - Values parsed from JSON whose type the code does not fix are a
      [json] tree, and the operations on them raise what Python raises
      on a value of the wrong type.
    - Library functions ([requests.request], [urllib.request.urlopen],
      [re.search], [json.loads], [urllib.parse.quote]) are parameters. *)

From Stdlib Require Import ZArith QArith Qround Qminmax Lia Lqa String Ascii List.
From stdpp Require Import base option list sorting gmap strings fin_maps.

Open Scope Z_scope.

(** ** Python exceptions and the state-and-exception monad *)

Inductive Exn : Type :=
| KeyError (key : string)
| ZeroDivisionError
| IndexError
| RequestException (msg : string)   (* requests.exceptions.*, raised by requests.request *)
| HTTPError (code : Z)              (* urllib.error.HTTPError *)
| URLError (reason : string)        (* urllib.error.URLError *)
| TimeoutError                      (* socket.timeout, raised while reading a response *)
| ValueError (msg : string).        (* e.g. json.JSONDecodeError, UnicodeDecodeError *)

(** [str(e)] *)
Definition str_of_exn (e : Exn) : string :=
  match e with
  | KeyError k => String.append "'" (String.append k "'")
  | ZeroDivisionError => "float division by zero"
  | IndexError => "list index out of range"
  | RequestException m => m
  | HTTPError _ => "HTTP Error"
  | URLError r => r
  | TimeoutError => "The read operation timed out"
  | ValueError m => m
  end.

Module PyM.
Section Monad.
Context {W : Type}.

Definition M (A : Type) : Type := W -> (Exn + A) * W.

Definition ret {A} (a : A) : M A := fun w => (inr a, w).
Definition raise {A} (e : Exn) : M A := fun w => (inl e, w).
Definition bind {A B} (c : M A) (k : A -> M B) : M B :=
  fun w => match c w with
           | (inl e, w') => (inl e, w')
           | (inr a, w') => k a w'
           end.
(** [try: body  except Exception as e: handler e] *)
Definition try_except {A} (body : M A) (handler : Exn -> M A) : M A :=
  fun w => match body w with
           | (inl e, w') => handler e w'
           | (inr a, w') => (inr a, w')
           end.
(** [try: body  except classes as e: handler e]; an exception outside
    [classes] propagates *)
Definition try_except_on {A} (classes : Exn -> bool) (body : M A)
    (handler : Exn -> M A) : M A :=
  fun w => match body w with
           | (inl e, w') => if classes e then handler e w' else (inl e, w')
           | (inr a, w') => (inr a, w')
           end.
Definition get : M W := fun w => (inr w, w).
Definition modify (f : W -> W) : M unit := fun w => (inr tt, f w).

(** [for x in xs: body x], threading an accumulator *)
Fixpoint for_each {A S} (xs : list A) (body : A -> S -> M S) (s : S) : M S :=
  match xs with
  | [] => ret s
  | x :: xs' => bind (body x s) (for_each xs' body)
  end.
End Monad.
Arguments M : clear implicits.
End PyM.
Import PyM.

Notation "x <- c ;; k" := (bind c (fun x => k))
  (at level 63, c at next level, right associativity).
Notation "c ;;; k" := (bind c (fun _ => k))
  (at level 63, right associativity).

(** ** Small pieces of Python semantics *)

(** [int(x)] on a float truncates toward zero. *)
Definition py_int (x : Q) : Z :=
  if Qle_bool 0 x then Qfloor x else Qceiling x.

(** [max(0, x)]: the first maximal argument; [0] unless [x > 0]. *)
Definition Qlt_bool (x y : Q) : bool := negb (Qle_bool y x).

Definition py_max0 (x : Q) : Q :=
  if Qlt_bool 0 x then x else 0%Q.

(** [range(n)] *)
Definition py_range (n : Z) : list nat := seq 0 (Z.to_nat n).

(** [round(x, 1)]: nearest tenth, ties to even. *)
Definition round1 (x : Q) : Q :=
  let y := (x * 10)%Q in
  let n := Qfloor y in
  let frac := (y - inject_Z n)%Q in
  let up :=
    match Qcompare frac (1 # 2) with
    | Lt => false
    | Gt => true
    | Eq => Z.odd n
    end in
  Qmake (if up then n + 1 else n) 10.

(** [s[:n]] on a string *)
Definition str_take (n : nat) (s : string) : string := String.substring 0 n s.

Definition ascii_upper (c : ascii) : ascii :=
  let n := nat_of_ascii c in
  if ((97 <=? n) && (n <=? 122))%nat then ascii_of_nat (n - 32) else c.
Definition ascii_lower (c : ascii) : ascii :=
  let n := nat_of_ascii c in
  if ((65 <=? n) && (n <=? 90))%nat then ascii_of_nat (n + 32) else c.

Fixpoint str_map (f : ascii -> ascii) (s : string) : string :=
  match s with
  | EmptyString => EmptyString
  | String c s' => String (f c) (str_map f s')
  end.
Definition str_upper := str_map ascii_upper.
Definition str_lower := str_map ascii_lower.

(** [x in s] for strings: substring test *)
Fixpoint str_contains (x s : string) : bool :=
  String.prefix x s ||
  match s with
  | EmptyString => false
  | String _ s' => str_contains x s'
  end.

(** Truthiness of a string: [""] is falsy. *)
Definition str_truthy (s : string) : bool :=
  match s with EmptyString => false | _ => true end.

(** ** Data model *)

Record RequestResult : Type := mkRequestResult {
  status_code : Z;
  latency_ms : Q;
  timestamp : Q;
  headers : list (string * string);
  term : string;
  error : option string;
  body_preview : string;
}.

Record TestReport : Type := mkTestReport {
  results : list RequestResult;
  start_time : Q;
  end_time : Q;
}.

Definition is_success (sc : Z) : bool := (200 <=? sc) && (sc <? 300).
Definition is_limited (sc : Z) : bool := (sc =? 429) || (sc =? 403).

(** [TestReport.success_count] and [TestReport.rate_limited_count] *)
Definition count_success (rs : list RequestResult) : Z :=
  Z.of_nat (length (List.filter (fun r => is_success (status_code r)) rs)).
Definition count_limited (rs : list RequestResult) : Z :=
  Z.of_nat (length (List.filter (fun r => is_limited (status_code r)) rs)).
Definition success_count (rep : TestReport) : Z := count_success (results rep).
Definition rate_limited_count (rep : TestReport) : Z := count_limited (results rep).

(** *** [TestReport.per_term_stats] *)

Record TermStats : Type := mkTermStats {
  success : nat;
  limited : nat;
  total : nat;
}.

(** the [defaultdict] factory *)
Definition default_stats : TermStats := mkTermStats 0 0 0.

(** one iteration of the loop over [self.results] *)
Definition per_term_step (by_term : gmap string TermStats) (r : RequestResult)
  : gmap string TermStats :=
  let s := default default_stats (by_term !! term r) in
  let s1 := mkTermStats (success s) (limited s) (S (total s)) in
  let s2 :=
    if is_success (status_code r) then mkTermStats (S (success s1)) (limited s1) (total s1)
    else if is_limited (status_code r) then mkTermStats (success s1) (S (limited s1)) (total s1)
    else s1 in
  <[term r := s2]> by_term.

Definition per_term_stats (rep : TestReport) : gmap string TermStats :=
  foldl per_term_step ∅ (results rep).

(** ** The key rotation: [terms[i % len(terms)]] *)

Definition pool_next (terms : list string) (i : nat) : Exn + string :=
  match length terms with
  | O => inl ZeroDivisionError
  | S _ =>
      match terms !! (i mod length terms)%nat with
      | Some t => inr t
      | None => inl IndexError
      end
  end.

(** ** The conclusion printed by [run_same_vs_unique_test] *)

Inductive Conclusion : Type :=
| PerKeyLimit      (* "Rate limit is PER-TERM" *)
| HybridLimit      (* "Likely HYBRID" *)
| PerClientLimit   (* "Rate limit is PER-IP" *)
| Inconclusive.    (* "No rate limits hit" *)

(** The [if]/[elif] chain at the end of the comparison; [None] when no
    branch is taken and nothing is printed. *)
Definition classify (same_limited unique_limited : Z) : option Conclusion :=
  if (unique_limited =? 0) && (0 <? same_limited) then Some PerKeyLimit
  else if (0 <? unique_limited) && (0 <? same_limited) then
    if Qlt_le_dec (inject_Z unique_limited) (inject_Z same_limited * (1 # 2))
    then Some HybridLimit
    else Some PerClientLimit
  else if (unique_limited =? 0) && (same_limited =? 0) then Some Inconclusive
  else None.

(** ** The world: clock, network and standard output *)

(** The target descriptor: the [config] dict.  A key that is absent from
    the dict is [None]. *)
Record Config : Type := mkConfig {
  cfg_url : option string;
  cfg_method : option string;
  cfg_params : option (gmap string string);
  cfg_headers : option (gmap string string);
  cfg_body : option string;
}.

(** The keyword arguments handed to [requests.request]. *)
Record Request : Type := mkRequest {
  req_method : string;
  req_url : string;
  req_headers : gmap string string;
  req_params : gmap string string;
  req_timeout : Z;
  req_json : option string;
}.

Record Response : Type := mkResponse {
  resp_status_code : Z;
  resp_headers : list (string * string);
  resp_text : string;
}.

(** What one call of [requests.request] does: it takes [took] seconds and
    either raises or returns a response. *)
Record NetCall : Type := mkNetCall {
  took : Q;
  reply : Exn + Response;
}.

(** The lines of output that carry a verdict; the per-request progress
    lines are not modelled. *)
Inductive Output : Type :=
| OutLimitHit (current_rps : Q)     (* "Rate limit hit at ~..." *)
| OutStepOK (current_rps : Q)       (* "... req/s OK" *)
| OutConclusion (c : Conclusion).   (* "CONCLUSION: ..." *)

Record World : Type := mkWorld {
  now : Q;                  (* the clock read by time.time and time.perf_counter *)
  sent : list Request;      (* every request handed to the network, oldest first *)
  stdout : list Output;
}.

(** [d[key]] on a dict entry that may be absent *)
Definition lookup_key {W A} (key : string) (o : option A) : M W A :=
  match o with
  | Some a => ret a
  | None => raise (KeyError key)
  end.

(** [a / b] on floats *)
Definition py_div {W} (a b : Q) : M W Q :=
  if Qeq_bool b 0 then raise ZeroDivisionError else ret (a / b)%Q.

Definition lift_exn {W A} (r : Exn + A) : M W A := fun w => (r, w).

Definition time_time : M World Q := fun w => (inr (now w), w).
Definition perf_counter : M World Q := fun w => (inr (now w), w).
(** The clock is kept in lowest terms; [Qred] does not change its value. *)
Definition time_sleep (d : Q) : M World unit :=
  modify (fun w => mkWorld (Qred (now w + d)) (sent w) (stdout w)).
Definition print (o : Output) : M World unit :=
  modify (fun w => mkWorld (now w) (sent w) (stdout w ++ [o])).

Definition rate_limit_words : list string :=
  ["rate"; "limit"; "remaining"; "reset"; "retry"]%string.

Definition is_rate_limit_header (key : string) : bool :=
  let kl := str_lower key in
  existsb (fun x => str_contains x kl) rate_limit_words.

Definition json_methods : list string := ["POST"; "PUT"; "PATCH"]%string.

Section Network.

(** The behaviour of the remote end: the reply to the [k]-th request
    issued since the start of the run. *)
Variable net : nat -> Request -> NetCall.

Definition requests_request (req : Request) : M World Response :=
  fun w =>
    let c := net (length (sent w)) req in
    (reply c, mkWorld (Qred (now w + took c)) (sent w ++ [req]) (stdout w)).

(** *** [send_request] *)

(** [params = dict(config.get("params", {}))], with [term] stored under
    ["term"] when it is not [None] *)
Definition request_params (config : Config) (term : option string)
  : gmap string string :=
  let params := default ∅ (cfg_params config) in
  match term with
  | Some t => <["term"%string := t]> params
  | None => params
  end.

(** the [kwargs] dict, with ["json"] set for a body-carrying method *)
Definition request_kwargs (config : Config) (term : option string)
    (method url : string) : Request :=
  let json :=
    if existsb (String.eqb method) json_methods
    then match cfg_body config with
         | Some b => if str_truthy b then Some b else None
         | None => None
         end
    else None in
  mkRequest method url (default ∅ (cfg_headers config))
            (request_params config term) 30 json.

(** the [RequestResult] built from a received response *)
Definition response_result (config : Config) (term : option string) (ts latency : Q)
    (resp : Response) : RequestResult :=
  let rl_headers :=
    List.filter (fun kv => is_rate_limit_header (fst kv)) (resp_headers resp) in
  let body_preview :=
    if negb (resp_status_code resp =? 200) then str_take 200 (resp_text resp)
    else ""%string in
  let params_term := default ""%string (request_params config term !! "term"%string) in
  let term_or :=
    match term with
    | Some t => if str_truthy t then t else params_term
    | None => params_term
    end in
  mkRequestResult (resp_status_code resp) (round1 latency) ts rl_headers
                  term_or None body_preview.

(** the body of the [try] *)
Definition send_request_try (config : Config) (term : option string) (ts : Q)
  : M World RequestResult :=
  method0 <- lookup_key "method" (cfg_method config) ;;
  let method := str_upper method0 in
  url <- lookup_key "url" (cfg_url config) ;;
  let kwargs := request_kwargs config term method url in
  start <- perf_counter ;;
  resp <- requests_request kwargs ;;
  stop <- perf_counter ;;
  let latency := ((stop - start) * 1000)%Q in
  ret (response_result config term ts latency resp).

(** the [RequestResult] built by the [except] clause *)
Definition error_result (term : option string) (ts : Q) (e : Exn) : RequestResult :=
  let term_or :=
    match term with
    | Some t => t      (* [term or ""]: a falsy [term] is [""] already *)
    | None => ""%string
    end in
  mkRequestResult 0 0 ts [] term_or (Some (str_of_exn e)) ""%string.

Definition send_request_except (term : option string) (ts : Q) (e : Exn)
  : M World RequestResult :=
  ret (error_result term ts e).

Definition send_request (config : Config) (request_num : nat) (term : option string)
  : M World RequestResult :=
  ts <- time_time ;;
  try_except (send_request_try config term ts) (send_request_except term ts).

(** *** The compensating sleep that ends every paced iteration *)

Definition pace (interval loop_start : Q) : M World unit :=
  t <- perf_counter ;;
  let elapsed := (t - loop_start)%Q in
  let sleep_time := py_max0 (interval - elapsed) in
  if Qlt_bool 0 sleep_time then time_sleep sleep_time else ret tt.

(** *** [run_sustained_test] *)

Definition sustained_body (config : Config) (interval : Q)
    (i : nat) (rs : list RequestResult) : M World (list RequestResult) :=
  loop_start <- perf_counter ;;
  result <- send_request config i None ;;
  let rs' := rs ++ [result] in
  pace interval loop_start ;;;
  ret rs'.

Definition run_sustained_test (config : Config) (rps duration_secs : Q)
  : M World TestReport :=
  start <- time_time ;;
  interval <- py_div 1 rps ;;
  let total := py_int (rps * duration_secs) in
  params <- lookup_key "params" (cfg_params config) ;;
  rs <- for_each (py_range total) (sustained_body config interval) [] ;;
  stop <- time_time ;;
  ret (mkTestReport rs start stop).

(** *** [run_unique_terms_test] *)

Definition unique_body (config : Config) (interval : Q) (terms : list string)
    (i : nat) (rs : list RequestResult) : M World (list RequestResult) :=
  loop_start <- perf_counter ;;
  term <- lift_exn (pool_next terms i) ;;
  result <- send_request config i (Some term) ;;
  let rs' := rs ++ [result] in
  pace interval loop_start ;;;
  ret rs'.

(** [TERM_POOLS.get(pool_name, TERM_POOLS[fallback])] *)
Definition get_pool (TERM_POOLS : gmap string (list string)) (pool_name fallback : string)
  : M World (list string) :=
  dflt <- lookup_key fallback (TERM_POOLS !! fallback) ;;
  ret (default dflt (TERM_POOLS !! pool_name)).

Definition run_unique_terms_test (TERM_POOLS : gmap string (list string))
    (config : Config) (rps duration_secs : Q) (pool_name : string)
  : M World TestReport :=
  start <- time_time ;;
  interval <- py_div 1 rps ;;
  let total := py_int (rps * duration_secs) in
  terms <- get_pool TERM_POOLS pool_name "large" ;;
  rs <- for_each (py_range total) (unique_body config interval terms) [] ;;
  stop <- time_time ;;
  ret (mkTestReport rs start stop).

(** *** [run_ramp_test] *)

Definition ramp_body (config : Config) (interval : Q)
    (i : nat) (acc : list RequestResult * Z) : M World (list RequestResult * Z) :=
  loop_start <- perf_counter ;;
  result <- send_request config i None ;;
  let rs' := fst acc ++ [result] in
  let limited_in_step :=
    if is_limited (status_code result) then snd acc + 1 else snd acc in
  pace interval loop_start ;;;
  ret (rs', limited_in_step).

(** The variables the [while] loop updates. *)
Record RampState : Type := mkRampState {
  current_rps : Q;
  rate_limit_detected : bool;
  ramp_results : list RequestResult;
}.

(** [limited_in_step / step_requests * 100 if step_requests else 0] *)
Definition limit_pct_of (limited_in_step step_requests : Z) : M World Q :=
  if step_requests =? 0 then ret 0%Q
  else q <- py_div (inject_Z limited_in_step) (inject_Z step_requests) ;;
       ret (q * 100)%Q.

(** One pass through the body of the [while] loop. *)
Definition ramp_step (config : Config) (step_duration step_size : Q) (st : RampState)
  : M World RampState :=
  interval <- py_div 1 (current_rps st) ;;
  let step_requests := py_int (current_rps st * step_duration) in
  acc <- for_each (py_range step_requests) (ramp_body config interval)
                  (ramp_results st, 0) ;;
  limit_pct <- limit_pct_of (snd acc) step_requests ;;
  detected <-
    (if Qlt_bool 20 limit_pct
     then print (OutLimitHit (current_rps st)) ;;; ret true
     else print (OutStepOK (current_rps st)) ;;; ret (rate_limit_detected st)) ;;
  ret (mkRampState (current_rps st + step_size)%Q detected (fst acc)).

(** [current_rps <= max_rps and not rate_limit_detected] *)
Definition ramp_cond (max_rps : Q) (st : RampState) : bool :=
  Qle_bool (current_rps st) max_rps && negb (rate_limit_detected st).

(** The [while] loop, unrolled at most [fuel] times; [None] when the
    fuel runs out before the condition turns false. *)
Fixpoint ramp_while (fuel : nat) (config : Config) (max_rps step_duration step_size : Q)
    (st : RampState) : M World (option RampState) :=
  if ramp_cond max_rps st then
    match fuel with
    | O => ret None
    | S fuel' =>
        st' <- ramp_step config step_duration step_size st ;;
        ramp_while fuel' config max_rps step_duration step_size st'
    end
  else ret (Some st).

Definition run_ramp_test (fuel : nat) (config : Config)
    (max_rps step_duration step_size : Q) : M World (option TestReport) :=
  start <- time_time ;;
  r <- ramp_while fuel config max_rps step_duration step_size
                  (mkRampState step_size false []) ;;
  match r with
  | None => ret None
  | Some st =>
      stop <- time_time ;;
      ret (Some (mkTestReport (ramp_results st) start stop))
  end.

(** *** [run_same_vs_unique_test] *)

Definition same_body (config : Config) (interval : Q) (same_term : string)
    (i : nat) (rs : list RequestResult) : M World (list RequestResult) :=
  loop_start <- perf_counter ;;
  result <- send_request config i (Some same_term) ;;
  let rs' := rs ++ [result] in
  pace interval loop_start ;;;
  ret rs'.

Definition run_same_vs_unique_test (TERM_POOLS : gmap string (list string))
    (config : Config) (num_each : Z) (rps : Q) : M World TestReport :=
  interval <- py_div 1 rps ;;
  let same_term := "bill tracker"%string in
  same_results <- for_each (py_range num_each) (same_body config interval same_term) [] ;;
  let same_limited := count_limited same_results in
  time_sleep 3 ;;;
  terms <- lookup_key "large" (TERM_POOLS !! "large"%string) ;;
  unique_results <- for_each (py_range num_each) (unique_body config interval terms) [] ;;
  let unique_limited := count_limited unique_results in
  (* the comparison table prints [limited/num_each*100] for both phases *)
  py_div (inject_Z same_limited) (inject_Z num_each) ;;;
  py_div (inject_Z unique_limited) (inject_Z num_each) ;;;
  match classify same_limited unique_limited with
  | Some c => print (OutConclusion c)
  | None => ret tt
  end ;;;
  stop <- time_time ;;
  let start := match same_results with r :: _ => timestamp r | [] => 0%Q end in
  ret (mkTestReport (same_results ++ unique_results) start stop).

End Network.

(** The static pools of [TERM_POOLS]. *)
Definition pool_small : list string :=
  ["bill tracker"; "weather app"; "fitness coach"; "photo editor"; "music player"]%string.
Definition pool_medium : list string :=
  pool_small ++
  ["todo list"; "vpn proxy"; "calorie counter"; "sleep tracker"; "meditation app";
   "budget planner"; "qr scanner"; "pdf reader"; "video editor"; "language learn"]%string.
Definition pool_large : list string :=
  pool_medium ++
  ["password manager"; "note taking"; "file manager"; "screen recorder"; "email client";
   "calendar app"; "alarm clock"; "tip calculator"; "unit converter"; "voice recorder";
   "flashlight app"; "compass app"; "level tool"; "white noise"; "habit tracker"]%string.
Definition TERM_POOLS : gmap string (list string) :=
  <["small"%string := pool_small]>
    (<["medium"%string := pool_medium]> (<["large"%string := pool_large]> ∅)).

(** ** [lookup_app_metadata] of the rankings scraper *)

Module Lookup.

Definition LOOKUP_BATCH_SIZE : nat := 150.

(** One entry of the ["results"] array of the lookup reply; an absent
    key is [None].  [trackId] is kept in its [str] form. *)
Record TrackJson : Type := mkTrackJson {
  trackId : option string;
  trackName : option string;
  bundleId : option string;
  artistName : option string;
  formattedPrice : option string;
  primaryGenreName : option string;
  averageUserRating : option Q;
  userRatingCount : option Z;
}.

Record AppMeta : Type := mkAppMeta {
  name : string;
  bundle_id : string;
  developer : string;
  price : string;
  genre : string;
  rating : option Q;
  rating_count : option Z;
}.

Record LWorld : Type := mkLWorld {
  fetched : list string;          (* the URLs opened, oldest first *)
  stderr : list (nat * Exn);      (* the WARNING lines: batch offset and error *)
  slept : Q;                      (* total time spent in time.sleep *)
}.

(** [",".join(batch)] *)
Fixpoint str_join (sep : string) (xs : list string) : string :=
  match xs with
  | [] => ""
  | [x] => x
  | x :: xs' => String.append x (String.append sep (str_join sep xs'))
  end.

(** [range(0, n, step)] for a positive [step] *)
Definition py_range_step (n step : nat) : list nat :=
  List.map (fun k => (k * step)%nat) (seq 0 ((n + step - 1) / step)%nat).

Definition lookup_url (ids_param country : string) : string :=
  String.append "https://itunes.apple.com/lookup?id="
    (String.append ids_param (String.append "&country=" country)).

Definition meta_of (result : TrackJson) : AppMeta :=
  mkAppMeta (default "" (trackName result)) (default "" (bundleId result))
            (default "" (artistName result)) (default "" (formattedPrice result))
            (default "" (primaryGenreName result))
            (averageUserRating result) (userRatingCount result).

(** [for result in data.get("results", []): metadata[tid] = {...}] *)
Definition add_results (metadata : gmap string AppMeta) (rs : list TrackJson)
  : gmap string AppMeta :=
  foldl (fun m result => <[default ""%string (trackId result) := meta_of result]> m)
        metadata rs.

Section Catalog.

(** The catalog service: what opening the [k]-th URL, reading the
    body and parsing it as JSON yields; the parsed value is the
    ["results"] entry of the reply, [None] when the key is absent. *)
Variable fetch : nat -> string -> Exn + option (list TrackJson).

Definition urlopen_json (url : string) : M LWorld (option (list TrackJson)) :=
  fun w => (fetch (length (fetched w)) url,
            mkLWorld (fetched w ++ [url]) (stderr w) (slept w)).

Definition warn (i : nat) (e : Exn) : M LWorld unit :=
  modify (fun w => mkLWorld (fetched w) (stderr w ++ [(i, e)]) (slept w)).

Definition sleep (d : Q) : M LWorld unit :=
  modify (fun w => mkLWorld (fetched w) (stderr w) (slept w + d)%Q).

(** [except (urllib.error.HTTPError, urllib.error.URLError)] *)
Definition caught (e : Exn) : bool :=
  match e with
  | HTTPError _ | URLError _ => true
  | _ => false
  end.

(** The body of the loop over the batch offsets; the failure branch
    ends in [continue], so it skips the courtesy sleep as well. *)
Definition lookup_batch (app_ids : list string) (country : string)
    (i : nat) (metadata : gmap string AppMeta) : M LWorld (gmap string AppMeta) :=
  let batch := take LOOKUP_BATCH_SIZE (drop i app_ids) in
  let ids_param := str_join "," batch in
  let url := lookup_url ids_param country in
  r <- try_except_on caught
         (data <- urlopen_json url ;; ret (Some data))
         (fun e => warn i e ;;; ret None) ;;
  match r with
  | None => ret metadata        (* continue *)
  | Some data =>
      let metadata' := add_results metadata (default [] data) in
      (if (i + LOOKUP_BATCH_SIZE <? length app_ids)%nat
       then sleep (1 # 2) else ret tt) ;;;
      ret metadata'
  end.

Definition lookup_app_metadata (app_ids : list string) (country : string)
  : M LWorld (gmap string AppMeta) :=
  for_each (py_range_step (length app_ids) LOOKUP_BATCH_SIZE)
           (lookup_batch app_ids country) ∅.

End Catalog.
End Lookup.

(** ** Reference quantities used to state the properties *)

(** The outcomes recorded for key [k], and the three counts the breakdown
    is meant to report for it. *)
Definition with_key (k : string) (rs : list RequestResult) : list RequestResult :=
  filter (fun r => term r = k) rs.

Definition stats_of (k : string) (rs : list RequestResult) : TermStats :=
  mkTermStats
    (length (filter (fun r => is_success (status_code r) = true) (with_key k rs)))
    (length (filter (fun r => is_limited (status_code r) = true) (with_key k rs)))
    (length (with_key k rs)).

Definition add_stats (a b : TermStats) : TermStats :=
  mkTermStats (success a + success b) (limited a + limited b) (total a + total b).

(** A response outcome for key [k] with status [sc]. *)
Definition outcome (k : string) (sc : Z) : RequestResult :=
  mkRequestResult sc 0 0 [] k None "".

(** ** The Pacer as the specification words it *)

(** [paced execute interval i n w rs w']: starting in world [w], [n]
    iterations numbered from [i] run one after the other; each records the
    time at its entry, performs [execute], then sleeps for
    [max(0, interval - elapsed)], where [elapsed] is the time since the
    entry of that iteration; [rs] are the outcomes in issue order and [w']
    is the world after the last sleep. *)
Inductive paced (execute : nat -> M World RequestResult) (interval : Q)
  : nat -> nat -> World -> list RequestResult -> World -> Prop :=
| paced_done (i : nat) (w : World) : paced execute interval i 0 w [] w
| paced_iter (i n : nat) (w w1 w2 w3 : World) (r : RequestResult)
             (rs : list RequestResult) :
    execute i w = (inr r, w1) ->
    sent w2 = sent w1 ->
    stdout w2 = stdout w1 ->
    (now w2 == now w1 + Qmax 0 (interval - (now w1 - now w)))%Q ->
    paced execute interval (S i) n w2 rs w3 ->
    paced execute interval i (S n) w (r :: rs) w3.

(** ** The Ramp Controller as the specification words it *)

Inductive RampOutcome : Type :=
| Detected (rate : Q)    (* a step exceeded the threshold at this rate *)
| Exhausted.             (* the rate passed the ceiling, no limit seen *)

(** [limitedCountInStep / stepRequestCount], zero for an empty step *)
Definition limited_fraction (rs : list RequestResult) : Q :=
  match rs with
  | [] => 0
  | _ :: _ => inject_Z (count_limited rs) / inject_Z (Z.of_nat (length rs))
  end.

Definition say (o : Output) (w : World) : World :=
  mkWorld (now w) (sent w) (stdout w ++ [o]).

(** [ramp_run execute maxRate stepSize stepDuration k rate w steps o w']:
    the controller is in state Stepping at its [k]-th step, whose rate is
    [k * stepSize]; [steps] lists the steps it still executes, each with
    its rate and outcomes; it ends in [o] and world [w']. *)
Inductive ramp_run (execute : nat -> M World RequestResult)
    (maxRate stepSize stepDuration : Q)
  : nat -> Q -> World -> list (Q * list RequestResult) -> RampOutcome -> World -> Prop :=
| ramp_exhausted (k : nat) (rate : Q) (w : World) :
    (rate == inject_Z (Z.of_nat k) * stepSize)%Q ->
    (maxRate < rate)%Q ->
    ramp_run execute maxRate stepSize stepDuration k rate w [] Exhausted w
| ramp_detected (k : nat) (rate : Q) (w w1 : World) (rs : list RequestResult) :
    (rate == inject_Z (Z.of_nat k) * stepSize)%Q ->
    (rate <= maxRate)%Q ->
    paced execute (1 / rate) 0 (Z.to_nat (Qfloor (rate * stepDuration))) w rs w1 ->
    (1 # 5 < limited_fraction rs)%Q ->
    ramp_run execute maxRate stepSize stepDuration k rate w
             [(rate, rs)] (Detected rate) (say (OutLimitHit rate) w1)
| ramp_continue (k : nat) (rate : Q) (w w1 w3 : World) (rs : list RequestResult)
                (steps : list (Q * list RequestResult)) (o : RampOutcome) :
    (rate == inject_Z (Z.of_nat k) * stepSize)%Q ->
    (rate <= maxRate)%Q ->
    paced execute (1 / rate) 0 (Z.to_nat (Qfloor (rate * stepDuration))) w rs w1 ->
    (limited_fraction rs <= 1 # 5)%Q ->
    ramp_run execute maxRate stepSize stepDuration (S k) (rate + stepSize)
             (say (OutStepOK rate) w1) steps o w3 ->
    ramp_run execute maxRate stepSize stepDuration k rate w
             ((rate, rs) :: steps) o w3.

(** The verdict lines a run of the controller prints. *)
Fixpoint ramp_lines (steps : list (Q * list RequestResult)) (o : RampOutcome)
  : list Output :=
  match steps with
  | [] => []
  | [(rate, _)] =>
      match o with
      | Detected _ => [OutLimitHit rate]
      | Exhausted => [OutStepOK rate]
      end
  | (rate, _) :: steps' => OutStepOK rate :: ramp_lines steps' o
  end.

(** ** The batched lookup as the specification words it *)

Module LookupSpec.
Import Lookup.

Definition batch_url (app_ids : list string) (country : string) (i : nat) : string :=
  lookup_url (str_join "," (take LOOKUP_BATCH_SIZE (drop i app_ids))) country.

(** The replies of the catalog to the batches at offsets [offs], when
    [k] URLs were opened before: each with its offset. *)
Fixpoint batch_replies (fetch : nat -> string -> Exn + option (list TrackJson))
    (app_ids : list string) (country : string) (k : nat) (offs : list nat)
  : list (nat * (Exn + option (list TrackJson))) :=
  match offs with
  | [] => []
  | i :: offs' =>
      (i, fetch k (batch_url app_ids country i))
        :: batch_replies fetch app_ids country (S k) offs'
  end.

(** The metadata gathered from the batches that succeeded. *)
Definition gathered (replies : list (nat * (Exn + option (list TrackJson))))
  : gmap string AppMeta :=
  foldl (fun m r =>
           match snd r with
           | inr data => add_results m (default [] data)
           | inl _ => m
           end) ∅ replies.

(** The failed batches, as reported. *)
Definition reported (replies : list (nat * (Exn + option (list TrackJson))))
  : list (nat * Exn) :=
  flat_map (fun r => match snd r with
                     | inl e => [(fst r, e)]
                     | inr _ => []
                     end) replies.

(** A failure of the request itself, as [urlopen] signals it. *)
Definition request_failure (r : nat * (Exn + option (list TrackJson))) : Prop :=
  forall e, snd r = inl e -> caught e = true.

End LookupSpec.

(** ** Sample inputs *)

Definition sample_params : gmap string string :=
  <["term"%string := "bill tracker"%string]> (<["limit"%string := "15"%string]> ∅).

Definition sample_config : Config :=
  mkConfig (Some "https://example.test/search"%string) (Some "GET"%string)
           (Some sample_params) (Some ∅) None.

Definition world0 : World := mkWorld 0 [] [].

(** A remote end that answers every request after a tenth of a second
    with status [sc] and body [text]. *)
Definition net_const (sc : Z) (text : string) : nat -> Request -> NetCall :=
  fun _ _ => mkNetCall (1 # 10) (inr (mkResponse sc [] text)).

(** A remote end that never answers. *)
Definition net_down : nat -> Request -> NetCall :=
  fun _ _ => mkNetCall 30 (inl (RequestException "Read timed out."%string)).

(** A remote end that answers the first [n] requests with 200 and every
    later one with 429. *)
Definition net_limit_after (n : nat) : nat -> Request -> NetCall :=
  fun k _ => mkNetCall (1 # 10)
               (inr (mkResponse (if (k <? n)%nat then 200 else 429) [] "")).

Definition lworld0 : Lookup.LWorld := Lookup.mkLWorld [] [] 0.

Definition sample_track (id : string) : Lookup.TrackJson :=
  Lookup.mkTrackJson (Some id) (Some "App"%string) None None None None None None.

(** A catalog whose first reply fails with [e] and whose later replies
    hold one track. *)
Definition fetch_first_fails (e : Exn)
  : nat -> string -> Exn + option (list Lookup.TrackJson) :=
  fun k _ => match k with
             | O => inl e
             | S _ => inr (Some [sample_track "42"])
             end.

(** 151 identifiers: two batches. *)
Definition sample_ids : list string := replicate 151 "7"%string.

(** ** The configuration built by [main] *)

(** [str.isspace] on the ASCII range *)
Definition is_space (c : ascii) : bool :=
  let n := nat_of_ascii c in
  ((9 <=? n) && (n <=? 13) || (28 <=? n) && (n <=? 32))%nat.

Fixpoint py_lstrip (s : string) : string :=
  match s with
  | EmptyString => EmptyString
  | String c s' => if is_space c then py_lstrip s' else s
  end.

Fixpoint py_rstrip (s : string) : string :=
  match s with
  | EmptyString => EmptyString
  | String c s' =>
      match py_rstrip s' with
      | EmptyString => if is_space c then EmptyString else String c EmptyString
      | r => String c r
      end
  end.

(** [s.strip()] *)
Definition py_strip (s : string) : string := py_rstrip (py_lstrip s).

(** [head, _, tail = s.partition(":")]: the split at the first colon;
    the tail is empty when there is no colon. *)
Fixpoint partition_colon (s : string) : string * string :=
  match s with
  | EmptyString => (EmptyString, EmptyString)
  | String c s' =>
      if Ascii.eqb c ":"%char then (EmptyString, s')
      else let '(head, tail) := partition_colon s' in (String c head, tail)
  end.

Definition first_char (s : string) : option ascii :=
  match s with
  | EmptyString => None
  | String c _ => Some c
  end.

Fixpoint last_char (s : string) : option ascii :=
  match s with
  | EmptyString => None
  | String c EmptyString => Some c
  | String _ s' => last_char s'
  end.

(** A string that neither starts nor ends with white space. *)
Definition trimmed (s : string) : bool :=
  negb (from_option is_space false (first_char s)) &&
  negb (from_option is_space false (last_char s)).

(** The key and the value stored for one [--header] argument. *)
Definition parse_header (h : string) : string * string :=
  let '(key, value) := partition_colon h in (py_strip key, py_strip value).

(** Truthiness of an optional command-line string. *)
Definition arg_given (a : option string) : option string :=
  match a with
  | Some s => if str_truthy s then Some s else None
  | None => None
  end.

(** Lines 580 to 590 of [main]: the copy of [CONFIG] with the overrides
    of the command line. *)
Definition build_config (CONFIG : Config) (url method : option string)
    (header : option (list string)) : Exn + Config :=
  match cfg_params CONFIG with
  | None => inl (KeyError "params")
  | Some params =>
      match cfg_headers CONFIG with
      | None => inl (KeyError "headers")
      | Some headers0 =>
          let url' := match arg_given url with
                      | Some u => Some u
                      | None => cfg_url CONFIG
                      end in
          let method' := match arg_given method with
                         | Some m => Some m
                         | None => cfg_method CONFIG
                         end in
          let headers' :=
            match header with
            | Some ((_ :: _) as hs) =>
                foldl (fun hd h => <[fst (parse_header h) := snd (parse_header h)]> hd)
                      headers0 hs
            | _ => headers0
            end in
          inr (mkConfig url' method' (Some params) (Some headers') (cfg_body CONFIG))
      end
  end.

(** ** The popularity score sketch *)

Module Popularity.

(** The dict returned by [find_first_suggestion_appearance]. *)
Record Appearance : Type := mkAppearance {
  prefix_length : Z;
  position : Z;          (* 1-indexed *)
  source : string;
}.

Definition prefix_score (ratio : Q) : Z :=
  Z.max 0 (Z.min 100 (py_int ((1 - ratio) * 100))).

Definition position_score (position : Z) : Z :=
  Z.max 0 (100 - (position - 1) * 15).

Definition source_multiplier (source : string) : Q :=
  if String.eqb source "7" then 1
  else if String.eqb source "8" then 6 # 10
  else 3 # 10.

Definition apple_bonus (apple_score : Q) : Q :=
  if Qlt_bool 5 apple_score then (1 + (apple_score - 5) / 100)%Q else 1%Q.

Section Score.

(** The names the sketch uses without defining them. *)
Variable find_first_suggestion_appearance : string -> string -> option Appearance.
Variable get_apple_popularity : string -> Q.
Variable density_score : Q.

Definition raw_score (fa : Appearance) (ratio apple_score : Q) : Q :=
  ((inject_Z (prefix_score ratio) * (50 # 100)
    + inject_Z (position_score (position fa)) * (30 # 100)
    + density_score * (20 # 100))
   * source_multiplier (source fa) * apple_bonus apple_score)%Q.

Definition calculate_popularity_score (keyword storefront : string) : Exn + Z :=
  let total_length := Z.of_nat (String.length keyword) in
  match find_first_suggestion_appearance keyword storefront with
  | None => inr 1
  | Some fa =>
      if total_length =? 0 then inl ZeroDivisionError
      else
        let ratio := (inject_Z (prefix_length fa) / inject_Z total_length)%Q in
        let apple_score := get_apple_popularity keyword in
        inr (Z.max 1 (Z.min 100 (py_int (raw_score fa ratio apple_score))))
  end.

End Score.
End Popularity.

(** ** Reference quantities for the batched lookup *)

Module LookupMore.
Import Lookup LookupSpec.

(** [app_ids[i:i + LOOKUP_BATCH_SIZE]] *)
Definition batch_at (app_ids : list string) (i : nat) : list string :=
  take LOOKUP_BATCH_SIZE (drop i app_ids).

(** The batches that are followed by the courtesy pause: those that
    succeeded and are not the last one. *)
Definition paused_after (n : nat) (r : nat * (Exn + option (list TrackJson))) : bool :=
  match snd r with
  | inr _ => (fst r + LOOKUP_BATCH_SIZE <? n)%nat
  | inl _ => false
  end.

(** The entries returned by the batches that succeeded, in order. *)
Definition returned (replies : list (nat * (Exn + option (list TrackJson))))
  : list TrackJson :=
  flat_map (fun r => match snd r with
                     | inr data => default [] data
                     | inl _ => []
                     end) replies.

(** The last entry of [rs] whose [trackId] (in its [str] form) is [k]. *)
Definition last_with_id (k : string) (rs : list TrackJson) : option TrackJson :=
  foldl (fun acc r => if decide (default ""%string (trackId r) = k) then Some r else acc)
        None rs.

End LookupMore.

(** ** [run_repeat_per_term_test] *)

Section Repeat.

Variable net : nat -> Request -> NetCall.

(** The body of the inner loop; the accumulator holds [report.results]
    and [req_num]. *)
Definition repeat_body (config : Config) (repeats_per_term : Z) (delay_between : Q)
    (term : string) (j : nat) (acc : list RequestResult * nat)
  : M World (list RequestResult * nat) :=
  let req_num := S (snd acc) in
  result <- send_request net config req_num (Some term) ;;
  let rs' := fst acc ++ [result] in
  (if Qlt_bool 0 delay_between && (Z.of_nat j <? repeats_per_term - 1)
   then time_sleep delay_between else ret tt) ;;;
  ret (rs', req_num).

(** The body of the outer loop over the pool. *)
Definition repeat_term (config : Config) (repeats_per_term : Z) (delay_between : Q)
    (term : string) (acc : list RequestResult * nat)
  : M World (list RequestResult * nat) :=
  for_each (py_range repeats_per_term)
           (repeat_body config repeats_per_term delay_between term) acc.

Definition run_repeat_per_term_test (TERM_POOLS : gmap string (list string))
    (config : Config) (repeats_per_term : Z) (delay_between : Q) (pool_name : string)
  : M World TestReport :=
  start <- time_time ;;
  terms <- get_pool TERM_POOLS pool_name "small" ;;
  acc <- for_each terms (repeat_term config repeats_per_term delay_between) ([], 0%nat) ;;
  stop <- time_time ;;
  ret (mkTestReport (fst acc) start stop).

End Repeat.

(** ** Further statistics of [TestReport] *)

(** [TestReport.duration] *)
Definition duration (rep : TestReport) : Q := (end_time rep - start_time rep)%Q.

(** [counts[r.status_code] += 1] on a [defaultdict(int)] *)
Definition bump_count (counts : gmap Z nat) (r : RequestResult) : gmap Z nat :=
  <[status_code r := S (default 0%nat (counts !! status_code r))]> counts.

(** The order in which [sorted] puts [(status, count)] tuples. *)
Definition item_le (x y : Z * nat) : Prop :=
  fst x < fst y \/ (fst x = fst y /\ (snd x <= snd y)%nat).

#[global] Instance item_le_dec (x y : Z * nat) : Decision (item_le x y).
Proof. unfold item_le. apply _. Defined.

(** [TestReport.status_counts]: [dict(sorted(counts.items()))], kept as
    the list of its items in order. *)
Definition status_counts (rep : TestReport) : list (Z * nat) :=
  merge_sort item_le (map_to_list (foldl bump_count ∅ (results rep))).

Definition has_no_error (r : RequestResult) : bool :=
  match error r with
  | None => true
  | Some _ => false
  end.

(** [sum(lats)]: the additions run from the left, starting at 0 *)
Definition py_sum (xs : list Q) : Q := foldl Qplus 0%Q xs.

(** [TestReport.avg_latency] *)
Definition avg_latency (rep : TestReport) : Q :=
  let lats := List.map latency_ms (List.filter has_no_error (results rep)) in
  match lats with
  | [] => 0%Q
  | _ :: _ => (py_sum lats / inject_Z (Z.of_nat (length lats)))%Q
  end.

(** ** [print_summary] *)

(** A [dict] whose iteration order matters: the items in insertion
    order.  Assigning to a key that is present keeps its place. *)
Fixpoint odict_set {V} (k : string) (v : V) (d : list (string * V)) : list (string * V) :=
  match d with
  | [] => [(k, v)]
  | (k', v') :: d' =>
      if String.eqb k' k then (k', v) :: d' else (k', v') :: odict_set k v d'
  end.

Fixpoint odict_get {V} (k : string) (d : list (string * V)) : option V :=
  match d with
  | [] => None
  | (k', v') :: d' => if String.eqb k' k then Some v' else odict_get k d'
  end.

(** [d.update(other)] *)
Definition odict_update {V} (d other : list (string * V)) : list (string * V) :=
  foldl (fun acc kv => odict_set (fst kv) (snd kv) acc) d other.

(** [report.per_term_stats()] with the order of its items: one
    iteration of the loop, on the ordered dict. *)
Definition per_term_item_step (by_term : list (string * TermStats)) (r : RequestResult)
  : list (string * TermStats) :=
  let s := default default_stats (odict_get (term r) by_term) in
  let s1 := mkTermStats (success s) (limited s) (S (total s)) in
  let s2 :=
    if is_success (status_code r) then mkTermStats (S (success s1)) (limited s1) (total s1)
    else if is_limited (status_code r) then mkTermStats (success s1) (S (limited s1)) (total s1)
    else s1 in
  odict_set (term r) s2 by_term.

Definition per_term_items (rep : TestReport) : list (string * TermStats) :=
  foldl per_term_item_step [] (results rep).

(** [sorted(items, key=lambda x: x[1]["limited"], reverse=True)]: a
    stable sort into non-increasing order of the limited count. *)
Fixpoint insert_by_limited (x : string * TermStats) (l : list (string * TermStats))
  : list (string * TermStats) :=
  match l with
  | [] => [x]
  | y :: l' =>
      if (limited (snd y) <=? limited (snd x))%nat then x :: y :: l'
      else y :: insert_by_limited x l'
  end.

Definition sorted_by_limited (l : list (string * TermStats)) : list (string * TermStats) :=
  foldr insert_by_limited [] l.

(** [next((i for i, r in enumerate(results) if r.status_code in (429, 403)), None)] *)
Fixpoint first_limited_from (i : nat) (rs : list RequestResult) : option nat :=
  match rs with
  | [] => None
  | r :: rs' => if is_limited (status_code r) then Some i else first_limited_from (S i) rs'
  end.

(** One row of the per-term table: term, counts, limit percentage, flag. *)
Definition per_term_row (kv : string * TermStats) : string * TermStats * Q * bool :=
  let stats := snd kv in
  let pct :=
    match total stats with
    | O => 0%Q
    | S _ => (inject_Z (Z.of_nat (limited stats)) / inject_Z (Z.of_nat (total stats)) * 100)%Q
    end in
  (fst kv, stats, pct, Qlt_bool 0 pct).

(** The value of the last item of [l] with key [k]. *)
Definition last_value (k : string) (l : list (string * string)) : option string :=
  snd <$> last (filter (fun kv => fst kv = k) l).

(** What [print_summary] prints. *)
Record Summary : Type := mkSummary {
  sum_total : nat;
  sum_duration : Q;
  sum_effective_rps : Q;
  sum_success : Z;
  sum_limited : Z;
  sum_avg_latency : Q;
  sum_status : list (Z * nat);
  sum_headers : list (string * string);   (* empty: "No rate-limit headers detected" *)
  sum_first_limit : option (nat * option (Q * Q));
    (* the request number of the first limit, from 1; with the elapsed
       time and the rate up to it when that time is positive *)
  sum_per_term : option (list (string * TermStats * Q * bool));
    (* the per-term table, when there is more than one term *)
}.

Definition first_limit_line (rep : TestReport) : option (nat * option (Q * Q)) :=
  if 0 <? rate_limited_count rep then
    match first_limited_from 0 (results rep) with
    | None => None
    | Some first_limited =>
        match results rep !! first_limited with
        | None => None      (* not reached: the index is in range *)
        | Some r =>
            let elapsed_to_limit := (timestamp r - start_time rep)%Q in
            Some (S first_limited,
                  if Qlt_bool 0 elapsed_to_limit
                  then Some (elapsed_to_limit,
                             (inject_Z (Z.of_nat first_limited) / elapsed_to_limit)%Q)
                  else None)
        end
    end
  else None.

Definition print_summary (rep : TestReport) : Exn + Summary :=
  let n := length (results rep) in
  if Qeq_bool (duration rep) 0 then inl ZeroDivisionError
  else
    let effective_rps := (inject_Z (Z.of_nat n) / duration rep)%Q in
    let all_rl_headers :=
      foldl (fun acc r => odict_update acc (headers r)) [] (results rep) in
    let per_term := per_term_items rep in
    inr (mkSummary n (duration rep) effective_rps (success_count rep)
           (rate_limited_count rep) (avg_latency rep) (status_counts rep)
           all_rl_headers (first_limit_line rep)
           (if (1 <? length per_term)%nat
            then Some (List.map per_term_row (sorted_by_limited per_term))
            else None)).

(** ** The rankings scraper: [extract_search_results] and [get_rankings] *)

Module Rankings.

(** A Python [float]: [json.loads] also accepts [Infinity], [-Infinity]
    and [NaN]. *)
Inductive pyfloat : Type :=
| Finite (q : Q)
| Infinity (negative : bool)
| NaN.

(** What [json.loads] returns.  A dict keeps its items in insertion
    order; its keys are strings. *)
#[local] Unset Elimination Schemes.
Inductive json : Type :=
| JNone
| JBool (b : bool)
| JInt (n : Z)
| JFloat (x : pyfloat)
| JStr (s : string)
| JList (xs : list json)
| JDict (items : list (string * json)).
#[local] Set Elimination Schemes.

(** The exceptions of this part of the code: those of [Exn], the two the
    dynamic typing adds, and [SystemExit]. *)
Inductive PyErr : Type :=
| Builtin (e : Exn)
| TypeError
| AttributeError
| SystemExit (code : Z).

Definition ebind {A B} (c : PyErr + A) (k : A -> PyErr + B) : PyErr + B :=
  match c with
  | inl e => inl e
  | inr a => k a
  end.

Notation "x <~ c ;; k" := (ebind c (fun x => k))
  (at level 63, c at next level, right associativity).

(** [for x in xs: body x], threading an accumulator *)
Fixpoint efor {A S} (xs : list A) (body : A -> S -> PyErr + S) (s : S)
  : PyErr + S :=
  match xs with
  | [] => inr s
  | x :: xs' => ebind (body x s) (efor xs' body)
  end.

(** *** Operations on JSON values, with the exceptions Python raises *)

(** [d.get(key)] inside a dict *)
Fixpoint dict_lookup (key : string) (items : list (string * json)) : option json :=
  match items with
  | [] => None
  | (k, v) :: items' => if String.eqb k key then Some v else dict_lookup key items'
  end.

(** [v.get(key, dflt)]: only a dict has [get] *)
Definition py_get (v : json) (key : string) (dflt : json) : PyErr + json :=
  match v with
  | JDict items => inr (default dflt (dict_lookup key items))
  | _ => inl AttributeError
  end.

(** [v[key]] for a string [key] *)
Definition py_getitem (v : json) (key : string) : PyErr + json :=
  match v with
  | JDict items =>
      match dict_lookup key items with
      | Some x => inr x
      | None => inl (Builtin (KeyError key))
      end
  | _ => inl TypeError
  end.

(** [v[0]]: a dict has string keys only, so [0] is never one of them *)
Definition py_getitem0 (v : json) : PyErr + json :=
  match v with
  | JList [] => inl (Builtin IndexError)
  | JList (x :: _) => inr x
  | JStr EmptyString => inl (Builtin IndexError)
  | JStr (String c _) => inr (JStr (String c EmptyString))
  | JDict _ => inl (Builtin (KeyError "0"))
  | _ => inl TypeError
  end.

Fixpoint chars (s : string) : list json :=
  match s with
  | EmptyString => []
  | String c s' => JStr (String c EmptyString) :: chars s'
  end.

(** [iter(v)] run to the end: a dict yields its keys, a string its
    characters *)
Definition py_iter (v : json) : PyErr + list json :=
  match v with
  | JList xs => inr xs
  | JDict items => inr (List.map (fun kv => JStr (fst kv)) items)
  | JStr s => inr (chars s)
  | _ => inl TypeError
  end.

(** [bool(v)] *)
Definition truthy (v : json) : bool :=
  match v with
  | JNone => false
  | JBool b => b
  | JInt n => negb (n =? 0)
  | JFloat (Finite q) => negb (Qeq_bool q 0)
  | JFloat _ => true
  | JStr s => str_truthy s
  | JList xs => match xs with [] => false | _ => true end
  | JDict items => match items with [] => false | _ => true end
  end.

(** [v == s] for a string [s]: only an equal string is equal to it *)
Definition py_eq_str (v : json) (s : string) : bool :=
  match v with
  | JStr t => String.eqb t s
  | _ => false
  end.

(** [sep in v] for a string [sep] *)
Definition py_contains (sep : string) (v : json) : PyErr + bool :=
  match v with
  | JStr s => inr (str_contains sep s)
  | JList xs => inr (existsb (fun x => py_eq_str x sep) xs)
  | JDict items => inr (existsb (fun kv => String.eqb (fst kv) sep) items)
  | _ => inl TypeError
  end.

(** [s.split(sep)[0]]: what precedes the first occurrence of [sep] *)
Fixpoint before_sep (sep s : string) : string :=
  if String.prefix sep s then EmptyString
  else match s with
       | EmptyString => EmptyString
       | String c s' => String c (before_sep sep s')
       end.

(** [v.split(sep)[0]]: only a string has [split] *)
Definition py_split_first (sep : string) (v : json) : PyErr + json :=
  match v with
  | JStr s => inr (JStr (before_sep sep s))
  | _ => inl AttributeError
  end.

(** [xs[:n]] *)
Definition py_slice_to {A} (n : Z) (xs : list A) : list A :=
  if 0 <=? n then take (Z.to_nat n) xs
  else take (length xs - Z.to_nat (- n)) xs.

(** *** [extract_search_results] *)

(** One entry of [results]; the keys ["developer"] and ["genre"] exist
    only once [get_rankings] has resolved the entry. *)
Record Row : Type := mkRow {
  rank : nat;
  id : json;
  name : json;
  bundle_id : json;
  impression_index : json;
  developer : option json;
  genre : option json;
}.

(** [data["data"][0]["data"]] *)
Definition navigate (data : json) : PyErr + json :=
  d <~ py_getitem data "data" ;;
  d0 <~ py_getitem0 d ;;
  py_getitem d0 "data".

(** The body of [for item in shelf.get("items", [])] *)
Definition item_row (item : json) (results : list Row) : PyErr + list Row :=
  lockup <~ py_get item "lockup" (JDict []) ;;
  if negb (truthy lockup) then inr results
  else
    metrics <~ py_get lockup "impressionMetrics" (JDict []) ;;
    fields <~ py_get metrics "fields" (JDict []) ;;
    raw_id <~ py_get fields "id" (JStr "") ;;
    has_sep <~ py_contains "::" raw_id ;;
    app_id <~ (if has_sep : bool then py_split_first "::" raw_id else inr raw_id) ;;
    name <~ py_get fields "name" (JStr "") ;;
    bundle <~ py_get fields "bundleId" (JStr "") ;;
    index <~ py_get fields "impressionIndex" JNone ;;
    inr (results ++ [mkRow (length results + 1) app_id name bundle index None None]).

(** The body of [for shelf in shelves] *)
Definition shelf_rows (shelf : json) (results : list Row) : PyErr + list Row :=
  content_type <~ py_get shelf "contentType" JNone ;;
  if negb (py_eq_str content_type "searchResult") then inr results
  else
    items <~ py_get shelf "items" (JList []) ;;
    xs <~ py_iter items ;;
    efor xs item_row results.

Definition first_page (page_data : json) (results : list Row) : PyErr + list Row :=
  shelves <~ py_get page_data "shelves" (JList []) ;;
  xs <~ py_iter shelves ;;
  efor xs shelf_rows results.

(** The body of [for item in deferred] *)
Definition deferred_row (item : json) (results : list Row) : PyErr + list Row :=
  type <~ py_get item "type" JNone ;;
  if py_eq_str type "apps" then
    app_id <~ py_getitem item "id" ;;
    inr (results ++ [mkRow (length results + 1) app_id (JStr "") (JStr "") JNone
                           None None])
  else inr results.

Definition next_page_rows (page_data : json) (results : list Row)
  : PyErr + list Row :=
  next_page <~ py_get page_data "nextPage" (JDict []) ;;
  match next_page with
  | JDict _ =>
      deferred <~ py_get next_page "results" (JList []) ;;
      xs <~ py_iter deferred ;;
      efor xs deferred_row results
  | _ => inr results
  end.

(** What the code does with the parsed blob once it has reached
    [page_data] *)
Definition page_rows (page_data : json) : PyErr + list Row :=
  results <~ first_page page_data [] ;;
  next_page_rows page_data results.

(** *** The world of [get_rankings] *)

(** The lines written to standard error. *)
Inductive ErrLine : Type :=
| Fetching (term country platform : string)
| HtmlFetched (length : nat)
| Found (n : nat)
| Resolving (n : nat)
| Resolved (n : nat)
| ErrorHttp (code : Z)
| ErrorUrl (url : string)
| ErrorNoData
| ErrorPageChanged
| ErrorJson (msg : string)
| ErrorStructure
| Warning (i : nat) (e : Exn).

Record RWorld : Type := mkRWorld {
  opened : list string;        (* the URLs opened, oldest first *)
  stderr : list ErrLine;
  slept : Q;                   (* total time spent in time.sleep *)
}.

Definition R (A : Type) : Type := RWorld -> (PyErr + A) * RWorld.

Definition rret {A} (a : A) : R A := fun w => (inr a, w).
Definition rraise {A} (e : PyErr) : R A := fun w => (inl e, w).
Definition rbind {A B} (c : R A) (k : A -> R B) : R B :=
  fun w => match c w with
           | (inl e, w') => (inl e, w')
           | (inr a, w') => k a w'
           end.

Notation "x <<- c ;; k" := (rbind c (fun x => k))
  (at level 63, c at next level, right associativity).
Notation "c ;;- k" := (rbind c (fun _ => k))
  (at level 63, right associativity).

Fixpoint rfor {A S} (xs : list A) (body : A -> S -> R S) (s : S) : R S :=
  match xs with
  | [] => rret s
  | x :: xs' => rbind (body x s) (rfor xs' body)
  end.

Definition pure {A} (c : PyErr + A) : R A := fun w => (c, w).

(** [print(..., file=sys.stderr)] *)
Definition eprint (l : ErrLine) : R unit :=
  fun w => (inr tt, mkRWorld (opened w) (stderr w ++ [l]) (slept w)).

(** [sys.exit(code)] *)
Definition sys_exit {A} (code : Z) : R A := rraise (SystemExit code).

(** A computation of [lookup_app_metadata] run in this world: it sees
    the URLs opened so far, and its warnings join the other lines. *)
Definition of_lookup {A} (c : M Lookup.LWorld A) : R A :=
  fun w =>
    let '(r, lw) := c (Lookup.mkLWorld (opened w) [] (slept w)) in
    (match r with inl e => inl (Builtin e) | inr a => inr a end,
     mkRWorld (Lookup.fetched lw)
              (stderr w ++ List.map (fun ie => Warning (fst ie) (snd ie))
                                    (Lookup.stderr lw))
              (Lookup.slept lw)).

Definition USER_AGENT : string :=
  "Mozilla/5.0 (Macintosh; Intel Mac OS X 10_15_7) AppleWebKit/537.36 (KHTML, like Gecko) Chrome/144.0.0.0 Safari/537.36".

Definition is_str (v : json) : bool :=
  match v with JStr _ => true | _ => false end.

Definition str_of (v : json) : string :=
  match v with JStr s => s | _ => EmptyString end.

Section Services.

(** Library functions and services the code calls:
    [urllib.parse.quote]; the regular-expression search for the
    [serialized-server-data] script, giving [match.group(1)];
    [json.loads], giving the message of the [JSONDecodeError] or the
    value; the search page, by URL and headers, giving the decoded body;
    the catalog service of [lookup_app_metadata]. *)
Variable quote : string -> string.
Variable re_search : string -> option string.
Variable json_loads : string -> string + json.
Variable urlopen_html : string -> list (string * string) -> Exn + string.
Variable fetch : nat -> string -> Exn + option (list Lookup.TrackJson).

Definition search_url (term country platform : string) : string :=
  String.append "https://apps.apple.com/"
    (String.append country (String.append "/" (String.append platform
      (String.append "/search?term=" (quote term))))).

Definition search_headers (country : string) : list (string * string) :=
  [ ("User-Agent", USER_AGENT);
    ("Accept", "text/html,application/xhtml+xml,application/xml;q=0.9,*/*;q=0.8");
    ("Accept-Language", "en-US,en;q=0.9");
    ("Cookie", String.append "geo=" (str_upper country));
    ("Sec-Fetch-Dest", "document");
    ("Sec-Fetch-Mode", "navigate");
    ("Sec-Fetch-Site", "none") ]%string.

(** [fetch_search_html]: only [HTTPError] is handled *)
Definition fetch_search_html (term country platform : string) : R string :=
  let url := search_url term country platform in
  fun w =>
    let w1 := mkRWorld (opened w ++ [url]) (stderr w) (slept w) in
    match urlopen_html url (search_headers country) with
    | inr html => (inr html, w1)
    | inl (HTTPError code) =>
        (eprint (ErrorHttp code) ;;- eprint (ErrorUrl url) ;;- sys_exit 1) w1
    | inl e => (inl (Builtin e), w1)
    end.

Definition extract_search_results (html : string) : R (list Row) :=
  match re_search html with
  | None => eprint ErrorNoData ;;- eprint ErrorPageChanged ;;- sys_exit 1
  | Some blob =>
      match json_loads blob with
      | inl msg => eprint (ErrorJson msg) ;;- sys_exit 1
      | inr data =>
          match navigate data with
          | inl (Builtin (KeyError _)) | inl (Builtin IndexError) =>
              eprint ErrorStructure ;;- sys_exit 1
          | inl e => rraise e
          | inr page_data => pure (page_rows page_data)
          end
      end
  end.

(** [lookup_app_metadata] on the identifiers as [get_rankings] passes
    them: [",".join(batch)] raises [TypeError] on a batch that holds
    anything but strings; a batch of strings goes through
    [Lookup.lookup_batch]. *)
Definition lookup_batch (app_ids : list json) (country : string)
    (i : nat) (metadata : gmap string Lookup.AppMeta)
  : R (gmap string Lookup.AppMeta) :=
  let batch := take Lookup.LOOKUP_BATCH_SIZE (drop i app_ids) in
  if forallb is_str batch
  then of_lookup (Lookup.lookup_batch fetch (List.map str_of app_ids) country i metadata)
  else rraise TypeError.

Definition lookup_app_metadata (app_ids : list json) (country : string)
  : R (gmap string Lookup.AppMeta) :=
  rfor (Lookup.py_range_step (length app_ids) Lookup.LOOKUP_BATCH_SIZE)
       (lookup_batch app_ids country) ∅.

(** [r["id"] in metadata] followed by [metadata[r["id"]]]: a list or a
    dict is unhashable; nothing but a string equals a key *)
Definition metadata_get (metadata : gmap string Lookup.AppMeta) (v : json)
  : PyErr + option Lookup.AppMeta :=
  match v with
  | JStr s => inr (metadata !! s)
  | JList _ | JDict _ => inl TypeError
  | _ => inr None
  end.

(** The four assignments to [r] *)
Definition with_metadata (r : Row) (m : Lookup.AppMeta) : Row :=
  mkRow (rank r) (id r) (JStr (Lookup.name m)) (JStr (Lookup.bundle_id m))
        (impression_index r)
        (Some (JStr (Lookup.developer m))) (Some (JStr (Lookup.genre m))).

(** The body of [for r in results] in [get_rankings] *)
Definition resolve_row (metadata : gmap string Lookup.AppMeta) (r : Row)
  : PyErr + Row :=
  if negb (truthy (name r)) then
    found <~ metadata_get metadata (id r) ;;
    match found with
    | Some m => inr (with_metadata r m)
    | None => inr r
    end
  else inr r.

Fixpoint resolve_rows (metadata : gmap string Lookup.AppMeta) (rs : list Row)
  : PyErr + list Row :=
  match rs with
  | [] => inr []
  | r :: rs' =>
      r' <~ resolve_row metadata r ;;
      rs'' <~ resolve_rows metadata rs' ;;
      inr (r' :: rs'')
  end.

(** [[r["id"] for r in results if not r["name"]]] *)
Definition ids_needing_names (results : list Row) : list json :=
  List.map id (List.filter (fun r => negb (truthy (name r))) results).

Definition get_rankings (term country platform : string) (top_n : Z)
    (resolve_names : bool) : R (list Row) :=
  eprint (Fetching term country platform) ;;-
  html <<- fetch_search_html term country platform ;;
  eprint (HtmlFetched (String.length html)) ;;-
  results <<- extract_search_results html ;;
  eprint (Found (length results)) ;;-
  let results := py_slice_to top_n results in
  if resolve_names then
    let ids := ids_needing_names results in
    match ids with
    | [] => rret results
    | _ :: _ =>
        eprint (Resolving (length ids)) ;;-
        metadata <<- lookup_app_metadata ids country ;;
        results' <<- pure (resolve_rows metadata results) ;;
        eprint (Resolved (size metadata)) ;;-
        rret results'
    end
  else rret results.

End Services.

(** *** Reference quantities used to state the properties *)

(** The ranks count the entries from 1. *)
Definition ranked (rs : list Row) : Prop :=
  List.map rank rs = seq 1 (length rs).

Definition typing_error (e : PyErr) : bool :=
  match e with
  | TypeError | AttributeError => true
  | _ => false
  end.

(** [page_data["nextPage"]["results"]] where both are what the code
    expects, nothing otherwise *)
Definition deferred_entries (page_data : json) : list json :=
  match page_data with
  | JDict items =>
      match default (JDict []) (dict_lookup "nextPage" items) with
      | JDict next_page =>
          match default (JList []) (dict_lookup "results" next_page) with
          | JList xs => xs
          | _ => []
          end
      | _ => []
      end
  | _ => []
  end.

Definition is_app (x : json) : bool :=
  match x with
  | JDict items => py_eq_str (default JNone (dict_lookup "type" items)) "apps"
  | _ => false
  end.

Definition entry_id (x : json) : option json :=
  match x with
  | JDict items => dict_lookup "id" items
  | _ => None
  end.

(** An entry as the deferred loop builds it *)
Definition nameless (r : Row) : Prop :=
  name r = JStr "" /\ bundle_id r = JStr "" /\ impression_index r = JNone.

(** How an entry of the trimmed list and the entry returned for it
    relate, given the metadata of the lookup *)
Definition resolution (metadata : gmap string Lookup.AppMeta) (r r' : Row) : Prop :=
  if truthy (name r) then r' = r
  else exists s, id r = JStr s /\
                 r' = match metadata !! s with
                      | Some m => with_metadata r m
                      | None => r
                      end.

End Rankings.

(** *** Sample inputs for the rankings scraper *)

Definition sample_fields : list (string * Rankings.json) :=
  [ ("id"%string, Rankings.JStr "284882215::organic");
    ("name"%string, Rankings.JStr "Facebook");
    ("bundleId"%string, Rankings.JStr "com.facebook.Facebook");
    ("impressionIndex"%string, Rankings.JInt 0) ].

Definition sample_item : Rankings.json :=
  Rankings.JDict [("lockup"%string, Rankings.JDict
    [("impressionMetrics"%string, Rankings.JDict
       [("fields"%string, Rankings.JDict sample_fields)])])].

Definition sample_page : Rankings.json :=
  Rankings.JDict
    [ ("shelves"%string, Rankings.JList
         [Rankings.JDict [("contentType"%string, Rankings.JStr "searchResult");
                          ("items"%string, Rankings.JList [sample_item])]]);
      ("nextPage"%string, Rankings.JDict
         [("results"%string, Rankings.JList
             [Rankings.JDict [("type"%string, Rankings.JStr "apps");
                              ("id"%string, Rankings.JStr "42")];
              Rankings.JDict [("type"%string, Rankings.JStr "editorial")];
              Rankings.JDict [("type"%string, Rankings.JStr "apps");
                              ("id"%string, Rankings.JStr "7")]])]) ].

Definition sample_data : Rankings.json :=
  Rankings.JDict
    [("data"%string, Rankings.JList [Rankings.JDict [("data"%string, sample_page)]])].

(** A page whose script holds [blob]: the search finds the whole text;
    the parser knows two blobs. *)
Definition sample_re_search (html : string) : option string :=
  if String.eqb html "" then None else Some html.

Definition sample_json_loads (blob : string) : string + Rankings.json :=
  if String.eqb blob "{page}" then inr sample_data
  else if String.eqb blob "{}" then inr (Rankings.JDict [])
  else inl "Expecting value: line 1 column 1 (char 0)"%string.

Definition sample_quote (term : string) : string := term.

Definition sample_urlopen (html : string)
  : string -> list (string * string) -> Exn + string :=
  fun _ _ => inr html.

Definition rworld0 : Rankings.RWorld := Rankings.mkRWorld [] [] 0.

(** * Properties *)

(** ** The comparison conclusion *)

Lemma Qlt_bool_iff (x y : Q) : Qlt_bool x y = true <-> (x < y)%Q.
Proof.
  unfold Qlt_bool. rewrite negb_true_iff.
  destruct (Qle_bool y x) eqn:E.
  - apply Qle_bool_iff in E. split; [discriminate | intros H; exfalso; lra].
  - split; [intros _ | reflexivity].
    destruct (Qlt_le_dec x y) as [H | H]; [exact H |].
    apply Qle_bool_iff in H. congruence.
Qed.

Lemma Qlt_bool_false_iff (x y : Q) : Qlt_bool x y = false <-> (y <= x)%Q.
Proof.
  unfold Qlt_bool. rewrite negb_false_iff. apply Qle_bool_iff.
Qed.

(** ** The key rotation *)

Lemma pool_next_lookup (keys : list string) (i : nat) :
  keys <> [] ->
  exists k, pool_next keys i = inr k /\
            keys !! (i mod length keys)%nat = Some k.
Proof.
  intros Hne.
  assert (Hlen : (0 < length keys)%nat) by (destruct keys; [congruence | simpl; lia]).
  assert (Hlt : (i mod length keys < length keys)%nat) by (apply Nat.mod_upper_bound; lia).
  destruct (lookup_lt_is_Some_2 keys _ Hlt) as [k Hk].
  exists k. split; [| exact Hk].
  unfold pool_next. destruct (length keys) eqn:E; [lia |].
  rewrite Hk. reflexivity.
Qed.

Lemma pool_next_shift (keys : list string) (i : nat) :
  pool_next keys (i + length keys) = pool_next keys i.
Proof.
  unfold pool_next. destruct (length keys) as [| n] eqn:E; [reflexivity |].
  rewrite <- E.
  replace ((i + length keys) mod length keys)%nat with (i mod length keys)%nat;
    [reflexivity |].
  rewrite <- (Nat.Div0.add_mod_idemp_r i (length keys)), Nat.Div0.mod_same, Nat.add_0_r.
  reflexivity.
Qed.

(** C8: on a non-empty pool the key chosen for request index [i] is
    [keys[i mod len(keys)]], and the choice is periodic with period
    [len(keys)]. *)
Theorem pool_next_periodic (keys : list string) (i : nat) :
  keys <> [] ->
  (exists k, pool_next keys i = inr k /\
             keys !! (i mod length keys)%nat = Some k) /\
  pool_next keys (i + length keys) = pool_next keys i.
Proof.
  intros Hne. split; [apply pool_next_lookup; exact Hne | apply pool_next_shift].
Qed.

Lemma pool_next_periodic_witness :
  pool_next pool_small 7 = inr "fitness coach"%string /\
  pool_next pool_small (7 + 5) = pool_next pool_small 7.
Proof.
  assert (Hne : pool_small <> []) by discriminate.
  destruct (pool_next_periodic pool_small 7 Hne) as [[k [Hk _]] Hp].
  split; [reflexivity | exact Hp].
Defined.

(** ** The per-key breakdown *)

Lemma success_not_limited (sc : Z) : is_success sc = true -> is_limited sc = false.
Proof. unfold is_success, is_limited. lia. Qed.

Lemma stats_of_cons_eq (k : string) (r : RequestResult) (rs : list RequestResult) :
  term r = k ->
  stats_of k (r :: rs) =
  add_stats
    (if is_success (status_code r) then mkTermStats 1 0 1
     else if is_limited (status_code r) then mkTermStats 0 1 1
     else mkTermStats 0 0 1)
    (stats_of k rs).
Proof.
  intros Hk. unfold stats_of, with_key, add_stats.
  rewrite filter_cons_True by exact Hk.
  destruct (is_success (status_code r)) eqn:Es.
  - rewrite filter_cons_True by exact Es.
    rewrite filter_cons_False by (rewrite (success_not_limited _ Es); discriminate).
    reflexivity.
  - rewrite filter_cons_False by (rewrite Es; discriminate).
    destruct (is_limited (status_code r)) eqn:El.
    + rewrite filter_cons_True by exact El. reflexivity.
    + rewrite filter_cons_False by (rewrite El; discriminate). reflexivity.
Qed.

Lemma stats_of_cons_ne (k : string) (r : RequestResult) (rs : list RequestResult) :
  term r <> k -> stats_of k (r :: rs) = stats_of k rs.
Proof.
  intros Hk. unfold stats_of, with_key. rewrite filter_cons_False by exact Hk. reflexivity.
Qed.

Lemma add_stats_assoc (a b c : TermStats) :
  add_stats (add_stats a b) c = add_stats a (add_stats b c).
Proof. unfold add_stats. simpl. f_equal; lia. Qed.

Lemma add_stats_default_l (a : TermStats) : add_stats default_stats a = a.
Proof. destruct a. reflexivity. Qed.

(** The loop adds, to whatever the dict holds for [k], the counts of the
    outcomes with key [k]; keys without outcomes are left alone. *)
Lemma per_term_fold_lookup (rs : list RequestResult) (m : gmap string TermStats) (k : string) :
  foldl per_term_step m rs !! k =
  match with_key k rs with
  | [] => m !! k
  | _ :: _ => Some (add_stats (default default_stats (m !! k)) (stats_of k rs))
  end.
Proof.
  revert m. induction rs as [| r rs IH]; intros m; [reflexivity |].
  simpl foldl. rewrite IH. clear IH.
  destruct (decide (term r = k)) as [Hk | Hk].
  - unfold with_key at 2. rewrite filter_cons_True by exact Hk.
    rewrite (stats_of_cons_eq _ _ _ Hk).
    assert (Hl : per_term_step m r !! k =
                 Some (add_stats (default default_stats (m !! k))
                         (if is_success (status_code r) then mkTermStats 1 0 1
                          else if is_limited (status_code r) then mkTermStats 0 1 1
                          else mkTermStats 0 0 1))).
    { unfold per_term_step. rewrite Hk, lookup_insert_eq. f_equal.
      unfold add_stats.
      destruct (is_success (status_code r)), (is_limited (status_code r)); simpl;
        f_equal; lia. }
    rewrite Hl. simpl.
    destruct (with_key k rs) eqn:E.
    + f_equal. unfold stats_of. rewrite E. simpl.
      unfold add_stats. simpl. f_equal; lia.
    + f_equal. apply add_stats_assoc.
  - unfold with_key at 2. rewrite filter_cons_False by exact Hk.
    fold (with_key k rs). rewrite (stats_of_cons_ne _ _ _ Hk).
    unfold per_term_step. rewrite lookup_insert_ne by exact Hk. reflexivity.
Qed.

Lemma per_term_stats_lookup (rep : TestReport) (k : string) :
  per_term_stats rep !! k =
  match with_key k (results rep) with
  | [] => None
  | _ :: _ => Some (stats_of k (results rep))
  end.
Proof.
  unfold per_term_stats. rewrite per_term_fold_lookup, lookup_empty. simpl.
  destruct (with_key k (results rep)); [reflexivity |].
  rewrite add_stats_default_l. reflexivity.
Qed.

Lemma stats_of_Permutation (k : string) (rs rs' : list RequestResult) :
  rs ≡ₚ rs' -> with_key k rs ≡ₚ with_key k rs' /\ stats_of k rs = stats_of k rs'.
Proof.
  intros HP.
  assert (HK : with_key k rs ≡ₚ with_key k rs') by (unfold with_key; rewrite HP; reflexivity).
  split; [exact HK |].
  unfold stats_of. rewrite HK. reflexivity.
Qed.

(** C7: the per-key breakdown maps each key that has outcomes to its
    total, its 2xx count and its 429/403 count; it does not depend on the
    order of the stored outcomes; and a report with three outcomes for "a"
    (two successes, one limited) and two for "b" (both successes) yields
    [{a: total=3 success=2 limited=1, b: total=2 success=2 limited=0}]. *)
Theorem per_term_stats_permutation_invariant (rep rep' : TestReport) :
  (forall k : string,
     per_term_stats rep !! k =
     match with_key k (results rep) with
     | [] => None
     | _ :: _ => Some (stats_of k (results rep))
     end) /\
  (results rep ≡ₚ results rep' -> per_term_stats rep = per_term_stats rep') /\
  ((forall r, r ∈ results rep -> term r = "a"%string \/ term r = "b"%string) ->
   stats_of "a" (results rep) = mkTermStats 2 1 3 ->
   stats_of "b" (results rep) = mkTermStats 2 0 2 ->
   per_term_stats rep =
   <["a"%string := mkTermStats 2 1 3]> (<["b"%string := mkTermStats 2 0 2]> ∅)).
Proof.
  split; [apply per_term_stats_lookup |]. split.
  - intros HP. apply map_eq. intros k.
    rewrite !per_term_stats_lookup.
    destruct (stats_of_Permutation k _ _ HP) as [HK ->].
    destruct (with_key k (results rep)) as [| x xs].
    + destruct (with_key k (results rep')); [reflexivity |].
      apply Permutation_nil_cons in HK. contradiction.
    + destruct (with_key k (results rep')); [| reflexivity].
      symmetry in HK. apply Permutation_nil_cons in HK. contradiction.
  - intros Hkeys Ha Hb. apply map_eq. intros k.
    rewrite per_term_stats_lookup.
    destruct (decide (k = "a"%string)) as [-> | Hna].
    { rewrite lookup_insert_eq, Ha.
      destruct (with_key "a" (results rep)) eqn:E; [| reflexivity].
      unfold stats_of in Ha. rewrite E in Ha. discriminate. }
    rewrite lookup_insert_ne by congruence.
    destruct (decide (k = "b"%string)) as [-> | Hnb].
    { rewrite lookup_insert_eq, Hb.
      destruct (with_key "b" (results rep)) eqn:E; [| reflexivity].
      unfold stats_of in Hb. rewrite E in Hb. discriminate. }
    rewrite lookup_insert_ne by congruence. rewrite lookup_empty.
    destruct (with_key k (results rep)) as [| x xs] eqn:E; [reflexivity |].
    assert (Hx : x ∈ with_key k (results rep)) by (rewrite E; left).
    unfold with_key in Hx. apply list_elem_of_filter in Hx as [Hxk Hin].
    destruct (Hkeys x Hin); congruence.
Qed.

Lemma per_term_stats_permutation_invariant_witness :
  per_term_stats
    (mkTestReport [outcome "a" 200; outcome "b" 200; outcome "a" 429;
                   outcome "b" 201; outcome "a" 204] 0 1) =
  per_term_stats
    (mkTestReport [outcome "b" 200; outcome "a" 200; outcome "a" 429;
                   outcome "b" 201; outcome "a" 204] 0 1) /\
  per_term_stats
    (mkTestReport [outcome "a" 200; outcome "b" 200; outcome "a" 429;
                   outcome "b" 201; outcome "a" 204] 0 1) =
  <["a"%string := mkTermStats 2 1 3]> (<["b"%string := mkTermStats 2 0 2]> ∅).
Proof.
  split.
  - apply (proj1 (proj2 (per_term_stats_permutation_invariant _ _))).
    simpl. apply perm_swap.
  - apply (proj2 (proj2 (per_term_stats_permutation_invariant _
                           (mkTestReport [] 0 0)))).
    + simpl. intros r Hr.
      repeat (apply elem_of_cons in Hr as [-> | Hr]; [simpl; tauto |]).
      apply elem_of_nil in Hr. contradiction.
    + vm_compute. reflexivity.
    + vm_compute. reflexivity.
Defined.

(** ** The request executor *)

Lemma str_take_length (n : nat) (s : string) : (String.length (str_take n s) <= n)%nat.
Proof.
  unfold str_take. revert s. induction n as [| n IH]; intros s.
  - destruct s; simpl; lia.
  - destruct s as [| c s]; simpl; [lia |]. specialize (IH s). lia.
Qed.

Lemma str_take_prefix (n : nat) (s : string) : String.prefix (str_take n s) s = true.
Proof.
  unfold str_take. revert s. induction n as [| n IH]; intros s.
  - destruct s; reflexivity.
  - destruct s as [| c s]; simpl; [reflexivity |].
    destruct (ascii_dec c c) as [_ | Hc]; [apply IH | congruence].
Qed.

Section Executor.

Variable net : nat -> Request -> NetCall.

(** [send_request], computed: a missing ["method"] or ["url"] and a
    failing network call all end in the [except] clause. *)
Lemma send_request_eq (config : Config) (n : nat) (term : option string) (w : World) :
  send_request net config n term w =
  match cfg_method config, cfg_url config with
  | Some m, Some u =>
      let req := request_kwargs config term (str_upper m) u in
      let c := net (length (sent w)) req in
      let w' := mkWorld (Qred (now w + took c)) (sent w ++ [req]) (stdout w) in
      match reply c with
      | inr resp =>
          (inr (response_result config term (now w)
                  ((Qred (now w + took c) - now w) * 1000)%Q resp), w')
      | inl e => (inr (error_result term (now w) e), w')
      end
  | Some _, None => (inr (error_result term (now w) (KeyError "url")), w)
  | None, _ => (inr (error_result term (now w) (KeyError "method")), w)
  end.
Proof.
  unfold send_request, send_request_try, send_request_except, try_except, bind,
    time_time, perf_counter, lookup_key, requests_request, ret, raise.
  destruct (cfg_method config) as [m |]; [| reflexivity].
  destruct (cfg_url config) as [u |]; [| reflexivity].
  simpl. destruct (reply _); reflexivity.
Qed.

(** The executor never raises, leaves the output alone and hands at
    most one request to the network. *)
Lemma send_request_returns (config : Config) (n : nat) (term : option string) (w : World) :
  exists r w', send_request net config n term w = (inr r, w') /\
               stdout w' = stdout w /\
               (sent w' = sent w \/ exists req, sent w' = sent w ++ [req]).
Proof.
  rewrite send_request_eq.
  destruct (cfg_method config), (cfg_url config); simpl;
    try destruct (reply _); eauto 10.
Qed.

End Executor.

(** C4: every call of the executor yields an outcome and no exception; an
    outcome that carries an error has status 0 and latency 0; and, as an
    HTTP response never carries status 0, status 0 only occurs together
    with an error. *)
Theorem send_request_outcome (net : nat -> Request -> NetCall)
    (config : Config) (n : nat) (term : option string) (w : World) :
  exists r w',
    send_request net config n term w = (inr r, w') /\
    (error r <> None -> status_code r = 0 /\ latency_ms r = 0%Q) /\
    ((forall k req resp, reply (net k req) = inr resp -> resp_status_code resp <> 0) ->
     (error r <> None <-> status_code r = 0)).
Proof.
  rewrite send_request_eq.
  destruct (cfg_method config) as [m |], (cfg_url config) as [u |]; simpl;
    try (eexists _, _; split; [reflexivity |]; simpl;
         split; [intros _; split; reflexivity |];
         intros _; split; [reflexivity | discriminate]).
  destruct (reply _) as [e | resp] eqn:E.
  - eexists _, _; split; [reflexivity |]. simpl.
    split; [intros _; split; reflexivity |].
    intros _; split; [reflexivity | discriminate].
  - eexists _, _; split; [reflexivity |]. simpl.
    split; [intros H; congruence |].
    intros Hwf; split; [intros H; congruence |].
    intros H0. exfalso. exact (Hwf _ _ _ E H0).
Qed.

Lemma send_request_outcome_witness :
  exists r w',
    send_request (net_const 429 "slow down") sample_config 0 None world0 = (inr r, w') /\
    (error r <> None <-> status_code r = 0).
Proof.
  destruct (send_request_outcome (net_const 429 "slow down") sample_config 0 None world0)
    as (r & w' & Heq & _ & Hiff).
  exists r, w'. split; [exact Heq |].
  apply Hiff. intros k req resp H. unfold net_const in H. simpl in H.
  inversion H. simpl. lia.
Defined.

(** C5 as amended: an outcome built from a received response has an empty
    body preview when the status is exactly 200; for every other status,
    2xx or not, the preview is the first 200 characters of the body, so
    it is a prefix of the body of at most 200 characters. *)
Theorem body_preview_unless_200 (net : nat -> Request -> NetCall)
    (config : Config) (n : nat) (term : option string) (w w' : World)
    (r : RequestResult) :
  send_request net config n term w = (inr r, w') ->
  error r = None ->
  exists req resp,
    reply (net (length (sent w)) req) = inr resp /\
    status_code r = resp_status_code resp /\
    body_preview r =
      (if status_code r =? 200 then ""%string else str_take 200 (resp_text resp)) /\
    (String.length (body_preview r) <= 200)%nat /\
    String.prefix (body_preview r) (resp_text resp) = true.
Proof.
  rewrite send_request_eq.
  destruct (cfg_method config) as [m |], (cfg_url config) as [u |]; simpl;
    try (intros H; inversion H; subst; simpl; discriminate).
  destruct (reply _) as [e | resp] eqn:E;
    intros H; inversion H; subst; simpl; [discriminate |].
  intros _. eexists _, resp. split; [exact E |]. split; [reflexivity |].
  destruct (resp_status_code resp =? 200); simpl.
  - split; [reflexivity |]. split; [lia |]. destruct (resp_text resp); reflexivity.
  - split; [reflexivity |]. split; [apply str_take_length | apply str_take_prefix].
Qed.

Lemma body_preview_unless_200_witness :
  exists r w',
    send_request (net_const 200 "[]") sample_config 0 None world0 = (inr r, w') /\
    body_preview r = ""%string.
Proof.
  destruct (send_request_returns (net_const 200 "[]") sample_config 0 None world0)
    as (r & w' & Heq & _).
  exists r, w'. split; [exact Heq |].
  assert (He : error r = None).
  { rewrite send_request_eq in Heq. simpl in Heq. inversion Heq. reflexivity. }
  destruct (body_preview_unless_200 _ _ _ _ _ _ _ Heq He)
    as (req & resp & Hrep & Hsc & Hbp & _).
  rewrite Hbp, Hsc. unfold net_const in Hrep. simpl in Hrep. inversion Hrep. reflexivity.
Defined.

(** C5 fails as stated: status 201 lies in the 2xx range and the outcome
    still carries the body as its preview. *)
Lemma body_preview_2xx_counterexample :
  exists r w',
    send_request (net_const 201 "Created") sample_config 0 None world0 = (inr r, w') /\
    error r = None /\
    is_success (status_code r) = true /\
    body_preview r = "Created"%string.
Proof.
  eexists _, _. split; [rewrite send_request_eq; reflexivity |].
  repeat split.
Qed.

(** ** The compensating sleep and the sustained strategy *)

Lemma py_max0_Qmax (x : Q) : (py_max0 x == Qmax 0 x)%Q.
Proof.
  unfold py_max0. destruct (Qlt_bool 0 x) eqn:E.
  - apply Qlt_bool_iff in E. symmetry. apply Q.max_r. lra.
  - apply Qlt_bool_false_iff in E. symmetry. apply Q.max_l. exact E.
Qed.

Lemma py_max0_nonneg (x : Q) : (0 <= py_max0 x)%Q.
Proof.
  unfold py_max0. destruct (Qlt_bool 0 x) eqn:E; [| lra].
  apply Qlt_bool_iff in E. lra.
Qed.

Lemma pace_spec (interval loop_start : Q) (w : World) :
  exists w2, pace interval loop_start w = (inr tt, w2) /\
             sent w2 = sent w /\ stdout w2 = stdout w /\
             (now w2 == now w + Qmax 0 (interval - (now w - loop_start)))%Q.
Proof.
  unfold pace, bind, perf_counter. simpl.
  pose proof (py_max0_Qmax (interval - (now w - loop_start))) as Hm.
  destruct (Qlt_bool 0 (py_max0 (interval - (now w - loop_start)))) eqn:E.
  - eexists. split; [reflexivity |]. simpl. repeat split.
    rewrite Qred_correct, Hm. reflexivity.
  - exists w. split; [reflexivity |]. repeat split.
    apply Qlt_bool_false_iff in E.
    pose proof (py_max0_nonneg (interval - (now w - loop_start))).
    rewrite <- Hm. lra.
Qed.

Lemma py_int_floor (x : Q) : (0 <= x)%Q -> py_int x = Qfloor x.
Proof.
  intros H. unfold py_int. apply Qle_bool_iff in H. rewrite H. reflexivity.
Qed.

Lemma py_int_nonpos (x : Q) : (x <= 0)%Q -> py_int x <= 0.
Proof.
  intros H. unfold py_int. destruct (Qle_bool 0 x) eqn:E.
  - apply Qle_bool_iff in E. change 0 with (Qfloor 0). apply Qfloor_resp_le. exact H.
  - change 0 with (Qceiling 0). apply Qceiling_resp_le. exact H.
Qed.

Lemma py_div_nonzero {W} (a b : Q) (w : W) :
  ~ (b == 0)%Q -> py_div a b w = (inr (a / b)%Q, w).
Proof.
  intros H. unfold py_div. destruct (Qeq_bool b 0) eqn:E; [| reflexivity].
  apply Qeq_bool_iff in E. contradiction.
Qed.

Lemma py_div_zero {W A} (a b : Q) (k : Q -> M W A) (w : W) :
  (b == 0)%Q -> (x <- py_div a b ;; k x) w = (inl ZeroDivisionError, w).
Proof.
  intros H. unfold bind, py_div. apply Qeq_bool_iff in H. rewrite H. reflexivity.
Qed.

Section Sustained.

Variable net : nat -> Request -> NetCall.
Variable config : Config.

(** The loop of [run_sustained_test] appends one outcome per index and
    is a paced run of [send_request]. *)
Lemma sustained_loop (interval : Q) (n i : nat) (rs0 : list RequestResult) (w : World) :
  exists rs w',
    for_each (seq i n) (sustained_body net config interval) rs0 w = (inr (rs0 ++ rs), w') /\
    length rs = n /\
    stdout w' = stdout w /\
    paced (fun j => send_request net config j None) interval i n w rs w'.
Proof.
  revert i rs0 w. induction n as [| n IH]; intros i rs0 w.
  - exists [], w. simpl. rewrite app_nil_r. repeat split. constructor.
  - destruct (send_request_returns net config i None w) as (r & w1 & Hr & Hout1 & _).
    destruct (pace_spec interval (now w) w1) as (w2 & Hp & Hs2 & Hout2 & Hn2).
    destruct (IH (S i) (rs0 ++ [r]) w2) as (rs & w3 & Hl & Hlen & Hout3 & Hpaced).
    exists (r :: rs), w3. split; [| split; [| split]].
    + simpl. unfold bind at 1. unfold sustained_body at 1.
      unfold bind, perf_counter. rewrite Hr, Hp. unfold ret.
      rewrite Hl. rewrite <- app_assoc. reflexivity.
    + simpl. congruence.
    + congruence.
    + econstructor; eassumption.
Qed.

End Sustained.

Lemma paced_send_request_sent (net : nat -> Request -> NetCall) (config : Config)
    (term_of : nat -> option string) (interval : Q) (i n : nat) (w w' : World)
    (rs : list RequestResult) :
  is_Some (cfg_method config) -> is_Some (cfg_url config) ->
  paced (fun j => send_request net config j (term_of j)) interval i n w rs w' ->
  length (sent w') = (length (sent w) + n)%nat /\ length rs = n.
Proof.
  intros [m Hm] [u Hu] H. induction H as [| i n w w1 w2 w3 r rs Hex Hs _ _ _ IH].
  - split; [lia | reflexivity].
  - rewrite send_request_eq, Hm, Hu in Hex. simpl in Hex.
    assert (Hw1 : length (sent w1) = S (length (sent w))).
    { destruct (reply _); inversion Hex; subst; simpl;
        rewrite length_app; simpl; lia. }
    destruct IH as [IH1 IH2]. rewrite Hs in IH1. simpl. split; lia.
Qed.



(** ** Invalid strategy parameters *)

(** C6 as amended: nothing validates the parameters of a strategy.  A
    sustained run at rate 0 aborts with a division error before any
    request; at a negative rate (and a non-negative duration) it does not
    abort at all but returns an empty report, again without any request;
    a rotating run over an empty pool that has at least one request to
    issue aborts with a division error before that request. *)
Theorem invalid_parameters_send_nothing (net : nat -> Request -> NetCall)
    (config : Config) (w : World) :
  (forall R D, (R == 0)%Q ->
     run_sustained_test net config R D w = (inl ZeroDivisionError, w)) /\
  (forall R D, (R < 0)%Q -> (0 <= D)%Q -> is_Some (cfg_params config) ->
     run_sustained_test net config R D w = (inr (mkTestReport [] (now w) (now w)), w)) /\
  (forall (pools : gmap string (list string)) (pool_name : string) R D,
     is_Some (pools !! "large"%string) ->
     pools !! pool_name = Some [] ->
     (0 < R)%Q -> (1 <= R * D)%Q ->
     run_unique_terms_test net pools config R D pool_name w
       = (inl ZeroDivisionError, w)).
Proof.
  split; [| split].
  - intros R D HR. unfold run_sustained_test, bind at 1, time_time.
    apply py_div_zero. exact HR.
  - intros R D HR HD [p Hp].
    unfold run_sustained_test, bind at 1, time_time.
    unfold bind at 1. rewrite py_div_nonzero by lra.
    unfold bind at 1, lookup_key. rewrite Hp. unfold ret at 1.
    assert (Hn : py_int (R * D) <= 0) by (apply py_int_nonpos; nra).
    unfold py_range. replace (Z.to_nat (py_int (R * D))) with 0%nat by lia.
    reflexivity.
  - intros pools pool_name R D [l Hl] Hpool HR HRD.
    unfold run_unique_terms_test, bind at 1, time_time.
    unfold bind at 1. rewrite py_div_nonzero by lra.
    unfold bind at 1, get_pool, bind at 1, lookup_key. rewrite Hl, Hpool.
    unfold ret at 1 2. simpl default.
    assert (Hn : 1 <= py_int (R * D)).
    { rewrite py_int_floor by lra. change 1 with (Qfloor 1).
      apply Qfloor_resp_le. exact HRD. }
    unfold py_range.
    destruct (Z.to_nat (py_int (R * D))) as [| n] eqn:E; [lia |].
    reflexivity.
Qed.

Lemma invalid_parameters_send_nothing_witness :
  run_sustained_test (net_const 200 "[]") sample_config 0 30 world0
    = (inl ZeroDivisionError, world0) /\
  run_unique_terms_test (net_const 200 "[]")
      (<["large"%string := []]> ∅) sample_config 3 2 "large" world0
    = (inl ZeroDivisionError, world0).
Proof.
  pose proof (invalid_parameters_send_nothing (net_const 200 "[]") sample_config world0)
    as (H0 & _ & Hpool).
  split.
  - apply H0. reflexivity.
  - apply Hpool.
    + eexists. reflexivity.
    + reflexivity.
    + reflexivity.
    + discriminate.
Defined.

(** C6 fails as stated: a sustained run at rate -1 raises nothing; it
    completes and returns an (empty) report. *)
Lemma negative_rate_counterexample :
  run_sustained_test (net_const 200 "[]") sample_config (-1) 30 world0
    = (inr (mkTestReport [] 0 0), world0).
Proof. reflexivity. Qed.

(** ** The ramp strategy *)

Lemma count_limited_app (rs rs' : list RequestResult) :
  count_limited (rs ++ rs') = count_limited rs + count_limited rs'.
Proof.
  unfold count_limited. rewrite List.filter_app, length_app. lia.
Qed.

Lemma count_limited_one (r : RequestResult) :
  count_limited [r] = if is_limited (status_code r) then 1 else 0.
Proof.
  unfold count_limited. simpl. destruct (is_limited (status_code r)); reflexivity.
Qed.

Lemma to_nat_py_int (x : Q) : Z.to_nat (py_int x) = Z.to_nat (Qfloor x).
Proof.
  destruct (Qlt_le_dec x 0) as [H | H].
  - assert (H1 : py_int x <= 0) by (apply py_int_nonpos; lra).
    assert (H2 : Qfloor x <= 0).
    { change 0 with (Qfloor 0). apply Qfloor_resp_le. lra. }
    lia.
  - rewrite py_int_floor by exact H. reflexivity.
Qed.

Lemma paced_stdout (net : nat -> Request -> NetCall) (config : Config)
    (term_of : nat -> option string) (interval : Q) (i n : nat) (w w' : World)
    (rs : list RequestResult) :
  paced (fun j => send_request net config j (term_of j)) interval i n w rs w' ->
  stdout w' = stdout w.
Proof.
  intros H. induction H as [| i n w w1 w2 w3 r rs Hex _ Hout _ _ IH]; [reflexivity |].
  destruct (send_request_returns net config i (term_of i) w) as (r' & w1' & Hr & Ho & _).
  rewrite Hr in Hex. inversion Hex; subst. congruence.
Qed.

Section Ramp.

Variable net : nat -> Request -> NetCall.
Variable config : Config.

Lemma ramp_loop (interval : Q) (n i : nat) (rs0 : list RequestResult) (l0 : Z) (w : World) :
  exists rs w',
    for_each (seq i n) (ramp_body net config interval) (rs0, l0) w
      = (inr (rs0 ++ rs, l0 + count_limited rs), w') /\
    length rs = n /\
    paced (fun j => send_request net config j None) interval i n w rs w'.
Proof.
  revert i rs0 l0 w. induction n as [| n IH]; intros i rs0 l0 w.
  - exists [], w. simpl. rewrite app_nil_r, Z.add_0_r. repeat split. constructor.
  - destruct (send_request_returns net config i None w) as (r & w1 & Hr & _).
    destruct (pace_spec interval (now w) w1) as (w2 & Hp & Hs2 & Hout2 & Hn2).
    destruct (IH (S i) (rs0 ++ [r])
                 (if is_limited (status_code r) then l0 + 1 else l0) w2)
      as (rs & w3 & Hl & Hlen & Hpaced).
    exists (r :: rs), w3. split; [| split].
    + simpl. unfold bind at 1. unfold ramp_body at 1.
      unfold bind, perf_counter. rewrite Hr, Hp. unfold ret. simpl fst. simpl snd.
      rewrite Hl. rewrite <- app_assoc. simpl.
      change (r :: rs) with ([r] ++ rs).
      rewrite count_limited_app, count_limited_one.
      destruct (is_limited (status_code r)); do 3 f_equal; lia.
    + simpl. congruence.
    + econstructor; eassumption.
Qed.

(** The threshold test of the loop is the test [limitedFraction > 0.20]. *)
Lemma limit_pct_spec (rs : list RequestResult) (step_requests : Z) (w : World) :
  length rs = Z.to_nat step_requests ->
  exists pct, limit_pct_of (count_limited rs) step_requests w = (inr pct, w) /\
              (Qlt_bool 20 pct = true <-> (1 # 5 < limited_fraction rs)%Q).
Proof.
  intros Hlen. unfold limit_pct_of.
  destruct (step_requests =? 0) eqn:E0.
  - apply Z.eqb_eq in E0. subst. destruct rs; [| discriminate].
    exists 0%Q. split; [reflexivity |]. simpl. rewrite Qlt_bool_iff. split; lra.
  - apply Z.eqb_neq in E0. unfold bind.
    rewrite py_div_nonzero.
    2:{ intros H. apply E0. unfold Qeq in H. simpl in H. lia. }
    eexists. split; [reflexivity |]. rewrite Qlt_bool_iff.
    destruct rs as [| r rs].
    + simpl. change (count_limited []) with 0.
      assert (H0 : (inject_Z 0 / inject_Z step_requests == 0)%Q).
      { unfold Qdiv. change (inject_Z 0) with 0%Q. ring. }
      rewrite H0. split; lra.
    + assert (Hsr : Z.of_nat (length (r :: rs)) = step_requests).
      { rewrite Hlen. apply Z2Nat.id. simpl in Hlen. lia. }
      unfold limited_fraction. rewrite Hsr.
      set (q := (inject_Z (count_limited (r :: rs)) / inject_Z step_requests)%Q).
      split; lra.
Qed.

End Ramp.

Section RampRun.

Variable net : nat -> Request -> NetCall.
Variable config : Config.
Variables max_rps step_duration step_size : Q.
Hypothesis step_size_pos : (0 < step_size)%Q.

(** One pass through the loop body: a paced step, then the verdict. *)
Lemma ramp_step_eq (rate : Q) (rs0 : list RequestResult) (w : World) :
  (0 < rate)%Q ->
  exists rs w1,
    paced (fun j => send_request net config j None) (1 / rate) 0 (Z.to_nat (Qfloor (rate * step_duration))) w rs w1 /\
    (((1 # 5 < limited_fraction rs)%Q /\
      ramp_step net config step_duration step_size (mkRampState rate false rs0) w
        = (inr (mkRampState (rate + step_size) true (rs0 ++ rs)),
           say (OutLimitHit rate) w1)) \/
     ((limited_fraction rs <= 1 # 5)%Q /\
      ramp_step net config step_duration step_size (mkRampState rate false rs0) w
        = (inr (mkRampState (rate + step_size) false (rs0 ++ rs)),
           say (OutStepOK rate) w1))).
Proof.
  intros Hrate.
  destruct (ramp_loop net config (1 / rate)
              (Z.to_nat (py_int (rate * step_duration))) 0 rs0 0 w)
    as (rs & w1 & Hloop & Hlen & Hpaced).
  exists rs, w1. split.
  { rewrite <- to_nat_py_int. exact Hpaced. }
  destruct (limit_pct_spec rs (py_int (rate * step_duration)) w1 Hlen)
    as (pct & Hpct & Hiff).
  assert (Hstep : forall b,
            Qlt_bool 20 pct = b ->
            ramp_step net config step_duration step_size (mkRampState rate false rs0) w
            = (inr (mkRampState (rate + step_size) b (rs0 ++ rs)),
               say (if b then OutLimitHit rate else OutStepOK rate) w1)).
  { intros b Hb. unfold ramp_step. simpl current_rps. simpl ramp_results.
    unfold bind at 1. rewrite py_div_nonzero by lra.
    unfold bind at 1. unfold py_range. rewrite Hloop. simpl fst. simpl snd.
    rewrite Z.add_0_l. unfold bind at 1. rewrite Hpct.
    rewrite Hb. destruct b; reflexivity. }
  destruct (Qlt_bool 20 pct) eqn:E.
  - left. split; [apply Hiff; reflexivity | apply (Hstep true); reflexivity].
  - right. split; [| apply (Hstep false); reflexivity].
    destruct (Qlt_le_dec (1 # 5) (limited_fraction rs)) as [H | H]; [| exact H].
    apply Hiff in H. congruence.
Qed.

Lemma ramp_while_stop (fuel : nat) (st : RampState) (w : World) :
  ramp_cond max_rps st = false ->
  ramp_while net fuel config max_rps step_duration step_size st w = (inr (Some st), w).
Proof.
  intros H. destruct fuel; simpl; rewrite H; reflexivity.
Qed.

(** With [n] rate steps left below the ceiling, [n] unrollings of the
    loop suffice, and the loop behaves as the controller's state
    machine. *)
Lemma ramp_while_run (n k : nat) (rate : Q) (rs0 : list RequestResult) (w : World) :
  (rate == inject_Z (Z.of_nat k) * step_size)%Q ->
  (0 < rate)%Q ->
  (max_rps < inject_Z (Z.of_nat (k + n)) * step_size)%Q ->
  exists steps o st' w',
    (forall fuel, (n <= fuel)%nat ->
       ramp_while net fuel config max_rps step_duration step_size
                  (mkRampState rate false rs0) w = (inr (Some st'), w')) /\
    ramp_results st' = rs0 ++ concat (List.map snd steps) /\
    ramp_run (fun j => send_request net config j None) max_rps step_size step_duration k rate w steps o w'.
Proof.
  revert k rate rs0 w. induction n as [| n IH]; intros k rate rs0 w Hk Hpos Hceil.
  - rewrite Nat.add_0_r in Hceil.
    exists [], Exhausted, (mkRampState rate false rs0), w. split; [| split].
    + intros fuel _. apply ramp_while_stop. unfold ramp_cond. simpl.
      replace (Qle_bool rate max_rps) with false; [reflexivity |].
      symmetry. apply not_true_is_false. intros H. apply Qle_bool_iff in H. lra.
    + simpl. rewrite app_nil_r. reflexivity.
    + constructor; [exact Hk | lra].
  - destruct (Qlt_le_dec max_rps rate) as [Hgt | Hle].
    { exists [], Exhausted, (mkRampState rate false rs0), w. split; [| split].
      + intros fuel _. apply ramp_while_stop. unfold ramp_cond. simpl.
        replace (Qle_bool rate max_rps) with false; [reflexivity |].
        symmetry. apply not_true_is_false. intros H. apply Qle_bool_iff in H. lra.
      + simpl. rewrite app_nil_r. reflexivity.
      + constructor; [exact Hk | exact Hgt]. }
    assert (Hcond : ramp_cond max_rps (mkRampState rate false rs0) = true).
    { unfold ramp_cond. simpl. apply Qle_bool_iff in Hle. rewrite Hle. reflexivity. }
    destruct (ramp_step_eq rate rs0 w Hpos) as (rs & w1 & Hpaced & [[Hex Hstep] | [Hok Hstep]]).
    + exists [(rate, rs)], (Detected rate),
             (mkRampState (rate + step_size) true (rs0 ++ rs)),
             (say (OutLimitHit rate) w1).
      split; [| split].
      * intros fuel Hfuel. destruct fuel as [| fuel]; [lia |].
        simpl. rewrite Hcond. unfold bind. rewrite Hstep.
        apply ramp_while_stop. unfold ramp_cond. simpl. apply andb_false_r.
      * simpl. rewrite app_nil_r. reflexivity.
      * apply ramp_detected; assumption.
    + assert (Hk' : (rate + step_size == inject_Z (Z.of_nat (S k)) * step_size)%Q).
      { rewrite Nat2Z.inj_succ. unfold Z.succ. rewrite inject_Z_plus, Hk.
        change (inject_Z 1) with 1%Q. ring. }
      assert (Hceil' : (max_rps < inject_Z (Z.of_nat (S k + n)) * step_size)%Q).
      { replace (S k + n)%nat with (k + S n)%nat by lia. exact Hceil. }
      assert (Hpos' : (0 < rate + step_size)%Q) by lra.
      destruct (IH (S k) (rate + step_size)%Q (rs0 ++ rs) (say (OutStepOK rate) w1)
                   Hk' Hpos' Hceil')
        as (steps & o & st' & w' & Hrun & Hres & Hspec).
      exists ((rate, rs) :: steps), o, st', w'. split; [| split].
      * intros fuel Hfuel. destruct fuel as [| fuel]; [lia |].
        simpl. rewrite Hcond. unfold bind. rewrite Hstep.
        apply Hrun. lia.
      * rewrite Hres. simpl. rewrite app_assoc. reflexivity.
      * eapply ramp_continue; eassumption.
Qed.

Lemma ramp_run_lines (k : nat) (rate : Q) (w w' : World)
    (steps : list (Q * list RequestResult)) (o : RampOutcome) :
  ramp_run (fun j => send_request net config j None) max_rps step_size step_duration k rate w steps o w' ->
  stdout w' = stdout w ++ ramp_lines steps o.
Proof.
  intros H.
  induction H as [k rate w _ _ | k rate w w1 rs _ _ Hp _
                  | k rate w w1 w3 rs steps o _ _ Hp _ Hrun IH].
  - simpl. rewrite app_nil_r. reflexivity.
  - simpl. rewrite (paced_stdout net config (fun _ => None) _ _ _ _ _ _ Hp). reflexivity.
  - rewrite IH. simpl stdout.
    rewrite (paced_stdout net config (fun _ => None) _ _ _ _ _ _ Hp).
    rewrite <- app_assoc. f_equal.
    destruct steps as [| st steps']; [| reflexivity].
    inversion Hrun. reflexivity.
Qed.

End RampRun.

Lemma ramp_steps_bound (max_rps step_size : Q) :
  (0 < step_size)%Q ->
  (max_rps < inject_Z (Z.of_nat (1 + Z.to_nat (Qfloor (max_rps / step_size)))) * step_size)%Q.
Proof.
  intros Hs.
  set (x := (max_rps / step_size)%Q).
  assert (Hx : (max_rps == x * step_size)%Q) by (unfold x; field; lra).
  pose proof (Qlt_floor x) as Hfl.
  assert (Hle : (inject_Z (Qfloor x + 1) <= inject_Z (Z.of_nat (1 + Z.to_nat (Qfloor x))))%Q).
  { rewrite <- Zle_Qle. lia. }
  nra.
Qed.


Example ramp_below_threshold :
  let res := run_ramp_test (net_const 200 "[]") 6 sample_config 10 1 2 world0 in
  stdout (snd res) = [OutStepOK 2; OutStepOK 4; OutStepOK 6; OutStepOK 8; OutStepOK 10] /\
  length (sent (snd res)) = 30%nat.
Proof. vm_compute. split; reflexivity. Qed.

Example ramp_stops_at_limit :
  let res := run_ramp_test (net_limit_after 6) 6 sample_config 10 1 2 world0 in
  stdout (snd res) = [OutStepOK 2; OutStepOK 4; OutLimitHit 6] /\
  length (sent (snd res)) = 12%nat.
Proof. vm_compute. split; reflexivity. Qed.


(** ** The batched metadata lookup *)

Section LookupProps.
Import Lookup LookupSpec.

Variable fetch : nat -> string -> Exn + option (list TrackJson).
Variable app_ids : list string.
Variable country : string.

Lemma lookup_batch_eq (i : nat) (m : gmap string AppMeta) (w : LWorld) :
  lookup_batch fetch app_ids country i m w =
  let url := batch_url app_ids country i in
  match fetch (length (fetched w)) url with
  | inr data =>
      (inr (add_results m (default [] data)),
       mkLWorld (fetched w ++ [url]) (stderr w)
                (if (i + LOOKUP_BATCH_SIZE <? length app_ids)%nat
                 then (slept w + (1 # 2))%Q else slept w))
  | inl e =>
      if caught e
      then (inr m, mkLWorld (fetched w ++ [url]) (stderr w ++ [(i, e)]) (slept w))
      else (inl e, mkLWorld (fetched w ++ [url]) (stderr w) (slept w))
  end.
Proof.
  unfold lookup_batch, bind, try_except_on, urlopen_json, batch_url. simpl.
  destruct (fetch _ _) as [e | data]; simpl.
  - destruct (caught e); reflexivity.
  - destruct (_ <? _)%nat; reflexivity.
Qed.

Lemma lookup_loop (offs : list nat) (m : gmap string AppMeta) (w : LWorld) :
  Forall request_failure
         (batch_replies fetch app_ids country (length (fetched w)) offs) ->
  exists w',
    for_each offs (lookup_batch fetch app_ids country) m w =
      (inr (foldl (fun m r =>
                     match snd r with
                     | inr data => add_results m (default [] data)
                     | inl _ => m
                     end) m
                  (batch_replies fetch app_ids country (length (fetched w)) offs)),
       w') /\
    stderr w' = stderr w ++
                reported (batch_replies fetch app_ids country (length (fetched w)) offs) /\
    fetched w' = fetched w ++ List.map (batch_url app_ids country) offs.
Proof.
  revert m w. induction offs as [| i offs IH]; intros m w Hall.
  - exists w. simpl. rewrite !app_nil_r. repeat split.
  - simpl in Hall. inversion Hall as [| x l Hhd Htl]; subst.
    simpl for_each. unfold bind at 1. rewrite lookup_batch_eq. simpl.
    destruct (fetch (length (fetched w)) (batch_url app_ids country i)) as [e | data] eqn:E.
    + rewrite (Hhd e eq_refl).
      set (w1 := mkLWorld _ _ _).
      assert (Hlen : length (fetched w1) = S (length (fetched w))).
      { unfold w1. simpl. rewrite length_app. simpl. lia. }
      destruct (IH m w1) as (w' & Hrun & Herr & Hf).
      { rewrite Hlen. exact Htl. }
      exists w'. rewrite Hrun, Herr, Hf, Hlen. unfold w1. simpl.
      rewrite <- !app_assoc. repeat split.
    + set (w1 := mkLWorld _ _ _).
      assert (Hlen : length (fetched w1) = S (length (fetched w))).
      { unfold w1. simpl. rewrite length_app. simpl. lia. }
      destruct (IH (add_results m (default [] data)) w1) as (w' & Hrun & Herr & Hf).
      { rewrite Hlen. exact Htl. }
      exists w'. rewrite Hrun, Herr, Hf, Hlen. unfold w1. simpl.
      rewrite <- !app_assoc. repeat split.
Qed.

End LookupProps.




(** ** The comparison run *)

Lemma send_request_term (net : nat -> Request -> NetCall) (config : Config)
    (n : nat) (t : string) (w w' : World) (r : RequestResult) :
  send_request net config n (Some t) w = (inr r, w') -> term r = t.
Proof.
  rewrite send_request_eq.
  destruct (cfg_method config), (cfg_url config); simpl;
    try (intros H; inversion H; reflexivity).
  destruct (reply _); intros H; inversion H; [reflexivity |].
  unfold response_result. simpl. unfold request_params.
  rewrite lookup_insert_eq. simpl. destruct (str_truthy t); reflexivity.
Qed.

Section Compare.

Variable net : nat -> Request -> NetCall.
Variable config : Config.
Variable interval : Q.

Lemma same_loop (same_term : string) (n i : nat) (rs0 : list RequestResult) (w : World) :
  exists rs w',
    for_each (seq i n) (same_body net config interval same_term) rs0 w
      = (inr (rs0 ++ rs), w') /\
    length rs = n /\
    stdout w' = stdout w /\
    Forall (fun r => term r = same_term) rs.
Proof.
  revert i rs0 w. induction n as [| n IH]; intros i rs0 w.
  - exists [], w. simpl. rewrite app_nil_r. repeat split. constructor.
  - destruct (send_request_returns net config i (Some same_term) w)
      as (r & w1 & Hr & Hout1 & _).
    destruct (pace_spec interval (now w) w1) as (w2 & Hp & _ & Hout2 & _).
    destruct (IH (S i) (rs0 ++ [r]) w2) as (rs & w3 & Hl & Hlen & Hout3 & Hterms).
    exists (r :: rs), w3. split; [| split; [| split]].
    + simpl. unfold bind at 1. unfold same_body at 1.
      unfold bind, perf_counter. rewrite Hr, Hp. unfold ret.
      rewrite Hl. rewrite <- app_assoc. reflexivity.
    + simpl. congruence.
    + congruence.
    + constructor; [apply (send_request_term _ _ _ _ _ _ _ Hr) | exact Hterms].
Qed.

(** The rotating loop over a non-empty pool: outcome number [j] carries
    the key [terms[j mod len(terms)]]. *)
Lemma unique_loop (terms : list string) (n i : nat) (rs0 : list RequestResult) (w : World) :
  terms <> [] ->
  exists rs w',
    for_each (seq i n) (unique_body net config interval terms) rs0 w
      = (inr (rs0 ++ rs), w') /\
    length rs = n /\
    stdout w' = stdout w /\
    List.map (fun r => Some (term r)) rs
      = List.map (fun j => terms !! (j mod length terms)%nat) (seq i n).
Proof.
  intros Hne. revert i rs0 w. induction n as [| n IH]; intros i rs0 w.
  - exists [], w. simpl. rewrite app_nil_r. repeat split.
  - destruct (pool_next_lookup terms i Hne) as (t & Ht & Hlk).
    destruct (send_request_returns net config i (Some t) w)
      as (r & w1 & Hr & Hout1 & _).
    destruct (pace_spec interval (now w) w1) as (w2 & Hp & _ & Hout2 & _).
    destruct (IH (S i) (rs0 ++ [r]) w2) as (rs & w3 & Hl & Hlen & Hout3 & Hterms).
    exists (r :: rs), w3. split; [| split; [| split]].
    + simpl. unfold bind at 1. unfold unique_body at 1.
      unfold bind, perf_counter, lift_exn. rewrite Ht, Hr, Hp. unfold ret.
      rewrite Hl. rewrite <- app_assoc. reflexivity.
    + simpl. congruence.
    + congruence.
    + simpl. rewrite Hterms, Hlk.
      rewrite (send_request_term _ _ _ _ _ _ _ Hr). reflexivity.
Qed.

End Compare.

(** The comparison run prints the conclusion that [classify] computes
    from the limited counts of its two phases, and nothing else. *)
Lemma compare_prints_classify (net : nat -> Request -> NetCall)
    (pools : gmap string (list string)) (terms : list string)
    (config : Config) (num_each : Z) (rps : Q) (w : World) :
  ~ (rps == 0)%Q -> num_each <> 0 ->
  pools !! "large"%string = Some terms -> terms <> [] ->
  exists same_results unique_results rep w',
    run_same_vs_unique_test net pools config num_each rps w = (inr rep, w') /\
    results rep = same_results ++ unique_results /\
    length same_results = Z.to_nat num_each /\
    length unique_results = Z.to_nat num_each /\
    stdout w' = stdout w ++
      match classify (count_limited same_results) (count_limited unique_results) with
      | Some c => [OutConclusion c]
      | None => []
      end.
Proof.
  intros Hrps Hnum Hpool Hne.
  destruct (same_loop net config (1 / rps) "bill tracker" (Z.to_nat num_each) 0 [] w)
    as (same & w1 & Hsame & Hlen1 & Hout1 & _).
  set (w2 := mkWorld (Qred (now w1 + 3)) (sent w1) (stdout w1)).
  destruct (unique_loop net config (1 / rps) terms (Z.to_nat num_each) 0 [] w2 Hne)
    as (uniq & w3 & Huniq & Hlen2 & Hout3 & _).
  assert (Hnz : ~ (inject_Z num_each == 0)%Q).
  { intros H. apply Hnum. unfold Qeq in H. simpl in H. lia. }
  assert (Hrun : forall wf,
            (match classify (count_limited same) (count_limited uniq) with
             | Some c => print (OutConclusion c)
             | None => ret tt
             end) w3 = (inr tt, wf) ->
            run_same_vs_unique_test net pools config num_each rps w =
            (inr (mkTestReport (same ++ uniq)
                    match same with r :: _ => timestamp r | [] => 0%Q end (now wf)), wf)).
  { intros wf Hwf. unfold run_same_vs_unique_test.
    unfold bind at 1. rewrite py_div_nonzero by exact Hrps.
    unfold bind at 1, py_range. rewrite Hsame. simpl app.
    unfold bind at 1, time_sleep, modify. fold w2.
    unfold bind at 1, lookup_key. rewrite Hpool. unfold ret at 1.
    unfold bind at 1. rewrite Huniq. simpl app.
    unfold bind at 1. rewrite py_div_nonzero by exact Hnz.
    unfold bind at 1. rewrite py_div_nonzero by exact Hnz.
    unfold bind at 1. rewrite Hwf. reflexivity. }
  destruct (classify (count_limited same) (count_limited uniq)) as [c |] eqn:Ec.
  - exists same, uniq. eexists _, _. split; [apply Hrun; reflexivity |].
    simpl. rewrite Ec, Hout3. unfold w2. simpl. rewrite Hout1. repeat split; assumption.
  - exists same, uniq. eexists _, _. split; [apply Hrun; reflexivity |].
    simpl. rewrite Ec, app_nil_r, Hout3. unfold w2. simpl. repeat split; assumption.
Qed.

(** C1: the conclusion is a function of the two limited counts alone:
    PerKeyLimit when [uniqueLimited = 0] and [sameLimited > 0]; HybridLimit
    when both are positive and [uniqueLimited < sameLimited/2]; PerClientLimit
    when both are positive and [uniqueLimited >= sameLimited/2]; Inconclusive
    when both are zero; with the four sample inputs of the specification. *)
Theorem classify_rules (sameLimited uniqueLimited : Z) :
  (uniqueLimited = 0 -> sameLimited > 0 ->
   classify sameLimited uniqueLimited = Some PerKeyLimit) /\
  (uniqueLimited > 0 -> sameLimited > 0 ->
   (inject_Z uniqueLimited < inject_Z sameLimited / 2)%Q ->
   classify sameLimited uniqueLimited = Some HybridLimit) /\
  (uniqueLimited > 0 -> sameLimited > 0 ->
   (inject_Z sameLimited / 2 <= inject_Z uniqueLimited)%Q ->
   classify sameLimited uniqueLimited = Some PerClientLimit) /\
  (uniqueLimited = 0 -> sameLimited = 0 ->
   classify sameLimited uniqueLimited = Some Inconclusive) /\
  classify 8 0 = Some PerKeyLimit /\
  classify 9 2 = Some HybridLimit /\
  classify 9 7 = Some PerClientLimit /\
  classify 0 0 = Some Inconclusive.
Proof.
  repeat split; try reflexivity; unfold classify.
  - intros -> Hs. simpl.
    destruct (0 <? sameLimited) eqn:E; [reflexivity | apply Z.ltb_ge in E; lia].
  - intros Hu Hs Hlt.
    replace (uniqueLimited =? 0) with false by (symmetry; apply Z.eqb_neq; lia).
    replace (0 <? uniqueLimited) with true by (symmetry; apply Z.ltb_lt; lia).
    replace (0 <? sameLimited) with true by (symmetry; apply Z.ltb_lt; lia).
    simpl. destruct (Qlt_le_dec _ _) as [H | H]; [reflexivity |].
    exfalso. apply (Qlt_not_le _ _ Hlt). exact H.
  - intros Hu Hs Hge.
    replace (uniqueLimited =? 0) with false by (symmetry; apply Z.eqb_neq; lia).
    replace (0 <? uniqueLimited) with true by (symmetry; apply Z.ltb_lt; lia).
    replace (0 <? sameLimited) with true by (symmetry; apply Z.ltb_lt; lia).
    simpl. destruct (Qlt_le_dec _ _) as [H | H]; [| reflexivity].
    exfalso. apply (Qlt_not_le _ _ H). exact Hge.
  - intros -> ->. reflexivity.
Qed.

Lemma classify_rules_witness :
  classify 5 2 = Some HybridLimit /\ classify 4 2 = Some PerClientLimit.
Proof.
  split.
  - apply (proj1 (proj2 (classify_rules 5 2))); [lia | lia | reflexivity].
  - apply (proj1 (proj2 (proj2 (classify_rules 4 2)))); [lia | lia | discriminate].
Defined.

(** C10: when only the rotating-key phase was limited ([sameLimited = 0],
    [uniqueLimited > 0]) no branch of the chain is taken: the conclusion is
    undefined there, and among non-negative counts only there; a
    comparison run that observes such counts prints no conclusion. *)
Theorem classify_partial :
  (forall sameLimited uniqueLimited : Z,
     sameLimited = 0 -> uniqueLimited > 0 ->
     classify sameLimited uniqueLimited = None) /\
  (forall sameLimited uniqueLimited : Z,
     0 <= sameLimited -> 0 <= uniqueLimited ->
     classify sameLimited uniqueLimited = None ->
     sameLimited = 0 /\ uniqueLimited > 0) /\
  (forall (net : nat -> Request -> NetCall) (pools : gmap string (list string))
          (terms : list string) (config : Config) (num_each : Z) (rps : Q) (w : World),
     ~ (rps == 0)%Q -> num_each <> 0 ->
     pools !! "large"%string = Some terms -> terms <> [] ->
     exists same_results unique_results rep w',
       run_same_vs_unique_test net pools config num_each rps w = (inr rep, w') /\
       results rep = same_results ++ unique_results /\
       length same_results = Z.to_nat num_each /\
       length unique_results = Z.to_nat num_each /\
       (count_limited same_results = 0 -> count_limited unique_results > 0 ->
        stdout w' = stdout w)).
Proof.
  assert (H1 : forall s u : Z, s = 0 -> u > 0 -> classify s u = None).
  { intros s u -> Hu. unfold classify.
    replace (u =? 0) with false by (symmetry; apply Z.eqb_neq; lia).
    change (0 <? 0) with false. rewrite !andb_false_r. reflexivity. }
  split; [exact H1 | split].
  - intros sameLimited uniqueLimited Hs Hu. unfold classify.
    destruct (uniqueLimited =? 0) eqn:Eu0, (0 <? sameLimited) eqn:Es,
             (0 <? uniqueLimited) eqn:Eu, (sameLimited =? 0) eqn:Es0; simpl;
      try discriminate; try (destruct (Qlt_le_dec _ _); discriminate); intros _;
      rewrite ?Z.eqb_eq, ?Z.eqb_neq, ?Z.ltb_lt, ?Z.ltb_ge in *; lia.
  - intros net pools terms config num_each rps w Hrps Hnum Hpool Hne.
    destruct (compare_prints_classify net pools terms config num_each rps w
                Hrps Hnum Hpool Hne)
      as (same & uniq & rep & w' & Hrun & Hres & Hl1 & Hl2 & Hout).
    exists same, uniq, rep, w'. repeat (split; [assumption |]).
    intros Hs Hu. rewrite Hout, (H1 _ _ Hs Hu). apply app_nil_r.
Qed.

Lemma classify_partial_witness : classify 0 3 = None.
Proof.
  apply (proj1 classify_partial 0 3); [reflexivity | lia].
Defined.

Example compare_only_unique_limited :
  let res := run_same_vs_unique_test (net_limit_after 3) TERM_POOLS sample_config 3 3 world0 in
  stdout (snd res) = [] /\
  List.map status_code (match fst res with inr rep => results rep | inl _ => [] end)
    = [200; 200; 200; 429; 429; 429].
Proof. vm_compute. split; reflexivity. Qed.

Example compare_per_key :
  let net := fun (k : nat) (_ : Request) =>
               mkNetCall (1 # 10)
                 (inr (mkResponse (if (k <? 3)%nat then 429 else 200) [] "")) in
  stdout (snd (run_same_vs_unique_test net TERM_POOLS sample_config 3 3 world0))
    = [OutConclusion PerKeyLimit].
Proof. vm_compute. reflexivity. Qed.

(** * Further properties of the code *)

(** ** The status histogram *)

#[local] Instance item_le_total : Total item_le.
Proof.
  intros [a n] [b m]. unfold item_le. simpl.
  destruct (Z.lt_trichotomy a b) as [H | [H | H]]; [left; lia | | right; lia].
  destruct (Nat.le_ge_cases n m); [left | right]; right; split; lia.
Qed.

#[local] Instance item_le_trans : Transitive item_le.
Proof.
  intros [a n] [b m] [c k]. unfold item_le. simpl. lia.
Qed.

Lemma bump_count_lookup (rs : list RequestResult) (m : gmap Z nat) (sc : Z) :
  foldl bump_count m rs !! sc =
  match filter (fun r => status_code r = sc) rs with
  | [] => m !! sc
  | l => Some (default 0%nat (m !! sc) + length l)%nat
  end.
Proof.
  revert m. induction rs as [| r rs IH]; intros m; [reflexivity |].
  simpl foldl. rewrite IH. clear IH.
  destruct (decide (status_code r = sc)) as [Hk | Hk].
  - rewrite filter_cons_True by exact Hk.
    unfold bump_count. rewrite Hk, lookup_insert_eq. simpl.
    destruct (filter _ rs); simpl; f_equal; lia.
  - rewrite filter_cons_False by exact Hk.
    unfold bump_count. rewrite lookup_insert_ne by exact Hk. reflexivity.
Qed.

Lemma bump_count_sum (m : gmap Z nat) (r : RequestResult) :
  sum_list_with snd (map_to_list (bump_count m r)) = S (sum_list_with snd (map_to_list m)).
Proof.
  unfold bump_count. destruct (m !! status_code r) as [n |] eqn:E; simpl.
  - rewrite <- insert_delete_eq.
    rewrite map_to_list_insert by apply lookup_delete_eq.
    rewrite <- (map_to_list_delete m _ _ E). simpl. lia.
  - rewrite map_to_list_insert by exact E. reflexivity.
Qed.

Lemma bump_count_fold_sum (rs : list RequestResult) (m : gmap Z nat) :
  sum_list_with snd (map_to_list (foldl bump_count m rs))
  = (sum_list_with snd (map_to_list m) + length rs)%nat.
Proof.
  revert m. induction rs as [| r rs IH]; intros m; simpl; [lia |].
  rewrite IH, bump_count_sum. lia.
Qed.

Lemma item_le_strict (l : list (Z * nat)) :
  StronglySorted item_le l -> NoDup (l.*1) ->
  StronglySorted (fun x y => fst x < fst y) l.
Proof.
  induction 1 as [| x l Hs IH Hall]; intros Hnd; [constructor |].
  rewrite fmap_cons in Hnd. apply NoDup_cons in Hnd as [Hx Hnd].
  constructor; [apply IH; exact Hnd |].
  rewrite Forall_forall in Hall |- *. intros y Hy.
  destruct (Hall y Hy) as [Hlt | [Heq _]]; [exact Hlt |].
  exfalso. apply Hx. rewrite Heq. apply list_elem_of_fmap. exists y. split; [reflexivity | exact Hy].
Qed.

(** X1: the status histogram lists each status that occurs exactly once,
    in increasing order, with the number of outcomes that carry it; its
    counts add up to the number of outcomes. *)
Theorem status_counts_histogram (rep : TestReport) :
  StronglySorted (fun x y => fst x < fst y) (status_counts rep) /\
  (forall sc n, (sc, n) ∈ status_counts rep <->
     n = length (filter (fun r => status_code r = sc) (results rep)) /\ (0 < n)%nat) /\
  sum_list_with snd (status_counts rep) = length (results rep).
Proof.
  unfold status_counts. split; [| split].
  - apply item_le_strict; [apply StronglySorted_merge_sort; apply _ |].
    rewrite merge_sort_Permutation. apply NoDup_fst_map_to_list.
  - intros sc n. rewrite merge_sort_Permutation, elem_of_map_to_list.
    rewrite bump_count_lookup, lookup_empty. simpl.
    destruct (filter _ (results rep)) as [| x l]; simpl.
    + split; [discriminate | lia].
    + split; [intros H; inversion H; lia | intros [-> _]; reflexivity].
  - rewrite merge_sort_Permutation, bump_count_fold_sum, map_to_list_empty. reflexivity.
Qed.

(** ** Success and limited counts *)

Lemma count_success_cons (r : RequestResult) (rs : list RequestResult) :
  count_success (r :: rs) = (if is_success (status_code r) then 1 else 0) + count_success rs.
Proof.
  unfold count_success. simpl. destruct (is_success (status_code r)); simpl; lia.
Qed.

Lemma count_limited_cons (r : RequestResult) (rs : list RequestResult) :
  count_limited (r :: rs) = (if is_limited (status_code r) then 1 else 0) + count_limited rs.
Proof.
  unfold count_limited. simpl. destruct (is_limited (status_code r)); simpl; lia.
Qed.

(** X2: no outcome is counted both as a success and as rate limited, so
    the two counts together never exceed the number of outcomes; a report
    made of transport failures only (status 0) has both counts at zero. *)
Theorem success_and_limited_disjoint (rep : TestReport) :
  0 <= success_count rep /\ 0 <= rate_limited_count rep /\
  success_count rep + rate_limited_count rep <= Z.of_nat (length (results rep)) /\
  (Forall (fun r => status_code r = 0) (results rep) ->
   success_count rep = 0 /\ rate_limited_count rep = 0).
Proof.
  unfold success_count, rate_limited_count.
  induction (results rep) as [| r rs IH].
  - repeat split; try reflexivity; unfold count_success, count_limited; simpl; lia.
  - rewrite count_success_cons, count_limited_cons.
    destruct IH as (H1 & H2 & H3 & H4).
    pose proof (success_not_limited (status_code r)) as Hd.
    repeat split.
    + destruct (is_success (status_code r)); lia.
    + destruct (is_limited (status_code r)); lia.
    + simpl length. destruct (is_success (status_code r)).
      * rewrite Hd by reflexivity. lia.
      * destruct (is_limited (status_code r)); lia.
    + inversion H as [| x l Hx Hl]; subst. rewrite Hx. simpl.
      destruct (H4 Hl) as [-> _]. reflexivity.
    + inversion H as [| x l Hx Hl]; subst. rewrite Hx. simpl.
      destruct (H4 Hl) as [_ ->]. reflexivity.
Qed.

Lemma success_and_limited_disjoint_witness :
  success_count (mkTestReport [error_result None 0 TimeoutError;
                               error_result None 1 TimeoutError] 0 2) = 0.
Proof.
  apply (proj2 (proj2 (proj2 (success_and_limited_disjoint _)))).
  repeat constructor.
Defined.

(** ** Average latency *)

Lemma py_sum_bounds (lo hi : Q) (xs : list Q) (a : Q) :
  Forall (fun x => lo <= x /\ x <= hi)%Q xs ->
  (a + inject_Z (Z.of_nat (length xs)) * lo <= foldl Qplus a xs /\
   foldl Qplus a xs <= a + inject_Z (Z.of_nat (length xs)) * hi)%Q.
Proof.
  intros H. revert a. induction H as [| x xs [Hlo Hhi] _ IH]; intros a.
  - cbn [length foldl]. change (inject_Z (Z.of_nat 0)) with 0%Q. split; lra.
  - simpl foldl. destruct (IH (a + x)%Q) as [IH1 IH2].
    assert (Hn : (inject_Z (Z.of_nat (length (x :: xs)))
                  == inject_Z (Z.of_nat (length xs)) + 1)%Q).
    { simpl length. rewrite Nat2Z.inj_succ. unfold Z.succ.
      rewrite inject_Z_plus. reflexivity. }
    rewrite Hn. split; lra.
Qed.



(** ** The per-key breakdown, continued *)

Lemma per_term_step_sum (m : gmap string TermStats) (r : RequestResult) :
  sum_list_with (fun kv => total (snd kv)) (map_to_list (per_term_step m r))
  = S (sum_list_with (fun kv => total (snd kv)) (map_to_list m)).
Proof.
  unfold per_term_step. destruct (m !! term r) as [s |] eqn:E; simpl.
  - rewrite <- insert_delete_eq.
    rewrite map_to_list_insert by apply lookup_delete_eq.
    rewrite <- (map_to_list_delete m _ _ E). simpl.
    destruct (is_success (status_code r)), (is_limited (status_code r)); simpl; lia.
  - rewrite map_to_list_insert by exact E. simpl.
    destruct (is_success (status_code r)), (is_limited (status_code r)); simpl; lia.
Qed.

(** X4: in the per-key breakdown every key has at least one outcome and
    its success and limited counts together never exceed its total; the
    totals of all keys add up to the number of outcomes in the report. *)
Theorem per_term_stats_totals (rep : TestReport) :
  (forall k s, per_term_stats rep !! k = Some s ->
     (1 <= total s)%nat /\ (success s + limited s <= total s)%nat) /\
  sum_list_with (fun kv => total (snd kv)) (map_to_list (per_term_stats rep))
  = length (results rep).
Proof.
  split.
  - intros k s. rewrite per_term_stats_lookup.
    destruct (with_key k (results rep)) as [| x l] eqn:E; [discriminate |].
    intros H. inversion H. unfold stats_of. rewrite E. cbn [total success limited].
    clear H H1 E.
    split; [simpl; lia |].
    generalize (x :: l). intros xs.
    induction xs as [| y ys IH]; [simpl; lia |].
    destruct (is_success (status_code y)) eqn:Es.
    + rewrite filter_cons_True by exact Es.
      rewrite filter_cons_False
        by (rewrite (success_not_limited _ Es); discriminate).
      cbn [length]. lia.
    + rewrite filter_cons_False by (rewrite Es; discriminate).
      destruct (is_limited (status_code y)) eqn:El.
      * rewrite filter_cons_True by exact El. cbn [length]. lia.
      * rewrite filter_cons_False by (rewrite El; discriminate). cbn [length]. lia.
  - unfold per_term_stats.
    assert (H : forall rs m,
              sum_list_with (fun kv => total (snd kv)) (map_to_list (foldl per_term_step m rs))
              = (sum_list_with (fun kv => total (snd kv)) (map_to_list m) + length rs)%nat).
    { induction rs as [| r rs IH]; intros m; simpl; [lia |].
      rewrite IH, per_term_step_sum. lia. }
    rewrite H, map_to_list_empty. reflexivity.
Qed.

Lemma per_term_stats_totals_witness :
  exists s,
    per_term_stats (mkTestReport [outcome "a" 200; outcome "a" 429] 0 1) !! "a"%string
      = Some s /\
    (success s + limited s <= total s)%nat.
Proof.
  assert (H : per_term_stats (mkTestReport [outcome "a" 200; outcome "a" 429] 0 1)
                !! "a"%string = Some (mkTermStats 1 1 2)) by (vm_compute; reflexivity).
  eexists. split; [exact H |].
  apply (proj1 (per_term_stats_totals _) "a"%string _ H).
Defined.

(** ** Pacing and wall-clock time *)

Lemma paced_min_duration (execute : nat -> M World RequestResult) (interval : Q)
    (i n : nat) (w w' : World) (rs : list RequestResult) :
  paced execute interval i n w rs w' ->
  (now w + inject_Z (Z.of_nat n) * interval <= now w')%Q.
Proof.
  induction 1 as [i w | i n w w1 w2 w3 r rs _ _ _ Hnow _ IH].
  - change (inject_Z (Z.of_nat 0)) with 0%Q. lra.
  - rewrite Nat2Z.inj_succ. unfold Z.succ. rewrite inject_Z_plus.
    change (inject_Z 1) with 1%Q.
    pose proof (Q.le_max_r 0 (interval - (now w1 - now w))) as Hm.
    lra.
Qed.

Lemma run_sustained_test_eq (net : nat -> Request -> NetCall) (config : Config)
    (R D : Q) (w : World) :
  ~ (R == 0)%Q -> is_Some (cfg_params config) ->
  exists rs w',
    run_sustained_test net config R D w = (inr (mkTestReport rs (now w) (now w')), w') /\
    length rs = Z.to_nat (py_int (R * D)) /\
    paced (fun j => send_request net config j None) (1 / R)
          0 (Z.to_nat (py_int (R * D))) w rs w'.
Proof.
  intros HR [p Hp].
  destruct (sustained_loop net config (1 / R) (Z.to_nat (py_int (R * D))) 0 [] w)
    as (rs & w' & Hloop & Hlen & _ & Hpaced).
  exists rs, w'. split; [| split; assumption].
  unfold run_sustained_test, bind at 1, time_time.
  unfold bind at 1. rewrite py_div_nonzero by exact HR.
  unfold bind at 1, lookup_key. rewrite Hp. unfold ret at 1.
  unfold bind at 1, py_range. rewrite Hloop. reflexivity.
Qed.



Lemma send_request_clock (net : nat -> Request -> NetCall) (config : Config)
    (n : nat) (term : option string) (w w1 : World) (r : RequestResult) (lo hi : Q) :
  (forall k req, lo <= took (net k req) /\ took (net k req) <= hi)%Q ->
  (lo <= 0)%Q -> (0 <= hi)%Q ->
  send_request net config n term w = (inr r, w1) ->
  timestamp r = now w /\ (now w + lo <= now w1 /\ now w1 <= now w + hi)%Q.
Proof.
  intros Htook Hlo Hhi. rewrite send_request_eq.
  destruct (cfg_method config), (cfg_url config); simpl;
    try (intros H; inversion H; subst; simpl; split; [reflexivity | lra]).
  match goal with |- context [reply (net ?k ?req)] =>
    specialize (Htook k req); destruct (reply (net k req)) end;
    intros H; inversion H; subst; simpl; (split; [reflexivity |]);
    rewrite Qred_correct; lra.
Qed.

Lemma paced_exact_duration (net : nat -> Request -> NetCall) (config : Config)
    (term_of : nat -> option string) (interval : Q)
    (i n : nat) (w w' : World) (rs : list RequestResult) :
  (forall k req, 0 <= took (net k req) /\ took (net k req) <= interval)%Q ->
  paced (fun j => send_request net config j (term_of j)) interval i n w rs w' ->
  (now w' == now w + inject_Z (Z.of_nat n) * interval)%Q /\
  (forall j r, rs !! j = Some r ->
     timestamp r == now w + inject_Z (Z.of_nat j) * interval)%Q.
Proof.
  intros Htook.
  assert (Hint : (0 <= interval)%Q).
  { destruct (Htook 0%nat (mkRequest "" "" ∅ ∅ 0 None)). lra. }
  induction 1 as [i w | i n w w1 w2 w3 r rs Hex _ _ Hnow _ IH].
  - split; [change (inject_Z (Z.of_nat 0)) with 0%Q; lra |].
    intros j r Hj. rewrite lookup_nil in Hj. discriminate.
  - destruct (send_request_clock net config i (term_of i) w w1 r 0 interval
                Htook (Qle_refl 0) Hint Hex) as (Hts & Hw1lo & Hw1hi).
    assert (Hw2 : (now w2 == now w + interval)%Q).
    { rewrite Hnow. rewrite Q.max_r by lra. lra. }
    destruct IH as [IH1 IH2]. split.
    + rewrite IH1, Hw2. rewrite (Nat2Z.inj_succ n). unfold Z.succ.
      rewrite inject_Z_plus. change (inject_Z 1) with 1%Q. ring.
    + intros [| j] r' Hj.
      * simpl in Hj. inversion Hj; subst. rewrite Hts.
        change (inject_Z (Z.of_nat 0)) with 0%Q. ring.
      * simpl in Hj. rewrite (IH2 j r' Hj), Hw2.
        rewrite (Nat2Z.inj_succ j). unfold Z.succ.
        rewrite inject_Z_plus. change (inject_Z 1) with 1%Q. ring.
Qed.



(** ** The repeat-per-key strategy *)

Lemma send_request_sent (net : nat -> Request -> NetCall) (config : Config)
    (n : nat) (term : option string) (w w1 : World) (r : RequestResult) :
  send_request net config n term w = (inr r, w1) ->
  stdout w1 = stdout w /\
  (is_Some (cfg_method config) -> is_Some (cfg_url config) ->
   length (sent w1) = S (length (sent w))).
Proof.
  rewrite send_request_eq.
  destruct (cfg_method config) as [m |], (cfg_url config) as [u |]; simpl;
    try (intros H; inversion H; subst; split;
         [reflexivity | intros [? ?] [? ?]; discriminate]).
  destruct (reply _); intros H; inversion H; subst; simpl;
    (split; [reflexivity | intros _ _; rewrite length_app; simpl; lia]).
Qed.

Section RepeatProps.

Variable net : nat -> Request -> NetCall.
Variable config : Config.
Variable repeats_per_term : Z.
Variable delay_between : Q.

Lemma repeat_inner_loop (t : string) (n j : nat) (rs0 : list RequestResult) (k0 : nat)
    (w : World) :
  exists rs w',
    for_each (seq j n) (repeat_body net config repeats_per_term delay_between t) (rs0, k0) w
      = (inr (rs0 ++ rs, (k0 + n)%nat), w') /\
    List.map term rs = replicate n t /\
    stdout w' = stdout w /\
    (is_Some (cfg_method config) -> is_Some (cfg_url config) ->
     length (sent w') = (length (sent w) + n)%nat).
Proof.
  revert j rs0 k0 w. induction n as [| n IH]; intros j rs0 k0 w.
  - exists [], w. simpl. rewrite app_nil_r, Nat.add_0_r. repeat split. intros; lia.
  - destruct (send_request_returns net config (S k0) (Some t) w) as (r & w1 & Hr & _).
    destruct (send_request_sent net config _ _ _ _ _ Hr) as [Hout1 Hsent1].
    set (w2 := if Qlt_bool 0 delay_between && (Z.of_nat j <? repeats_per_term - 1)
               then mkWorld (Qred (now w1 + delay_between)) (sent w1) (stdout w1)
               else w1).
    assert (Hw2 : sent w2 = sent w1 /\ stdout w2 = stdout w1).
    { unfold w2. destruct (_ && _); split; reflexivity. }
    destruct (IH (S j) (rs0 ++ [r]) (S k0) w2) as (rs & w3 & Hl & Hterms & Hout3 & Hsent3).
    exists (r :: rs), w3. split; [| split; [| split]].
    + simpl for_each. unfold bind at 1. unfold repeat_body at 1. simpl snd. simpl fst.
      unfold bind at 1. rewrite Hr.
      unfold bind at 1.
      replace ((if Qlt_bool 0 delay_between && (Z.of_nat j <? repeats_per_term - 1)
                then time_sleep delay_between else ret ()) w1)
        with (@inr Exn unit (), w2)
        by (unfold w2; destruct (_ && _); reflexivity).
      unfold ret at 1. rewrite Hl. rewrite <- app_assoc.
      replace (S k0 + n)%nat with (k0 + S n)%nat by lia. reflexivity.
    + simpl. rewrite Hterms, (send_request_term _ _ _ _ _ _ _ Hr). reflexivity.
    + destruct Hw2 as [_ Ho]. congruence.
    + intros Hm Hu. destruct Hw2 as [Hs _]. rewrite (Hsent3 Hm Hu), Hs, (Hsent1 Hm Hu). lia.
Qed.

Lemma repeat_outer_loop (terms : list string) (rs0 : list RequestResult) (k0 : nat)
    (w : World) :
  exists rs w',
    for_each terms (repeat_term net config repeats_per_term delay_between) (rs0, k0) w
      = (inr (rs0 ++ rs, (k0 + length terms * Z.to_nat repeats_per_term)%nat), w') /\
    List.map term rs = flat_map (replicate (Z.to_nat repeats_per_term)) terms /\
    stdout w' = stdout w /\
    (is_Some (cfg_method config) -> is_Some (cfg_url config) ->
     length (sent w') = (length (sent w) + length terms * Z.to_nat repeats_per_term)%nat).
Proof.
  revert rs0 k0 w. induction terms as [| t terms IH]; intros rs0 k0 w.
  - exists [], w. simpl. rewrite app_nil_r, Nat.add_0_r. repeat split. intros; lia.
  - destruct (repeat_inner_loop t (Z.to_nat repeats_per_term) 0 rs0 k0 w)
      as (rs1 & w1 & Hl1 & Ht1 & Ho1 & Hs1).
    destruct (IH (rs0 ++ rs1) (k0 + Z.to_nat repeats_per_term)%nat w1)
      as (rs2 & w2 & Hl2 & Ht2 & Ho2 & Hs2).
    exists (rs1 ++ rs2), w2. split; [| split; [| split]].
    + simpl for_each. unfold bind at 1. unfold repeat_term at 1, py_range.
      rewrite Hl1, Hl2. rewrite <- app_assoc. simpl length.
      replace (k0 + Z.to_nat repeats_per_term + length terms * Z.to_nat repeats_per_term)%nat
        with (k0 + (S (length terms)) * Z.to_nat repeats_per_term)%nat by lia.
      reflexivity.
    + rewrite List.map_app, Ht1, Ht2. reflexivity.
    + congruence.
    + intros Hm Hu. rewrite (Hs2 Hm Hu), (Hs1 Hm Hu). simpl length. lia.
Qed.

End RepeatProps.

(** X7: the repeat-per-key run never raises once the fallback pool
    exists; it works through the pool key by key, issuing [repeats] calls
    for a key before it moves to the next, so it yields
    [len(pool) * repeats] outcomes (none for a non-positive [repeats]),
    and with a method and a URL configured it puts as many requests on
    the wire. *)
Theorem repeat_run_groups_by_key (net : nat -> Request -> NetCall)
    (pools : gmap string (list string)) (fallback : list string) (config : Config)
    (repeats_per_term : Z) (delay_between : Q) (pool_name : string) (w : World) :
  pools !! "small"%string = Some fallback ->
  let terms := default fallback (pools !! pool_name) in
  exists rep w',
    run_repeat_per_term_test net pools config repeats_per_term delay_between pool_name w
      = (inr rep, w') /\
    List.map term (results rep) = flat_map (replicate (Z.to_nat repeats_per_term)) terms /\
    length (results rep) = (length terms * Z.to_nat repeats_per_term)%nat /\
    (is_Some (cfg_method config) -> is_Some (cfg_url config) ->
     length (sent w') = (length (sent w) + length terms * Z.to_nat repeats_per_term)%nat).
Proof.
  intros Hsmall terms.
  destruct (repeat_outer_loop net config repeats_per_term delay_between terms [] 0%nat w)
    as (rs & w' & Hl & Ht & _ & Hs).
  exists (mkTestReport rs (now w) (now w')), w'. split; [| split; [| split]].
  - unfold run_repeat_per_term_test, bind at 1, time_time.
    unfold bind at 1, get_pool, bind at 1, lookup_key. rewrite Hsmall. unfold ret at 1 2.
    fold terms. unfold bind at 1. rewrite Hl. reflexivity.
  - exact Ht.
  - simpl. rewrite <- (length_map term), Ht. clear.
    induction terms as [| t ts IH]; [reflexivity |].
    simpl. rewrite length_app, length_replicate, IH. reflexivity.
  - exact Hs.
Qed.

Lemma repeat_run_groups_by_key_witness :
  exists rep w',
    run_repeat_per_term_test (net_const 200 "[]") TERM_POOLS sample_config 4 (1 # 10)
        "small" world0 = (inr rep, w') /\
    length (results rep) = 20%nat.
Proof.
  assert (Hs : TERM_POOLS !! "small"%string = Some pool_small) by (vm_compute; reflexivity).
  destruct (repeat_run_groups_by_key (net_const 200 "[]") TERM_POOLS pool_small
              sample_config 4 (1 # 10) "small" world0 Hs)
    as (rep & w' & Hrun & _ & Hlen & _).
  exists rep, w'. split; [exact Hrun |].
  rewrite Hlen, Hs. reflexivity.
Defined.

Section RepeatClock.

Variable net : nat -> Request -> NetCall.
Variable config : Config.
Variable repeats_per_term : Z.
Variable delay_between : Q.
Variable hi : Q.
Hypothesis took_bounds : forall k req, (0 <= took (net k req) /\ took (net k req) <= hi)%Q.
Hypothesis delay_pos : (0 < delay_between)%Q.

(** The pauses the inner loop takes on indices [j .. j+n-1]: one per
    index below [repeats - 1]. *)
Lemma repeat_inner_clock (t : string) (n j : nat) (acc acc' : list RequestResult * nat)
    (w w' : World) :
  for_each (seq j n) (repeat_body net config repeats_per_term delay_between t) acc w
    = (inr acc', w') ->
  let pauses := (Nat.min (j + n) (Z.to_nat (repeats_per_term - 1))
                 - Nat.min j (Z.to_nat (repeats_per_term - 1)))%nat in
  (now w + inject_Z (Z.of_nat pauses) * delay_between <= now w' /\
   now w' <= now w + inject_Z (Z.of_nat pauses) * delay_between
             + inject_Z (Z.of_nat n) * hi)%Q.
Proof.
  assert (Hhi : (0 <= hi)%Q).
  { destruct (took_bounds 0%nat (mkRequest "" "" ∅ ∅ 0 None)). lra. }
  revert j acc w. induction n as [| n IH]; intros j acc w Hrun pauses.
  - simpl in Hrun. inversion Hrun; subst. unfold pauses.
    rewrite Nat.add_0_r, Nat.sub_diag. change (inject_Z (Z.of_nat 0)) with 0%Q. lra.
  - simpl for_each in Hrun. unfold bind at 1 in Hrun.
    unfold repeat_body at 1 in Hrun. unfold bind at 1 in Hrun.
    destruct (send_request_returns net config (S (snd acc)) (Some t) w)
      as (r & w1 & Hr & _).
    rewrite Hr in Hrun.
    destruct (send_request_clock net config _ _ _ _ _ 0 hi took_bounds (Qle_refl 0) Hhi Hr)
      as (_ & Hlo1 & Hhi1).
    unfold bind at 1 in Hrun.
    apply Qlt_bool_iff in delay_pos. rewrite delay_pos in Hrun. simpl andb in Hrun.
    destruct (Z.of_nat j <? repeats_per_term - 1) eqn:Ej.
    + apply Z.ltb_lt in Ej. unfold time_sleep, modify, ret at 1 in Hrun.
      apply IH in Hrun. simpl now in Hrun.
      rewrite Qred_correct in Hrun.
      assert (Hp : pauses = S (Nat.min (S j + n) (Z.to_nat (repeats_per_term - 1))
                              - Nat.min (S j) (Z.to_nat (repeats_per_term - 1)))%nat)
        by (unfold pauses; lia).
      rewrite Hp. rewrite (Nat2Z.inj_succ (_ - _)), (Nat2Z.inj_succ n). unfold Z.succ.
      rewrite !inject_Z_plus. change (inject_Z 1) with 1%Q.
      set (p := inject_Z (Z.of_nat (Nat.min (S j + n) (Z.to_nat (repeats_per_term - 1))
                                    - Nat.min (S j) (Z.to_nat (repeats_per_term - 1))))) in *.
      set (m := inject_Z (Z.of_nat n)) in *.
      split; nra.
    + apply Z.ltb_ge in Ej. unfold ret at 1 2 in Hrun.
      apply IH in Hrun.
      assert (Hp : pauses = 0%nat) by (unfold pauses; lia).
      assert (Hp' : (Nat.min (S j + n) (Z.to_nat (repeats_per_term - 1))
                     - Nat.min (S j) (Z.to_nat (repeats_per_term - 1)) = 0)%nat) by lia.
      rewrite Hp' in Hrun. rewrite Hp.
      rewrite (Nat2Z.inj_succ n). unfold Z.succ. rewrite inject_Z_plus.
      change (inject_Z 1) with 1%Q. change (inject_Z (Z.of_nat 0)) with 0%Q in *.
      set (m := inject_Z (Z.of_nat n)) in *.
      split; nra.
Qed.

Lemma repeat_outer_clock (terms : list string) (acc acc' : list RequestResult * nat)
    (w w' : World) :
  for_each terms (repeat_term net config repeats_per_term delay_between) acc w
    = (inr acc', w') ->
  let pauses := (length terms * Z.to_nat (repeats_per_term - 1))%nat in
  let calls := (length terms * Z.to_nat repeats_per_term)%nat in
  (now w + inject_Z (Z.of_nat pauses) * delay_between <= now w' /\
   now w' <= now w + inject_Z (Z.of_nat pauses) * delay_between
             + inject_Z (Z.of_nat calls) * hi)%Q.
Proof.
  revert acc w. induction terms as [| t terms IH]; intros acc w Hrun pauses calls.
  - simpl in Hrun. inversion Hrun; subst. unfold pauses, calls.
    cbn [length Nat.mul]. change (inject_Z (Z.of_nat 0)) with 0%Q. lra.
  - simpl for_each in Hrun. unfold bind at 1 in Hrun. unfold repeat_term at 1 in Hrun.
    destruct (repeat_inner_loop net config repeats_per_term delay_between t
                (Z.to_nat repeats_per_term) 0 (fst acc) (snd acc) w)
      as (rs1 & w1 & Hl1 & _).
    rewrite <- surjective_pairing in Hl1. unfold py_range in Hrun.
    pose proof (repeat_inner_clock _ _ _ _ _ _ _ Hl1) as Hc1. simpl in Hc1.
    rewrite Hl1 in Hrun. apply IH in Hrun.
    replace (Nat.min (Z.to_nat repeats_per_term) (Z.to_nat (repeats_per_term - 1)) - 0)%nat
      with (Z.to_nat (repeats_per_term - 1)) in Hc1 by lia.
    unfold pauses, calls. simpl length.
    replace (S (length terms) * Z.to_nat (repeats_per_term - 1))%nat
      with (Z.to_nat (repeats_per_term - 1)
            + length terms * Z.to_nat (repeats_per_term - 1))%nat by lia.
    replace (S (length terms) * Z.to_nat repeats_per_term)%nat
      with (Z.to_nat repeats_per_term + length terms * Z.to_nat repeats_per_term)%nat by lia.
    rewrite !Nat2Z.inj_add, !inject_Z_plus.
    set (a := inject_Z (Z.of_nat (Z.to_nat (repeats_per_term - 1)))) in *.
    set (b := inject_Z (Z.of_nat (length terms * Z.to_nat (repeats_per_term - 1)))) in *.
    set (c := inject_Z (Z.of_nat (Z.to_nat repeats_per_term))) in *.
    set (d := inject_Z (Z.of_nat (length terms * Z.to_nat repeats_per_term))) in *.
    split; nra.
Qed.

End RepeatClock.


Lemma repeat_run_returns (net : nat -> Request -> NetCall)
    (pools : gmap string (list string)) (config : Config)
    (repeats_per_term : Z) (delay_between : Q) (pool_name : string) (w : World) :
  is_Some (pools !! "small"%string) ->
  exists rep w',
    run_repeat_per_term_test net pools config repeats_per_term delay_between pool_name w
      = (inr rep, w').
Proof.
  intros [fallback Hsmall].
  destruct (repeat_outer_loop net config repeats_per_term delay_between
              (default fallback (pools !! pool_name)) [] 0%nat w)
    as (rs & w' & Hl & _).
  exists (mkTestReport rs (now w) (now w')), w'.
  unfold run_repeat_per_term_test, bind at 1, time_time.
  unfold bind at 1, get_pool, bind at 1, lookup_key. rewrite Hsmall. unfold ret at 1 2.
  unfold bind at 1. rewrite Hl. reflexivity.
Qed.


(** ** The rotating strategy *)



(** ** The comparison run, continued *)

Lemma send_request_timestamp (net : nat -> Request -> NetCall) (config : Config)
    (n : nat) (term : option string) (w w1 : World) (r : RequestResult) :
  send_request net config n term w = (inr r, w1) -> timestamp r = now w.
Proof.
  rewrite send_request_eq.
  destruct (cfg_method config), (cfg_url config); simpl;
    try (intros H; inversion H; reflexivity).
  destruct (reply _); intros H; inversion H; reflexivity.
Qed.

Lemma same_loop_head (net : nat -> Request -> NetCall) (config : Config) (interval : Q)
    (same_term : string) (n i : nat) (rs0 : list RequestResult) (w : World) :
  exists r rs w',
    for_each (seq i (S n)) (same_body net config interval same_term) rs0 w
      = (inr (rs0 ++ r :: rs), w') /\
    timestamp r = now w.
Proof.
  destruct (send_request_returns net config i (Some same_term) w) as (r & w1 & Hr & _).
  destruct (pace_spec interval (now w) w1) as (w2 & Hp & _).
  destruct (same_loop net config interval same_term n (S i) (rs0 ++ [r]) w2)
    as (rs & w3 & Hl & _).
  exists r, rs, w3. split; [| apply (send_request_timestamp _ _ _ _ _ _ _ Hr)].
  simpl. unfold bind at 1. unfold same_body at 1.
  unfold bind, perf_counter. rewrite Hr, Hp. unfold ret.
  rewrite Hl. rewrite <- app_assoc. reflexivity.
Qed.

(** X10: a comparison with zero requests per phase does not return a
    report: after both (empty) phases and the three-second pause the
    percentage of the summary table divides by zero; with a zero rate the
    run raises at once. *)
Theorem compare_zero_requests_raises (net : nat -> Request -> NetCall)
    (pools : gmap string (list string)) (config : Config) (R : Q) (w : World) :
  ((R == 0)%Q ->
   forall num_each,
     run_same_vs_unique_test net pools config num_each R w = (inl ZeroDivisionError, w)) /\
  (~ (R == 0)%Q -> is_Some (pools !! "large"%string) ->
   run_same_vs_unique_test net pools config 0 R w
     = (inl ZeroDivisionError, mkWorld (Qred (now w + 3)) (sent w) (stdout w))).
Proof.
  split.
  - intros HR num_each. unfold run_same_vs_unique_test. apply py_div_zero. exact HR.
  - intros HR [l Hl]. unfold run_same_vs_unique_test.
    unfold bind at 1. rewrite py_div_nonzero by exact HR.
    unfold bind at 1. simpl for_each. unfold ret at 1.
    unfold bind at 1, time_sleep, modify.
    unfold bind at 1, lookup_key. rewrite Hl. unfold ret at 1.
    unfold bind at 1. simpl for_each. unfold ret at 1.
    apply py_div_zero. reflexivity.
Qed.

Lemma compare_zero_requests_raises_witness :
  run_same_vs_unique_test (net_const 200 "[]") TERM_POOLS sample_config 0 3 world0
    = (inl ZeroDivisionError, mkWorld 3 [] []).
Proof.
  apply (proj2 (compare_zero_requests_raises (net_const 200 "[]") TERM_POOLS
                  sample_config 3 world0)).
  - discriminate.
  - eexists. vm_compute. reflexivity.
Defined.



(** ** The ramp strategy, continued *)

Section RampEdge.

Variable net : nat -> Request -> NetCall.
Variable config : Config.
Variables max_rps step_duration step_size : Q.

(** A pass of the loop at a negative rate sends nothing and reports OK. *)
Lemma ramp_step_negative (rate : Q) (rs0 : list RequestResult) (w : World) :
  (rate < 0)%Q -> (0 <= step_duration)%Q ->
  ramp_step net config step_duration step_size (mkRampState rate false rs0) w
    = (inr (mkRampState (rate + step_size) false rs0), say (OutStepOK rate) w).
Proof.
  intros Hr Hd. unfold ramp_step. simpl current_rps. simpl ramp_results.
  simpl rate_limit_detected.
  unfold bind at 1. rewrite py_div_nonzero by lra.
  assert (Hn : py_int (rate * step_duration) <= 0) by (apply py_int_nonpos; nra).
  unfold py_range. replace (Z.to_nat (py_int (rate * step_duration))) with 0%nat by lia.
  unfold bind at 1. simpl for_each. unfold ret at 1. simpl fst. simpl snd.
  assert (Hpct : exists pct, limit_pct_of 0 (py_int (rate * step_duration)) w = (inr pct, w)
                             /\ Qlt_bool 20 pct = false).
  { unfold limit_pct_of. destruct (_ =? 0) eqn:E0.
    - exists 0%Q. split; reflexivity.
    - apply Z.eqb_neq in E0. unfold bind. rewrite py_div_nonzero.
      2:{ intros H. apply E0. unfold Qeq in H. simpl in H. lia. }
      eexists. split; [reflexivity |]. apply Qlt_bool_false_iff.
      assert (H0 : (inject_Z 0 / inject_Z (py_int (rate * step_duration)) == 0)%Q).
      { unfold Qdiv. change (inject_Z 0) with 0%Q. ring. }
      rewrite H0. lra. }
  destruct Hpct as (pct & Hpct & Hlt).
  unfold bind at 1. rewrite Hpct. rewrite Hlt. reflexivity.
Qed.

Lemma ramp_while_negative (fuel : nat) (rate : Q) (rs0 : list RequestResult) (w : World) :
  (step_size < 0)%Q -> (rate < 0)%Q -> (rate <= max_rps)%Q -> (0 <= step_duration)%Q ->
  exists w',
    ramp_while net fuel config max_rps step_duration step_size
               (mkRampState rate false rs0) w = (inr None, w') /\
    sent w' = sent w /\
    length (stdout w') = (length (stdout w) + fuel)%nat.
Proof.
  intros Hs. revert rate w. induction fuel as [| fuel IH]; intros rate w Hr Hm Hd.
  - exists w. simpl. unfold ramp_cond. simpl.
    apply Qle_bool_iff in Hm. rewrite Hm. simpl. repeat split. lia.
  - destruct (IH (rate + step_size)%Q (say (OutStepOK rate) w)) as (w' & Hrun & Hsent & Hout);
      [lra | lra | exact Hd |].
    exists w'. split; [| split].
    + simpl. unfold ramp_cond. simpl. apply Qle_bool_iff in Hm. rewrite Hm. simpl.
      unfold bind. rewrite (ramp_step_negative rate rs0 w Hr Hd). exact Hrun.
    + rewrite Hsent. reflexivity.
    + rewrite Hout. simpl. rewrite length_app. simpl. lia.
Qed.

End RampEdge.

(** X12: the ramp does not check its step size.  With a zero step (and a
    non-negative ceiling) it raises a division error before any request;
    with a negative step, a ceiling at or above it and a non-negative
    step duration the loop never ends: however long it is run it has not
    returned, has sent no request and has printed one OK line per pass. *)
Theorem ramp_bad_step_size (net : nat -> Request -> NetCall) (config : Config)
    (max_rps step_duration step_size : Q) (w : World) :
  ((step_size == 0)%Q -> (0 <= max_rps)%Q ->
   forall fuel,
     run_ramp_test net (S fuel) config max_rps step_duration step_size w
       = (inl ZeroDivisionError, w)) /\
  ((step_size < 0)%Q -> (step_size <= max_rps)%Q -> (0 <= step_duration)%Q ->
   forall fuel,
     exists w',
       run_ramp_test net fuel config max_rps step_duration step_size w = (inr None, w') /\
       sent w' = sent w /\
       length (stdout w') = (length (stdout w) + fuel)%nat).
Proof.
  split.
  - intros Hs Hm fuel. unfold run_ramp_test, bind at 1, time_time.
    unfold bind at 1. simpl ramp_while. unfold ramp_cond. simpl.
    assert (Hc : Qle_bool step_size max_rps = true) by (apply Qle_bool_iff; lra).
    rewrite Hc. simpl. unfold bind at 1. unfold ramp_step. simpl current_rps.
    rewrite (py_div_zero 1 step_size _ w Hs). reflexivity.
  - intros Hs Hm Hd fuel.
    destruct (ramp_while_negative net config max_rps step_duration step_size
                fuel step_size [] w Hs Hs Hm Hd) as (w' & Hrun & Hsent & Hout).
    exists w'. split; [| split; assumption].
    unfold run_ramp_test, bind at 1, time_time.
    unfold bind at 1. rewrite Hrun. reflexivity.
Qed.

Lemma ramp_bad_step_size_witness :
  run_ramp_test (net_const 200 "[]") 1 sample_config 10 5 0 world0
    = (inl ZeroDivisionError, world0) /\
  exists w', run_ramp_test (net_const 200 "[]") 50 sample_config 10 5 (-2) world0
               = (inr None, w') /\ sent w' = [].
Proof.
  pose proof (ramp_bad_step_size (net_const 200 "[]") sample_config 10 5 0 world0) as [H0 _].
  pose proof (ramp_bad_step_size (net_const 200 "[]") sample_config 10 5 (-2) world0)
    as [_ Hneg].
  split.
  - apply H0; [reflexivity | discriminate].
  - destruct (Hneg eq_refl) with (fuel := 50%nat) as (w' & Hrun & Hsent & _);
      [discriminate | discriminate |].
    exists w'. split; [exact Hrun | exact Hsent].
Defined.

Lemma paced_never_limited (net : nat -> Request -> NetCall) (config : Config)
    (term_of : nat -> option string) (interval : Q) (i n : nat) (w w' : World)
    (rs : list RequestResult) :
  (forall k req resp, reply (net k req) = inr resp ->
                      is_limited (resp_status_code resp) = false) ->
  paced (fun j => send_request net config j (term_of j)) interval i n w rs w' ->
  count_limited rs = 0.
Proof.
  intros Hnet. induction 1 as [| i n w w1 w2 w3 r rs Hex _ _ _ _ IH]; [reflexivity |].
  rewrite count_limited_cons, IH.
  rewrite send_request_eq in Hex.
  destruct (cfg_method config), (cfg_url config); simpl in Hex;
    try (inversion Hex; reflexivity).
  destruct (reply _) eqn:E; inversion Hex; subst; simpl; [reflexivity |].
  rewrite (Hnet _ _ _ E). reflexivity.
Qed.

Lemma limited_fraction_zero (rs : list RequestResult) :
  count_limited rs = 0 -> (limited_fraction rs == 0)%Q.
Proof.
  intros H. destruct rs as [| r rs]; [reflexivity |].
  unfold limited_fraction. rewrite H. unfold Qdiv. change (inject_Z 0) with 0%Q. ring.
Qed.

Lemma ramp_run_exhausted_steps (execute : nat -> M World RequestResult)
    (max_rps step_size step_duration : Q) (k : nat) (rate : Q) (w w' : World)
    (steps : list (Q * list RequestResult)) (o : RampOutcome) :
  ramp_run execute max_rps step_size step_duration k rate w steps o w' ->
  o = Exhausted ->
  (max_rps < inject_Z (Z.of_nat (k + length steps)) * step_size)%Q /\
  (steps <> [] ->
   (inject_Z (Z.of_nat (k + length steps - 1)) * step_size <= max_rps)%Q) /\
  Forall (fun st => (limited_fraction (snd st) <= 1 # 5)%Q) steps.
Proof.
  induction 1 as [k rate w Hk Hgt | k rate w w1 rs Hk Hle Hp Hex
                  | k rate w w1 w3 rs steps o Hk Hle Hp Hok Hrun IH]; intros Ho.
  - cbn [length]. rewrite Nat.add_0_r. split; [rewrite <- Hk; exact Hgt |].
    split; [congruence | constructor].
  - discriminate.
  - destruct (IH Ho) as (H1 & H2 & H3). simpl length.
    replace (k + S (length steps))%nat with (S k + length steps)%nat by lia.
    split; [exact H1 |]. split; [| constructor; [exact Hok | exact H3]].
    intros _. destruct steps as [| st steps'].
    + cbn [length]. replace (S k + 0 - 1)%nat with k by lia. rewrite <- Hk. exact Hle.
    + apply H2. discriminate.
Qed.

Lemma ramp_run_never_detected (net : nat -> Request -> NetCall) (config : Config)
    (max_rps step_size step_duration : Q) (k : nat) (rate : Q) (w w' : World)
    (steps : list (Q * list RequestResult)) (o : RampOutcome) :
  (forall k req resp, reply (net k req) = inr resp ->
                      is_limited (resp_status_code resp) = false) ->
  ramp_run (fun j => send_request net config j None)
           max_rps step_size step_duration k rate w steps o w' ->
  o = Exhausted.
Proof.
  intros Hnet.
  induction 1 as [| k rate w w1 rs _ _ Hp Hex | k rate w w1 w3 rs steps o _ _ _ _ _ IH];
    [reflexivity | | exact IH].
  exfalso. rewrite (limited_fraction_zero rs) in Hex; [lra |].
  apply (paced_never_limited net config (fun _ => None) _ _ _ _ _ _ Hnet Hp).
Qed.



(** ** The batched lookup, continued *)

Section BatchProps.
Import Lookup LookupSpec LookupMore.

Lemma py_range_step_succ (n step : nat) :
  (0 < step)%nat -> (0 < n)%nat ->
  py_range_step n step = 0%nat :: List.map (fun i => (step + i)%nat) (py_range_step (n - step) step).
Proof.
  intros Hs Hn. unfold py_range_step.
  assert (Hq : ((n + step - 1) / step = S ((n - step + step - 1) / step))%nat).
  { destruct (Nat.le_gt_cases n step) as [Hle | Hgt].
    - replace (n - step)%nat with 0%nat by lia. simpl Nat.add.
      rewrite (Nat.div_small (step - 1) step) by lia.
      symmetry. apply (Nat.div_unique _ _ _ (n - 1)); lia.
    - replace (n + step - 1)%nat with ((n - step + step - 1) + 1 * step)%nat by lia.
      rewrite Nat.div_add by lia. lia. }
  rewrite Hq. simpl seq. simpl List.map. f_equal.
  rewrite <- seq_shift, List.map_map, List.map_map.
  apply List.map_ext. intros a. lia.
Qed.

Lemma batches_concat_aux {A : Type} (step : nat) (fuel : nat) (ids : list A) :
  (0 < step)%nat -> (length ids <= fuel)%nat ->
  concat (List.map (fun i => take step (drop i ids)) (py_range_step (length ids) step)) = ids /\
  Forall (fun i => (i < length ids)%nat /\ (i mod step = 0)%nat)
         (py_range_step (length ids) step).
Proof.
  intros Hs. revert ids. induction fuel as [| fuel IH]; intros ids Hlen.
  - destruct ids; [| simpl in Hlen; lia].
    unfold py_range_step. simpl length. simpl Nat.add.
    rewrite (Nat.div_small (step - 1) step) by lia. split; [reflexivity | constructor].
  - destruct ids as [| x ids']; [
      unfold py_range_step; simpl length; simpl Nat.add;
      rewrite (Nat.div_small (step - 1) step) by lia; split; [reflexivity | constructor] |].
    remember (x :: ids') as ids eqn:Eids.
    assert (Hpos : (0 < length ids)%nat) by (subst ids; simpl; lia).
    rewrite (py_range_step_succ _ _ Hs Hpos).
    destruct (IH (drop step ids)) as [IH1 IH2].
    { rewrite length_drop. lia. }
    rewrite length_drop in IH1, IH2.
    split.
    + cbn [List.map concat]. rewrite drop_0.
      rewrite List.map_map.
      erewrite List.map_ext; [rewrite IH1; apply take_drop |].
      intros i. simpl. rewrite drop_drop. reflexivity.
    + constructor; [split; [exact Hpos | apply Nat.Div0.mod_0_l] |].
      rewrite Forall_forall in IH2 |- *. intros j Hj.
      apply list_elem_of_In, List.in_map_iff in Hj as (i & <- & Hi).
      apply list_elem_of_In in Hi. destruct (IH2 i Hi) as [Hi1 Hi2]. split; [lia |].
      rewrite Nat.add_comm. replace (i + step)%nat with (i + 1 * step)%nat by lia.
      rewrite Nat.Div0.mod_add. exact Hi2.
Qed.

End BatchProps.

(** X14: the batches of the lookup split the identifier list without
    loss, repetition or reordering: put end to end they give the list
    back; every batch holds between 1 and 150 identifiers; an empty list
    gives no batch at all. *)
Theorem lookup_batches_partition (app_ids : list string) :
  let offs := Lookup.py_range_step (length app_ids) Lookup.LOOKUP_BATCH_SIZE in
  concat (List.map (LookupMore.batch_at app_ids) offs) = app_ids /\
  Forall (fun i => (1 <= length (LookupMore.batch_at app_ids i) <= 150)%nat) offs /\
  (app_ids = [] -> offs = []).
Proof.
  intros offs.
  destruct (batches_concat_aux Lookup.LOOKUP_BATCH_SIZE (length app_ids) app_ids)
    as [H1 H2]; [unfold Lookup.LOOKUP_BATCH_SIZE; lia | lia |].
  split; [exact H1 |]. split.
  - unfold offs. rewrite Forall_forall in H2 |- *. intros i Hi.
    destruct (H2 i Hi) as [Hlt _]. unfold LookupMore.batch_at.
    rewrite length_take, length_drop. unfold Lookup.LOOKUP_BATCH_SIZE. lia.
  - intros ->. reflexivity.
Qed.

Section LookupInv.
Import Lookup LookupSpec LookupMore.

Variable fetch : nat -> string -> Exn + option (list TrackJson).
Variable app_ids : list string.
Variable country : string.

Lemma add_results_app (m : gmap string AppMeta) (a b : list TrackJson) :
  add_results m (a ++ b) = add_results (add_results m a) b.
Proof. unfold add_results. apply foldl_app. Qed.

Lemma add_results_lookup (rs : list TrackJson) (m : gmap string AppMeta) (k : string) :
  add_results m rs !! k =
  match last_with_id k rs with
  | Some r => Some (meta_of r)
  | None => m !! k
  end.
Proof.
  induction rs as [| r rs IH] using rev_ind; [reflexivity |].
  rewrite add_results_app. unfold last_with_id. rewrite foldl_app. simpl.
  fold (last_with_id k rs). unfold add_results at 1. simpl.
  destruct (decide (default ""%string (trackId r) = k)) as [Hk | Hk].
  - rewrite Hk. apply lookup_insert_eq.
  - rewrite lookup_insert_ne by exact Hk. exact IH.
Qed.

(** What a lookup that returned has done. *)
Lemma lookup_loop_inv (offs : list nat) (m md : gmap string AppMeta) (w w' : LWorld) :
  for_each offs (lookup_batch fetch app_ids country) m w = (inr md, w') ->
  let replies := batch_replies fetch app_ids country (length (fetched w)) offs in
  md = add_results m (returned replies) /\
  (slept w' == slept w
     + inject_Z (Z.of_nat (length (List.filter (paused_after (length app_ids)) replies)))
       * (1 # 2))%Q.
Proof.
  revert m w. induction offs as [| i offs IH]; intros m w Hrun replies.
  - simpl in Hrun. inversion Hrun; subst. split; [reflexivity |].
    unfold replies. simpl. change (inject_Z 0) with 0%Q. ring.
  - simpl for_each in Hrun. unfold bind at 1 in Hrun. rewrite lookup_batch_eq in Hrun.
    unfold replies. simpl batch_replies. simpl in Hrun.
    destruct (fetch (length (fetched w)) (batch_url app_ids country i)) as [e | data] eqn:E.
    + destruct (caught e); [| discriminate].
      apply IH in Hrun. simpl in Hrun. rewrite length_app in Hrun. simpl in Hrun.
      rewrite Nat.add_1_r in Hrun. destruct Hrun as [Hmd Hsl].
      split; [exact Hmd |].
      change (List.filter (paused_after (length app_ids))
                ((i, inl e) :: batch_replies fetch app_ids country
                                 (S (length (fetched w))) offs))
        with (List.filter (paused_after (length app_ids))
                (batch_replies fetch app_ids country (S (length (fetched w))) offs)).
      exact Hsl.
    + apply IH in Hrun. simpl in Hrun. rewrite length_app in Hrun. simpl in Hrun.
      rewrite Nat.add_1_r in Hrun. destruct Hrun as [Hmd Hsl].
      split.
      * unfold returned. simpl flat_map. rewrite add_results_app. exact Hmd.
      * change (List.filter (paused_after (length app_ids))
                  ((i, inr data) :: batch_replies fetch app_ids country
                                      (S (length (fetched w))) offs))
          with (if (i + LOOKUP_BATCH_SIZE <? length app_ids)%nat
                then (i, @inr Exn _ data)
                       :: List.filter (paused_after (length app_ids))
                            (batch_replies fetch app_ids country
                               (S (length (fetched w))) offs)
                else List.filter (paused_after (length app_ids))
                       (batch_replies fetch app_ids country
                          (S (length (fetched w))) offs)).
        destruct (i + LOOKUP_BATCH_SIZE <? length app_ids)%nat.
        -- rewrite Hsl. cbn [length]. rewrite Nat2Z.inj_succ. unfold Z.succ.
           rewrite inject_Z_plus. change (inject_Z 1) with 1%Q. ring.
        -- exact Hsl.
Qed.

End LookupInv.

(** X15: whenever the lookup returns, the metadata it returns holds, for
    each identifier, the record built from the last entry with that
    identifier among the entries returned by the batches that succeeded,
    and nothing for an identifier that no such entry carries; entries
    without a track id are filed under the empty string. *)
Theorem lookup_metadata_last_entry_wins
    (fetch : nat -> string -> Exn + option (list Lookup.TrackJson))
    (app_ids : list string) (country : string) (w w' : Lookup.LWorld)
    (metadata : gmap string Lookup.AppMeta) :
  Lookup.lookup_app_metadata fetch app_ids country w = (inr metadata, w') ->
  let replies :=
    LookupSpec.batch_replies fetch app_ids country (length (Lookup.fetched w))
      (Lookup.py_range_step (length app_ids) Lookup.LOOKUP_BATCH_SIZE) in
  forall k : string,
    metadata !! k =
    Lookup.meta_of <$> LookupMore.last_with_id k (LookupMore.returned replies).
Proof.
  intros Hrun replies k.
  destruct (lookup_loop_inv fetch app_ids country _ _ _ _ _ Hrun) as [-> _].
  rewrite add_results_lookup, lookup_empty. fold replies.
  destruct (LookupMore.last_with_id k (LookupMore.returned replies)); reflexivity.
Qed.

Lemma lookup_metadata_last_entry_wins_witness :
  exists metadata w',
    Lookup.lookup_app_metadata (fetch_first_fails (URLError "unreachable"))
        sample_ids "us" lworld0 = (inr metadata, w') /\
    metadata !! "7"%string = None /\
    metadata !! "42"%string = Some (Lookup.meta_of (sample_track "42")).
Proof.
  assert (Hrun : exists metadata w',
             Lookup.lookup_app_metadata (fetch_first_fails (URLError "unreachable"))
               sample_ids "us" lworld0 = (inr metadata, w')).
  { destruct (lookup_loop (fetch_first_fails (URLError "unreachable")) sample_ids "us"
                (Lookup.py_range_step (length sample_ids) Lookup.LOOKUP_BATCH_SIZE)
                ∅ lworld0) as (w' & Hrun & _).
    - repeat constructor; intros e He; inversion He; reflexivity.
    - eexists _, w'. exact Hrun. }
  destruct Hrun as (metadata & w' & Hrun).
  exists metadata, w'. split; [exact Hrun |].
  pose proof (lookup_metadata_last_entry_wins _ _ _ _ _ _ Hrun) as H.
  split; rewrite H; vm_compute; reflexivity.
Defined.

(** X16: the half-second courtesy pause is taken after a batch only if
    the batch succeeded and is not the last one: a lookup that returns
    has slept half a second for each such batch; in particular a failed
    batch is followed by no pause. *)
Theorem lookup_pauses_after_successful_batches
    (fetch : nat -> string -> Exn + option (list Lookup.TrackJson))
    (app_ids : list string) (country : string) (w w' : Lookup.LWorld)
    (metadata : gmap string Lookup.AppMeta) :
  Lookup.lookup_app_metadata fetch app_ids country w = (inr metadata, w') ->
  let replies :=
    LookupSpec.batch_replies fetch app_ids country (length (Lookup.fetched w))
      (Lookup.py_range_step (length app_ids) Lookup.LOOKUP_BATCH_SIZE) in
  (Lookup.slept w' == Lookup.slept w
     + inject_Z (Z.of_nat (length (List.filter (LookupMore.paused_after (length app_ids))
                                               replies))) * (1 # 2))%Q.
Proof.
  intros Hrun replies.
  destruct (lookup_loop_inv fetch app_ids country _ _ _ _ _ Hrun) as [_ H]. exact H.
Qed.

Lemma lookup_pauses_after_successful_batches_witness :
  exists metadata w',
    Lookup.lookup_app_metadata (fetch_first_fails (URLError "unreachable"))
        sample_ids "us" lworld0 = (inr metadata, w') /\
    (Lookup.slept w' == 0)%Q.
Proof.
  destruct (lookup_loop (fetch_first_fails (URLError "unreachable")) sample_ids "us"
              (Lookup.py_range_step (length sample_ids) Lookup.LOOKUP_BATCH_SIZE)
              ∅ lworld0) as (w' & Hrun & _).
  - repeat constructor; intros e He; inversion He; reflexivity.
  - eexists _, w'. split; [exact Hrun |].
    rewrite (lookup_pauses_after_successful_batches _ _ _ _ _ _ Hrun). reflexivity.
Defined.

(** ** Command-line overrides *)

Lemma partition_colon_first (key rest : string) :
  ":"%char ∉ list_ascii_of_string key ->
  partition_colon (String.append key (String ":" rest)) = (key, rest).
Proof.
  induction key as [| c key IH]; intros Hc; [reflexivity |].
  simpl in Hc. apply not_elem_of_cons in Hc as [Hne Hc].
  simpl. destruct (Ascii.eqb c ":") eqn:E.
  - apply Ascii.eqb_eq in E. congruence.
  - rewrite (IH Hc). reflexivity.
Qed.

Lemma partition_colon_absent (h : string) :
  ":"%char ∉ list_ascii_of_string h -> partition_colon h = (h, EmptyString).
Proof.
  induction h as [| c h IH]; intros Hc; [reflexivity |].
  simpl in Hc. apply not_elem_of_cons in Hc as [Hne Hc].
  simpl. destruct (Ascii.eqb c ":") eqn:E.
  - apply Ascii.eqb_eq in E. congruence.
  - rewrite (IH Hc). reflexivity.
Qed.

Lemma py_rstrip_trimmed (s : string) :
  from_option is_space false (last_char s) = false -> py_rstrip s = s.
Proof.
  induction s as [| c s IH]; [reflexivity |].
  destruct s as [| d s'].
  - simpl. intros ->. reflexivity.
  - intros H. change (last_char (String c (String d s'))) with (last_char (String d s')) in H.
    change (py_rstrip (String c (String d s')))
      with (match py_rstrip (String d s') with
            | EmptyString => if is_space c then EmptyString else String c EmptyString
            | r => String c r
            end).
    rewrite (IH H). reflexivity.
Qed.

Lemma py_strip_trimmed (s : string) : trimmed s = true -> py_strip s = s.
Proof.
  unfold trimmed, py_strip. intros H. apply andb_true_iff in H as [H1 H2].
  apply negb_true_iff in H1, H2.
  assert (Hl : py_lstrip s = s).
  { destruct s as [| c s]; [reflexivity |]. simpl in *. rewrite H1. reflexivity. }
  rewrite Hl. apply py_rstrip_trimmed. exact H2.
Qed.

(** X17: a [--header] argument is split at its first colon only, so a
    value may itself contain colons; both parts are stripped of
    surrounding white space; [Key: Value] with a colon-free key and both
    parts free of surrounding white space is read back as [(Key, Value)];
    an argument without a colon becomes a header with an empty value. *)
Theorem header_split_at_first_colon (key rest : string) :
  (":"%char ∉ list_ascii_of_string key ->
   parse_header (String.append key (String ":" rest)) = (py_strip key, py_strip rest)) /\
  (":"%char ∉ list_ascii_of_string key -> trimmed key = true -> trimmed rest = true ->
   parse_header (String.append key (String ":" (String " " rest))) = (key, rest)) /\
  (":"%char ∉ list_ascii_of_string key ->
   parse_header key = (py_strip key, EmptyString)).
Proof.
  split; [| split].
  - intros Hc. unfold parse_header. rewrite (partition_colon_first _ _ Hc). reflexivity.
  - intros Hc Hk Hr. unfold parse_header. rewrite (partition_colon_first _ _ Hc).
    rewrite (py_strip_trimmed _ Hk). f_equal.
    unfold py_strip. simpl py_lstrip. apply (py_strip_trimmed _ Hr).
  - intros Hc. unfold parse_header. rewrite (partition_colon_absent _ Hc). reflexivity.
Qed.

Lemma header_split_at_first_colon_witness :
  parse_header "Referer: https://apps.apple.com" = ("Referer", "https://apps.apple.com")%string.
Proof.
  apply (proj1 (proj2 (header_split_at_first_colon "Referer" "https://apps.apple.com"))).
  - vm_compute. intros H. repeat (apply elem_of_cons in H as [H | H]; [discriminate |]).
    apply elem_of_nil in H. exact H.
  - reflexivity.
  - reflexivity.
Defined.



(** ** The rate-limit header filter *)

Lemma ascii_lower_upper (c : ascii) : ascii_lower (ascii_upper c) = ascii_lower c.
Proof. destruct c as [[] [] [] [] [] [] [] []]; reflexivity. Qed.

Lemma ascii_lower_idem (c : ascii) : ascii_lower (ascii_lower c) = ascii_lower c.
Proof. destruct c as [[] [] [] [] [] [] [] []]; reflexivity. Qed.

Lemma str_lower_upper (s : string) : str_lower (str_upper s) = str_lower s.
Proof.
  unfold str_lower, str_upper. induction s as [| c s IH]; [reflexivity |].
  simpl. rewrite ascii_lower_upper, IH. reflexivity.
Qed.

Lemma str_lower_idem (s : string) : str_lower (str_lower s) = str_lower s.
Proof.
  unfold str_lower. induction s as [| c s IH]; [reflexivity |].
  simpl. rewrite ascii_lower_idem, IH. reflexivity.
Qed.

Lemma string_prefix_app (x s : string) :
  String.prefix x s = true <-> exists post, s = String.append x post.
Proof.
  revert s. induction x as [| c x IH]; intros s.
  - simpl. split; [intros _; exists s; reflexivity | destruct s; reflexivity].
  - destruct s as [| d s]; simpl.
    + split; [discriminate | intros [post H]; discriminate].
    + destruct (ascii_dec c d) as [-> | Hne].
      * rewrite IH. split; intros [post H]; exists post; [rewrite H; reflexivity |].
        inversion H. reflexivity.
      * split; [discriminate | intros [post H]; inversion H; congruence].
Qed.

Lemma str_contains_app (x s : string) :
  str_contains x s = true <->
  exists pre post, s = String.append pre (String.append x post).
Proof.
  induction s as [| d s IH].
  - cbn [str_contains]. rewrite orb_false_r, string_prefix_app. split.
    + intros [post H]. exists EmptyString, post. exact H.
    + intros (pre & post & H). destruct pre; [exists post; exact H | discriminate].
  - cbn [str_contains]. rewrite orb_true_iff, string_prefix_app, IH. split.
    + intros [[post H] | (pre & post & H)].
      * exists EmptyString, post. exact H.
      * exists (String d pre), post. simpl. rewrite H. reflexivity.
    + intros (pre & post & H). destruct pre as [| e pre].
      * left. exists post. exact H.
      * right. exists pre, post. simpl in H. inversion H. reflexivity.
Qed.


(** ** The popularity score *)

Lemma py_int_mono (x y : Q) : (x <= y)%Q -> py_int x <= py_int y.
Proof.
  intros H. unfold py_int.
  destruct (Qle_bool 0 x) eqn:Ex, (Qle_bool 0 y) eqn:Ey.
  - apply Qfloor_resp_le. exact H.
  - apply Qle_bool_iff in Ex.
    assert (Hy : ~ (0 <= y)%Q) by (rewrite <- Qle_bool_iff; congruence). lra.
  - assert (Hx : ~ (0 <= x)%Q) by (rewrite <- Qle_bool_iff; congruence).
    apply Qle_bool_iff in Ey.
    assert (H1 : Qceiling x <= 0).
    { change 0 with (Qceiling 0). apply Qceiling_resp_le. lra. }
    assert (H2 : 0 <= Qfloor y).
    { change 0 with (Qfloor 0). apply Qfloor_resp_le. exact Ey. }
    lia.
  - apply Qceiling_resp_le. exact H.
Qed.

Lemma source_multiplier_pos (s : string) : (0 < Popularity.source_multiplier s)%Q.
Proof.
  unfold Popularity.source_multiplier.
  destruct (String.eqb s "7"); [reflexivity |]. destruct (String.eqb s "8"); reflexivity.
Qed.

Lemma apple_bonus_pos (a : Q) : (1 <= Popularity.apple_bonus a)%Q.
Proof.
  unfold Popularity.apple_bonus. destruct (Qlt_bool 5 a) eqn:E; [| lra].
  apply Qlt_bool_iff in E. unfold Qdiv.
  assert (H : (0 <= (a - 5) * / 100)%Q).
  { apply Qmult_le_0_compat; [lra | discriminate]. }
  lra.
Qed.



(** ** The summary *)

Lemma odict_get_to_map {V} (k : string) (d : list (string * V)) :
  odict_get k d = (list_to_map d : gmap string V) !! k.
Proof.
  induction d as [| [k' v'] d IH]; [reflexivity |].
  simpl. destruct (String.eqb k' k) eqn:E.
  - apply String.eqb_eq in E. subst. rewrite lookup_insert_eq. reflexivity.
  - apply String.eqb_neq in E. rewrite lookup_insert_ne by exact E. exact IH.
Qed.

Lemma odict_set_to_map {V} (k : string) (v : V) (d : list (string * V)) :
  (list_to_map (odict_set k v d) : gmap string V) = <[k := v]> (list_to_map d).
Proof.
  induction d as [| [k' v'] d IH]; [reflexivity |].
  simpl. destruct (String.eqb k' k) eqn:E.
  - apply String.eqb_eq in E. subst. simpl. rewrite insert_insert_eq. reflexivity.
  - apply String.eqb_neq in E. simpl. rewrite IH. apply insert_insert_ne. congruence.
Qed.

Lemma odict_set_keys {V} (k : string) (v : V) (d : list (string * V)) :
  (odict_set k v d).*1 = if decide (k ∈ d.*1) then d.*1 else d.*1 ++ [k].
Proof.
  induction d as [| [k' v'] d IH]; [reflexivity |].
  cbn [odict_set]. destruct (String.eqb k' k) eqn:E.
  - apply String.eqb_eq in E. subst. rewrite !fmap_cons. cbn [fst].
    rewrite decide_True by left. reflexivity.
  - apply String.eqb_neq in E. rewrite !fmap_cons, IH. cbn [fst].
    destruct (decide (k ∈ d.*1)) as [Hin | Hin].
    + rewrite decide_True by (right; exact Hin). reflexivity.
    + rewrite decide_False; [reflexivity |].
      intros H. apply elem_of_cons in H as [H | H]; [congruence | contradiction].
Qed.

Lemma odict_set_NoDup {V} (k : string) (v : V) (d : list (string * V)) :
  NoDup (d.*1) -> NoDup ((odict_set k v d).*1).
Proof.
  intros H. rewrite odict_set_keys. destruct (decide (k ∈ d.*1)) as [Hin | Hin]; [exact H |].
  apply NoDup_app. split; [exact H |]. split; [| apply NoDup_singleton].
  intros x Hx Hx'. apply list_elem_of_singleton in Hx'. subst. contradiction.
Qed.

Lemma per_term_items_fold (rs : list RequestResult) (d : list (string * TermStats)) :
  NoDup (d.*1) ->
  (list_to_map (foldl per_term_item_step d rs) : gmap string TermStats)
    = foldl per_term_step (list_to_map d) rs /\
  NoDup ((foldl per_term_item_step d rs).*1).
Proof.
  revert d. induction rs as [| r rs IH]; intros d Hd; [split; [reflexivity | exact Hd] |].
  simpl foldl.
  assert (Hstep : (list_to_map (per_term_item_step d r) : gmap string TermStats)
                  = per_term_step (list_to_map d) r).
  { unfold per_term_item_step, per_term_step.
    rewrite odict_set_to_map, odict_get_to_map. reflexivity. }
  destruct (IH (per_term_item_step d r)) as [IH1 IH2].
  { unfold per_term_item_step. apply odict_set_NoDup. exact Hd. }
  rewrite IH1, Hstep. split; [reflexivity | exact IH2].
Qed.

(** The ordered items are the items of the per-key breakdown. *)
Lemma per_term_items_map (rep : TestReport) :
  (list_to_map (per_term_items rep) : gmap string TermStats) = per_term_stats rep /\
  NoDup ((per_term_items rep).*1) /\
  per_term_items rep ≡ₚ map_to_list (per_term_stats rep).
Proof.
  destruct (per_term_items_fold (results rep) []) as [H1 H2]; [constructor |].
  split; [exact H1 |]. split; [exact H2 |].
  unfold per_term_stats. change (∅ : gmap string TermStats) with
    (list_to_map ([] : list (string * TermStats)) : gmap string TermStats).
  rewrite <- H1. symmetry. apply map_to_list_to_map. exact H2.
Qed.

Lemma insert_by_limited_Permutation (x : string * TermStats) (l : list (string * TermStats)) :
  insert_by_limited x l ≡ₚ x :: l.
Proof.
  induction l as [| y l IH]; [reflexivity |].
  simpl. destruct (_ <=? _)%nat; [reflexivity |].
  rewrite IH. apply perm_swap.
Qed.

Lemma sorted_by_limited_Permutation (l : list (string * TermStats)) :
  sorted_by_limited l ≡ₚ l.
Proof.
  induction l as [| x l IH]; [reflexivity |].
  simpl. rewrite insert_by_limited_Permutation, IH. reflexivity.
Qed.

Lemma insert_by_limited_sorted (x : string * TermStats) (l : list (string * TermStats)) :
  StronglySorted (fun a b => (limited (snd b) <= limited (snd a))%nat) l ->
  StronglySorted (fun a b => (limited (snd b) <= limited (snd a))%nat)
                 (insert_by_limited x l).
Proof.
  induction 1 as [| y l Hs IH Hall]; [repeat constructor |].
  simpl. destruct (limited (snd y) <=? limited (snd x))%nat eqn:E.
  - apply Nat.leb_le in E. constructor; [constructor; assumption |].
    constructor; [exact E |].
    eapply Forall_impl; [exact Hall |]. simpl. intros z Hz. lia.
  - apply Nat.leb_gt in E. constructor; [exact IH |].
    rewrite insert_by_limited_Permutation. constructor; [lia | exact Hall].
Qed.

Lemma sorted_by_limited_sorted (l : list (string * TermStats)) :
  StronglySorted (fun a b => (limited (snd b) <= limited (snd a))%nat) (sorted_by_limited l).
Proof.
  induction l as [| x l IH]; [constructor |].
  simpl. apply insert_by_limited_sorted. exact IH.
Qed.



Lemma first_limited_from_spec (rs : list RequestResult) (i : nat) :
  match first_limited_from i rs with
  | None => Forall (fun r => is_limited (status_code r) = false) rs
  | Some k =>
      (i <= k)%nat /\
      (exists r, rs !! (k - i)%nat = Some r /\ is_limited (status_code r) = true) /\
      (forall j r, (j < k - i)%nat -> rs !! j = Some r -> is_limited (status_code r) = false)
  end.
Proof.
  revert i. induction rs as [| r rs IH]; intros i; [constructor |].
  simpl. destruct (is_limited (status_code r)) eqn:E.
  - split; [lia |]. rewrite Nat.sub_diag. split; [exists r; split; [reflexivity | exact E] |].
    intros j r' Hj. lia.
  - specialize (IH (S i)). destruct (first_limited_from (S i) rs) as [k |].
    + destruct IH as (Hk & (r' & Hr' & Hl) & Hbefore).
      split; [lia |]. replace (k - i)%nat with (S (k - S i)) by lia.
      split; [exists r'; split; [exact Hr' | exact Hl] |].
      intros [| j] r'' Hj Hr''.
      * inversion Hr''; subst. exact E.
      * apply (Hbefore j r''); [lia | exact Hr''].
    + constructor; [exact E | exact IH].
Qed.



Lemma stats_of_limited_le_total (k : string) (rs : list RequestResult) :
  (limited (stats_of k rs) <= total (stats_of k rs))%nat.
Proof. unfold stats_of. simpl. apply length_filter. Qed.

(** X23: the summary prints the per-term table exactly when the report
    holds outcomes for at least two different keys; the table has one row
    per key with that key's statistics, in non-increasing order of the
    limited count; the percentage of a row is its limited count over its
    total, and a row is flagged exactly when its limited count is
    positive. *)
Theorem per_term_table_sorted (rep : TestReport) (s : Summary) :
  print_summary rep = inr s ->
  (sum_per_term s = None <-> (size (per_term_stats rep) <= 1)%nat) /\
  (forall rows, sum_per_term s = Some rows ->
     rows ≡ₚ per_term_row <$> map_to_list (per_term_stats rep) /\
     StronglySorted (fun a b => (limited (snd (fst (fst b)))
                                 <= limited (snd (fst (fst a))))%nat) rows /\
     Forall (fun row =>
               let '(_, stats, pct, flag) := row in
               (pct * inject_Z (Z.of_nat (total stats))
                == inject_Z (Z.of_nat (limited stats)) * 100)%Q /\
               (flag = true <-> (0 < limited stats)%nat)) rows).
Proof.
  unfold print_summary. destruct (Qeq_bool (duration rep) 0); [discriminate |].
  intros H. inversion H; subst; clear H. simpl sum_per_term.
  destruct (per_term_items_map rep) as (Hmap & Hnd & Hperm).
  assert (Hsize : size (per_term_stats rep) = length (per_term_items rep)).
  { rewrite <- length_map_to_list, <- Hperm. reflexivity. }
  rewrite Hsize. destruct (1 <? length (per_term_items rep))%nat eqn:E.
  - apply Nat.ltb_lt in E. split; [split; [discriminate | lia] |].
    intros rows Hrows. inversion Hrows; subst; clear Hrows.
    split; [| split].
    + change (List.map per_term_row (sorted_by_limited (per_term_items rep)))
        with (per_term_row <$> sorted_by_limited (per_term_items rep)).
      rewrite sorted_by_limited_Permutation, Hperm. reflexivity.
    + pose proof (sorted_by_limited_sorted (per_term_items rep)) as Hs.
      induction Hs as [| x l _ IH Hall]; [constructor |].
      simpl. constructor; [exact IH |].
      apply Forall_forall. intros row Hrow.
      apply list_elem_of_In, List.in_map_iff in Hrow as (y & <- & Hy).
      rewrite Forall_forall in Hall. apply list_elem_of_In in Hy.
      simpl. apply (Hall y Hy).
    + apply Forall_forall. intros row Hrow.
      apply list_elem_of_In, List.in_map_iff in Hrow as ([k st] & <- & Hy).
      apply list_elem_of_In in Hy.
      rewrite sorted_by_limited_Permutation, Hperm in Hy.
      apply elem_of_map_to_list in Hy. rewrite per_term_stats_lookup in Hy.
      destruct (with_key k (results rep)) as [| x xs] eqn:Ek; [discriminate |].
      inversion Hy as [Hst]. clear Hy.
      pose proof (stats_of_limited_le_total k (results rep)) as Hle.
      assert (Htot : (1 <= total (stats_of k (results rep)))%nat).
      { unfold stats_of. rewrite Ek. simpl. lia. }
      set (st' := stats_of k (results rep)) in *.
      unfold per_term_row. simpl fst. simpl snd.
      destruct (total st') as [| t] eqn:Et; [lia |].
      assert (Htq : (0 < inject_Z (Z.of_nat (S t)))%Q).
      { change 0%Q with (inject_Z 0). rewrite <- Zlt_Qlt. lia. }
      split; [field; lra |].
      rewrite Qlt_bool_iff.
      assert (Hlq : (0 <= inject_Z (Z.of_nat (limited st')))%Q).
      { change 0%Q with (inject_Z 0). rewrite <- Zle_Qle. lia. }
      split.
      * intros Hp. destruct (limited st') as [| l]; [| lia]. exfalso.
        change (inject_Z (Z.of_nat 0)) with 0%Q in Hp. unfold Qdiv in Hp.
        rewrite !Qmult_0_l in Hp. lra.
      * intros Hl.
        assert (Hl' : (0 < inject_Z (Z.of_nat (limited st')))%Q).
        { change 0%Q with (inject_Z 0). rewrite <- Zlt_Qlt. lia. }
        apply Qmult_lt_0_compat; [| reflexivity].
        apply Qlt_shift_div_l; [exact Htq | lra].
  - apply Nat.ltb_ge in E. split; [split; [lia | reflexivity] | discriminate].
Qed.

Lemma per_term_table_sorted_witness :
  exists s rows,
    print_summary (mkTestReport [outcome "a" 200; outcome "b" 429; outcome "a" 201] 0 1)
      = inr s /\
    sum_per_term s = Some rows /\
    List.map (fun row => fst (fst (fst row))) rows = ["b"; "a"]%string /\
    StronglySorted (fun a b => (limited (snd (fst (fst b)))
                                <= limited (snd (fst (fst a))))%nat) rows.
Proof.
  eexists _, _. split; [reflexivity |]. split; [reflexivity |].
  split; [vm_compute; reflexivity |].
  apply (proj2 (per_term_table_sorted
                  (mkTestReport [outcome "a" 200; outcome "b" 429; outcome "a" 201] 0 1)
                  _ eq_refl) _ eq_refl).
Defined.

Lemma odict_get_set {V} (k k' : string) (v : V) (d : list (string * V)) :
  odict_get k (odict_set k' v d) = if decide (k' = k) then Some v else odict_get k d.
Proof.
  rewrite !odict_get_to_map, odict_set_to_map. apply lookup_insert.
Qed.

Lemma last_value_app (k : string) (a b : list (string * string)) :
  last_value k (a ++ b) =
  match last_value k b with
  | Some v => Some v
  | None => last_value k a
  end.
Proof.
  unfold last_value. rewrite filter_app.
  destruct (filter (fun kv => fst kv = k) b) as [| x l] using rev_ind.
  - rewrite app_nil_r. reflexivity.
  - rewrite app_assoc, !last_snoc. reflexivity.
Qed.

Lemma last_value_singleton (k k' v : string) :
  last_value k [(k', v)] = if decide (k' = k) then Some v else None.
Proof.
  unfold last_value. rewrite filter_cons, filter_nil. cbn [fst].
  destruct (decide (k' = k)); reflexivity.
Qed.

Lemma odict_update_get (k : string) (other d : list (string * string)) :
  odict_get k (odict_update d other) =
  match last_value k other with
  | Some v => Some v
  | None => odict_get k d
  end.
Proof.
  induction other as [| [k' v'] other IH] using rev_ind; [reflexivity |].
  unfold odict_update. rewrite foldl_app. cbn [foldl fst snd].
  fold (odict_update d other).
  rewrite odict_get_set, last_value_app, IH, last_value_singleton.
  destruct (decide (k' = k)); reflexivity.
Qed.

Lemma rl_headers_fold_get (k : string) (rs : list RequestResult) (d : list (string * string)) :
  odict_get k (foldl (fun acc r => odict_update acc (headers r)) d rs) =
  match last_value k (concat (headers <$> rs)) with
  | Some v => Some v
  | None => odict_get k d
  end.
Proof.
  revert d. induction rs as [| r rs IH]; intros d; [reflexivity |].
  simpl foldl. rewrite IH, fmap_cons. simpl concat. rewrite last_value_app, odict_update_get.
  destruct (last_value k (concat (headers <$> rs))); reflexivity.
Qed.

Lemma odict_update_nil {V} (d other : list (string * V)) :
  odict_update d other = [] <-> d = [] /\ other = [].
Proof.
  split; [| intros [-> ->]; reflexivity].
  induction other as [| [k v] other IH] using rev_ind; [intros H; split; [exact H | reflexivity] |].
  unfold odict_update. rewrite foldl_app. simpl. intros H. exfalso.
  destruct (foldl _ d other) as [| [k0 v0] l]; simpl in H; [discriminate |].
  destruct (String.eqb k0 k); discriminate.
Qed.

(** X24: the rate-limit headers of the summary are those of all the
    outcomes merged in order: for each header name the summary shows the
    value from the last outcome that carries it; it reports that no
    rate-limit header was seen exactly when no outcome carries one. *)
Theorem summary_headers_last_wins (rep : TestReport) (s : Summary) :
  print_summary rep = inr s ->
  (forall k, odict_get k (sum_headers s)
             = last_value k (concat (headers <$> results rep))) /\
  (sum_headers s = [] <-> Forall (fun r => headers r = []) (results rep)).
Proof.
  unfold print_summary. destruct (Qeq_bool (duration rep) 0); [discriminate |].
  intros H. inversion H; subst; clear H. simpl sum_headers. split.
  - intros k. rewrite rl_headers_fold_get.
    destruct (last_value k _); reflexivity.
  - generalize (results rep). intros rs.
    assert (Hgen : forall d, foldl (fun acc r => odict_update acc (headers r)) d rs = []
                             <-> d = [] /\ Forall (fun r => headers r = []) rs).
    { induction rs as [| r rs IH]; intros d.
      - simpl. split; [intros ->; split; [reflexivity | constructor] | tauto].
      - simpl foldl. rewrite IH, odict_update_nil. split.
        + intros [[-> Hr] Hrs]. split; [reflexivity | constructor; assumption].
        + intros [-> Hall]. inversion Hall; subst. tauto. }
    rewrite Hgen. tauto.
Qed.

Lemma summary_headers_last_wins_witness :
  exists s,
    print_summary (mkTestReport
                     [mkRequestResult 429 1 0 [("Retry-After", "5")]%string "a" None "";
                      mkRequestResult 429 1 1 [("Retry-After", "9")]%string "a" None ""]
                     0 2) = inr s /\
    odict_get "Retry-After" (sum_headers s) = Some "9"%string.
Proof.
  set (rep := mkTestReport _ _ _).
  assert (Hs : exists s, print_summary rep = inr s) by (eexists; reflexivity).
  destruct Hs as [s Hs]. exists s. split; [exact Hs |].
  rewrite (proj1 (summary_headers_last_wins rep s Hs)). reflexivity.
Defined.

(** ** The rankings scraper *)

Lemma ebind_inr {A B} (c : Rankings.PyErr + A) (k : A -> Rankings.PyErr + B) (b : B) :
  Rankings.ebind c k = inr b -> exists a, c = inr a /\ k a = inr b.
Proof. destruct c as [e | a]; simpl; [discriminate | eauto]. Qed.

Lemma ebind_inl {A B} (c : Rankings.PyErr + A) (k : A -> Rankings.PyErr + B)
    (e : Rankings.PyErr) :
  Rankings.ebind c k = inl e -> c = inl e \/ exists a, c = inr a /\ k a = inl e.
Proof. destruct c as [e' | a]; simpl; [intros [= ->]; auto | eauto]. Qed.

Ltac split_binds :=
  repeat match goal with
  | H : Rankings.ebind _ _ = inr _ |- _ =>
      let a := fresh "v" in let H1 := fresh "Hv" in
      apply ebind_inr in H as (a & H1 & H)
  end.

Section ExtractProps.
Import Rankings.

(** An invariant of the accumulator survives a loop that returns. *)
Lemma efor_invariant {A S} (P : S -> Prop) (body : A -> S -> PyErr + S) xs :
  (forall x s s', P s -> body x s = inr s' -> P s') ->
  forall s s', P s -> efor xs body s = inr s' -> P s'.
Proof.
  intros Hbody. induction xs as [| x xs IH]; simpl; intros s s' Hs H.
  - congruence.
  - apply ebind_inr in H as (s1 & H1 & H2). eauto.
Qed.

(** A loop that fails fails as one of its iterations does. *)
Lemma efor_error {A S} (Q : PyErr -> Prop) (body : A -> S -> PyErr + S) xs :
  (forall x s e, body x s = inl e -> Q e) ->
  forall s e, efor xs body s = inl e -> Q e.
Proof.
  intros Hbody. induction xs as [| x xs IH]; simpl; intros s e H.
  - discriminate.
  - apply ebind_inl in H as [H | (s1 & H1 & H2)]; eauto.
Qed.

Lemma ranked_snoc rs r :
  ranked rs -> rank r = (length rs + 1)%nat -> ranked (rs ++ [r]).
Proof.
  unfold ranked. intros H Hr.
  rewrite List.map_app, List.length_app, seq_app, H. simpl.
  rewrite Hr. do 2 f_equal. lia.
Qed.

Lemma item_row_step item results rows :
  item_row item results = inr rows ->
  rows = results \/
  exists row, rows = results ++ [row] /\ rank row = (length results + 1)%nat
              /\ developer row = None /\ genre row = None.
Proof.
  unfold item_row. intros H. split_binds.
  destruct (negb (truthy v)).
  - left. congruence.
  - split_binds. injection H as <-. right. eexists. split; [reflexivity |].
    simpl. auto.
Qed.

Lemma deferred_row_step item results rows :
  deferred_row item results = inr rows ->
  rows = results \/
  exists row, rows = results ++ [row] /\ rank row = (length results + 1)%nat
              /\ developer row = None /\ genre row = None.
Proof.
  unfold deferred_row. intros H. split_binds.
  destruct (py_eq_str v "apps").
  - split_binds. injection H as <-. right. eexists. split; [reflexivity |].
    simpl. auto.
  - left. congruence.
Qed.

Lemma item_row_ranked item results rows :
  ranked results -> item_row item results = inr rows -> ranked rows.
Proof.
  intros Hr H. apply item_row_step in H as [-> | (row & -> & Hk & _)]; [done |].
  by apply ranked_snoc.
Qed.

Lemma deferred_row_ranked item results rows :
  ranked results -> deferred_row item results = inr rows -> ranked rows.
Proof.
  intros Hr H. apply deferred_row_step in H as [-> | (row & -> & Hk & _)]; [done |].
  by apply ranked_snoc.
Qed.

Lemma shelf_rows_ranked shelf results rows :
  ranked results -> shelf_rows shelf results = inr rows -> ranked rows.
Proof.
  unfold shelf_rows. intros Hr H. split_binds.
  destruct (negb _).
  - congruence.
  - split_binds. eapply efor_invariant; [| exact Hr | exact H].
    intros x s s'. apply item_row_ranked.
Qed.

Lemma first_page_ranked page results rows :
  ranked results -> first_page page results = inr rows -> ranked rows.
Proof.
  unfold first_page. intros Hr H. split_binds.
  eapply efor_invariant; [| exact Hr | exact H].
  intros x s s'. apply shelf_rows_ranked.
Qed.

Lemma next_page_rows_ranked page results rows :
  ranked results -> next_page_rows page results = inr rows -> ranked rows.
Proof.
  unfold next_page_rows. intros Hr H. split_binds.
  destruct v; try congruence.
  split_binds. eapply efor_invariant; [| exact Hr | exact H].
  intros x s s'. apply deferred_row_ranked.
Qed.

Lemma page_rows_ranked page rows :
  page_rows page = inr rows -> ranked rows.
Proof.
  unfold page_rows. intros H. split_binds.
  eapply next_page_rows_ranked; [| exact H].
  eapply first_page_ranked; [| exact Hv]. reflexivity.
Qed.

(** *** The errors of the pure part *)

Lemma py_get_error v key dflt e : py_get v key dflt = inl e -> e = AttributeError.
Proof. destruct v; simpl; congruence. Qed.

Lemma py_iter_error v e : py_iter v = inl e -> e = TypeError.
Proof. destruct v; simpl; congruence. Qed.

Lemma py_contains_error sep v e : py_contains sep v = inl e -> e = TypeError.
Proof. destruct v; simpl; congruence. Qed.

Lemma py_split_first_error sep v e : py_split_first sep v = inl e -> e = AttributeError.
Proof. destruct v; simpl; congruence. Qed.

Lemma py_getitem_error v key e :
  py_getitem v key = inl e -> e = TypeError \/ e = Builtin (KeyError key).
Proof.
  destruct v; simpl; try (intros [= <-]; auto).
  destruct (dict_lookup key items); [discriminate | intros [= <-]; auto].
Qed.

Ltac split_errors :=
  repeat match goal with
  | H : Rankings.ebind _ _ = inl _ |- _ =>
      let a := fresh "v" in let H1 := fresh "Hv" in
      apply ebind_inl in H as [H | (a & H1 & H)]
  | H : py_get _ _ _ = inl _ |- _ => apply py_get_error in H; subst
  | H : py_iter _ = inl _ |- _ => apply py_iter_error in H; subst
  | H : py_contains _ _ = inl _ |- _ => apply py_contains_error in H; subst
  | H : py_split_first _ _ = inl _ |- _ => apply py_split_first_error in H; subst
  end.

Lemma item_row_error item results e :
  item_row item results = inl e -> typing_error e = true.
Proof.
  unfold item_row. intros H. split_errors; try reflexivity.
  destruct (negb (truthy v)); [discriminate |].
  split_errors; try reflexivity; try discriminate.
  destruct v3; split_errors; try reflexivity; discriminate.
Qed.

Lemma shelf_rows_error shelf results e :
  shelf_rows shelf results = inl e -> typing_error e = true.
Proof.
  unfold shelf_rows. intros H. split_errors; try reflexivity.
  destruct (negb _); [discriminate |].
  split_errors; try reflexivity.
  eapply (efor_error (fun e => typing_error e = true)); [| exact H].
  intros x s e'. apply item_row_error.
Qed.

Lemma first_page_error page results e :
  first_page page results = inl e -> typing_error e = true.
Proof.
  unfold first_page. intros H. split_errors; try reflexivity.
  eapply (efor_error (fun e => typing_error e = true)); [| exact H].
  intros x s e'. apply shelf_rows_error.
Qed.

Lemma deferred_row_error item results e :
  deferred_row item results = inl e ->
  typing_error e = true \/ e = Builtin (KeyError "id").
Proof.
  unfold deferred_row. intros H. split_errors; auto.
  destruct (py_eq_str v "apps"); [| discriminate].
  split_errors; [| discriminate].
  apply py_getitem_error in H as [-> | ->]; auto.
Qed.

Lemma next_page_rows_error page results e :
  next_page_rows page results = inl e ->
  typing_error e = true \/ e = Builtin (KeyError "id").
Proof.
  unfold next_page_rows. intros H. split_errors; auto.
  destruct v; try discriminate.
  split_errors; auto.
  eapply (efor_error (fun e => typing_error e = true \/ e = Builtin (KeyError "id")));
    [| exact H].
  intros x s e'. apply deferred_row_error.
Qed.

Lemma page_rows_error page e :
  page_rows page = inl e ->
  typing_error e = true \/ e = Builtin (KeyError "id").
Proof.
  unfold page_rows. intros H. split_errors.
  - left. eapply first_page_error, H.
  - eapply next_page_rows_error, H.
Qed.

(** *** The deferred entries *)

Lemma deferred_loop xs : forall rs rows,
  efor xs deferred_row rs = inr rows ->
  exists rest, rows = rs ++ rest /\
    List.map (fun r => Some (id r)) rest = List.map entry_id (List.filter is_app xs) /\
    Forall nameless rest.
Proof.
  induction xs as [| x xs IH]; simpl; intros rs rows H.
  - injection H as <-. exists []. rewrite app_nil_r. repeat split. constructor.
  - apply ebind_inr in H as (rs1 & H1 & H2).
    apply IH in H2 as (rest & -> & Hids & Hn).
    unfold deferred_row in H1. split_binds.
    destruct x; try discriminate. simpl in Hv. injection Hv as <-.
    simpl is_app. destruct (py_eq_str _ "apps").
    + split_binds. injection H1 as <-. simpl in Hv.
      destruct (dict_lookup "id" items) as [i |] eqn:Ei; [| discriminate].
      injection Hv as <-.
      eexists (_ :: rest). split; [rewrite <- app_assoc; reflexivity |].
      split.
      * simpl. rewrite Ei, Hids. reflexivity.
      * constructor; [repeat split | exact Hn].
    + injection H1 as <-. exists rest. auto.
Qed.

Lemma deferred_loop_strings ks rs rows :
  efor (List.map JStr ks) deferred_row rs = inr rows -> ks = [].
Proof. destruct ks as [| k ks]; [reflexivity | discriminate]. Qed.

Lemma chars_strings s : exists ks, chars s = List.map JStr ks.
Proof.
  induction s as [| c s [ks IH]]; [exists []; reflexivity |].
  exists (String c EmptyString :: ks). simpl. rewrite IH. reflexivity.
Qed.

End ExtractProps.

Section DeferredProps.
Import Rankings.

(** X26: the deferred entries follow the first-page entries, one for
    each element of [nextPage["results"]] whose type is ["apps"], in
    that order and with the element's [id] taken as it is; they carry an
    empty name, an empty bundle id and no impression index.  A
    [nextPage] that is not a dict, or holds no list of results, adds
    nothing. *)
Theorem deferred_rows_follow (page : json) (rows : list Row) :
  page_rows page = inr rows ->
  exists first rest,
    first_page page [] = inr first /\ rows = first ++ rest /\
    List.map (fun r => Some (id r)) rest
      = List.map entry_id (List.filter is_app (deferred_entries page)) /\
    Forall nameless rest.
Proof.
  unfold page_rows. intros H. apply ebind_inr in H as (first & Hf & H).
  exists first. unfold next_page_rows in H. split_binds.
  destruct page; try discriminate. simpl in Hv. injection Hv as <-.
  unfold deferred_entries.
  destruct (default (JDict []) (dict_lookup "nextPage" items)) as
    [| | | | | | np] eqn:Enp;
    try (injection H as <-; exists []; rewrite app_nil_r;
         repeat split; [exact Hf | constructor]).
  split_binds. simpl in Hv. injection Hv as <-.
  destruct (default (JList []) (dict_lookup "results" np)) as
    [| | | | s | xs | its] eqn:Ed; try discriminate; simpl in Hv0; injection Hv0 as <-.
  - destruct (chars_strings s) as [ks Hks]. rewrite Hks in H.
    assert (ks = []) as -> by (eapply deferred_loop_strings, H).
    simpl in H. injection H as <-. exists []. rewrite app_nil_r.
    repeat split; [exact Hf | constructor].
  - apply deferred_loop in H as (rest & -> & Hids & Hn).
    exists rest. auto.
  - rewrite <- (List.map_map fst JStr) in H.
    assert (List.map fst its = []) as Hk by (eapply deferred_loop_strings, H).
    rewrite Hk in H. simpl in H. injection H as <-. exists []. rewrite app_nil_r.
    repeat split; [exact Hf | constructor].
Qed.

(** On the sample page: one first-page entry, then the two deferred
    apps. *)
Lemma deferred_rows_follow_witness :
  exists rows first rest,
    page_rows sample_page = inr rows /\
    first_page sample_page [] = inr first /\ rows = first ++ rest /\
    List.map (fun r => Some (id r)) rest = [Some (JStr "42"); Some (JStr "7")] /\
    length first = 1%nat.
Proof.
  assert (Hrun : exists rows, page_rows sample_page = inr rows)
    by (eexists; reflexivity).
  destruct Hrun as [rows Hrun].
  destruct (deferred_rows_follow sample_page rows Hrun)
    as (first & rest & Hf & Hrows & Hids & _).
  exists rows, first, rest. repeat split; try assumption.
  vm_compute in Hf. injection Hf as <-. reflexivity.
Defined.

(** *** The identifier of a first-page entry *)

Lemma before_sep_split sep s :
  str_contains sep s = true ->
  exists rest, s = String.append (before_sep sep s) (String.append sep rest).
Proof.
  induction s as [| c s IH]; intros H.
  - cbn [str_contains] in H. rewrite orb_false_r in H.
    cbn [before_sep]. rewrite H.
    apply string_prefix_app in H as [post H]. exists post. exact H.
  - cbn [str_contains] in H. cbn [before_sep].
    destruct (String.prefix sep (String c s)) eqn:Ep.
    + apply string_prefix_app in Ep as [post Hp]. exists post. exact Hp.
    + simpl in H. destruct (IH H) as [rest Hr]. exists rest.
      change (String c s = String c (String.append (before_sep sep s)
                                       (String.append sep rest))).
      f_equal. exact Hr.
Qed.

Lemma before_sep_absent sep s :
  str_contains sep s = false -> before_sep sep s = s.
Proof.
  induction s as [| c s IH]; intros H.
  - cbn [str_contains] in H. rewrite orb_false_r in H.
    cbn [before_sep]. rewrite H. reflexivity.
  - cbn [str_contains] in H. apply orb_false_iff in H as [H1 H2].
    cbn [before_sep]. rewrite H1, (IH H2). reflexivity.
Qed.

Lemma prefix_nonempty_nil sep : sep <> EmptyString -> String.prefix sep "" = false.
Proof. destruct sep; [congruence | reflexivity]. Qed.

Lemma prefix_cons_inv c sep d s :
  String.prefix (String c sep) (String d s) = true -> c = d /\ String.prefix sep s = true.
Proof. simpl. destruct (ascii_dec c d); [auto | discriminate]. Qed.

(** A prefix of what [before_sep] keeps is a prefix of the whole. *)
Lemma before_sep_keeps_prefix sep s : forall x post,
  before_sep sep s = String.append x post -> String.prefix x s = true.
Proof.
  induction s as [| c s IH]; intros x post H.
  - cbn [before_sep] in H. destruct (String.prefix sep "");
      destruct x; try discriminate; reflexivity.
  - cbn [before_sep] in H. destruct (String.prefix sep (String c s)).
    + destruct x; [reflexivity | discriminate].
    + destruct x as [| d x]; [reflexivity |].
      simpl in H. injection H as -> H.
      simpl. destruct (ascii_dec d d); [| congruence].
      eapply IH, H.
Qed.

Lemma before_sep_at_sep sep s :
  String.prefix sep s = true -> before_sep sep s = EmptyString.
Proof. intros H. destruct s; cbn [before_sep]; rewrite H; reflexivity. Qed.

Lemma before_sep_prefix_false sep : sep <> EmptyString -> forall s,
  String.prefix sep (before_sep sep s) = false.
Proof.
  intros Hne s. destruct (String.prefix sep (before_sep sep s)) eqn:E; [| reflexivity].
  exfalso. pose proof E as E'. apply string_prefix_app in E' as [post Hpost].
  apply before_sep_keeps_prefix in Hpost.
  rewrite (before_sep_at_sep _ _ Hpost) in E.
  destruct sep; [congruence | discriminate].
Qed.

Lemma before_sep_no_sep sep : sep <> EmptyString -> forall s,
  str_contains sep (before_sep sep s) = false.
Proof.
  intros Hne. induction s as [| c s IH].
  - cbn [before_sep]. destruct (String.prefix sep "") eqn:E;
      cbn [str_contains]; rewrite orb_false_r; apply prefix_nonempty_nil; exact Hne.
  - pose proof (before_sep_prefix_false sep Hne (String c s)) as Hp.
    cbn [before_sep] in Hp |- *. destruct (String.prefix sep (String c s)) eqn:E.
    + cbn [str_contains]. rewrite orb_false_r. exact Hp.
    + cbn [str_contains]. rewrite Hp, IH. reflexivity.
Qed.

(** The cut is at the first occurrence: no [::] may start inside [p] or
    at its last character. *)
Lemma before_sep_first p : forall rest,
  str_contains "::" (String.append p ":") = false ->
  before_sep "::" (String.append p (String.append "::" rest)) = p.
Proof.
  induction p as [| c p IH]; intros rest H.
  - change (String.append "" (String.append "::" rest)) with (String ":" (String ":" rest)).
    cbn [before_sep]. 
    replace (String.prefix "::" (String ":" (String ":" rest))) with true; [reflexivity |].
    symmetry. apply string_prefix_app. exists rest. reflexivity.
  - change (String.append (String c p) ":") with (String c (String.append p ":")) in H.
    cbn [str_contains] in H. apply orb_false_iff in H as [H1 H2].
    change (String.append (String c p) (String.append "::" rest))
      with (String c (String.append p (String.append "::" rest))).
    cbn [before_sep].
    assert (Hp : String.prefix "::" (String c (String.append p (String.append "::" rest)))
                 = false).
    { destruct (String.prefix "::" (String c (String.append p (String.append "::" rest))))
        eqn:E; [| reflexivity].
      apply string_prefix_app in E as [post E].
      assert (String.prefix "::" (String c (String.append p ":")) = true) as Hc;
        [| congruence].
      apply string_prefix_app.
      destruct p as [| d p].
      - exists EmptyString. injection E as -> _. reflexivity.
      - exists (String.append p ":"). injection E as -> -> _. reflexivity. }
    rewrite Hp, (IH rest H2). reflexivity.
Qed.

(** X27: for a first-page item whose lockup is truthy and whose fields
    carry a string identifier, the entry appended has as its id what
    precedes the first [::] of that identifier, and the whole identifier
    when it holds no [::]; the id kept never contains [::]. *)
Theorem first_page_id_cut (item lockup metrics fields : json) (s : string)
    (results : list Row) :
  py_get item "lockup" (JDict []) = inr lockup ->
  truthy lockup = true ->
  py_get lockup "impressionMetrics" (JDict []) = inr metrics ->
  py_get metrics "fields" (JDict []) = inr fields ->
  py_get fields "id" (JStr "") = inr (JStr s) ->
  exists row p,
    item_row item results = inr (results ++ [row]) /\
    id row = JStr p /\
    str_contains "::" p = false /\
    (if str_contains "::" s
     then exists rest, s = String.append p (String.append "::" rest)
     else p = s) /\
    (forall q rest, s = String.append q (String.append "::" rest) ->
                    str_contains "::" (String.append q ":") = false -> p = q).
Proof.
  intros Hl Ht Hm Hf Hi. unfold item_row.
  rewrite Hl. cbn [ebind]. rewrite Ht. cbn [negb].
  rewrite Hm. cbn [ebind]. rewrite Hf. cbn [ebind]. rewrite Hi. cbn [ebind py_contains].
  destruct fields; try discriminate.
  destruct (str_contains "::" s) eqn:Ec; cbn [py_split_first ebind py_get].
  - eexists _, (before_sep "::" s). split; [reflexivity |]. split; [reflexivity |].
    split; [apply before_sep_no_sep; discriminate |].
    split; [apply before_sep_split, Ec |].
    intros q rest -> Hq. apply before_sep_first, Hq.
  - eexists _, s. split; [reflexivity |]. split; [reflexivity |].
    split; [exact Ec |]. split; [reflexivity |].
    intros q rest Hs Hq. exfalso.
    assert (str_contains "::" s = true) as Hc
      by (apply str_contains_app; exists q, rest; exact Hs).
    congruence.
Qed.

Lemma first_page_id_cut_witness :
  exists row,
    item_row sample_item [] = inr [row] /\ id row = JStr "284882215".
Proof.
  destruct (first_page_id_cut sample_item
              (JDict [("impressionMetrics"%string,
                       JDict [("fields"%string, JDict sample_fields)])])
              (JDict [("fields"%string, JDict sample_fields)])
              (JDict sample_fields) "284882215::organic" [])
    as (row & p & Hrow & Hid & _ & _ & Hfirst);
    [reflexivity | reflexivity | reflexivity | reflexivity | reflexivity |].
  exists row. split; [exact Hrow |].
  rewrite Hid. f_equal. apply (Hfirst "284882215"%string "organic"%string); reflexivity.
Defined.

End DeferredProps.

Section ScraperProps.
Import Rankings.

Variable quote : string -> string.
Variable re_search : string -> option string.
Variable json_loads : string -> string + json.
Variable urlopen_html : string -> list (string * string) -> Exn + string.
Variable fetch : nat -> string -> Exn + option (list Lookup.TrackJson).

(** What an extraction that returned has gone through. *)
Lemma extract_returns html w rows w' :
  extract_search_results re_search json_loads html w = (inr rows, w') ->
  w' = w /\
  exists blob data page,
    re_search html = Some blob /\ json_loads blob = inr data /\
    navigate data = inr page /\ page_rows page = inr rows.
Proof.
  unfold extract_search_results.
  destruct (re_search html) as [blob |] eqn:Eb; [| discriminate].
  destruct (json_loads blob) as [msg | data] eqn:Ed; [discriminate |].
  destruct (navigate data) as [e | page] eqn:En.
  - destruct e as [[] | | |]; unfold rbind, eprint, sys_exit, rraise; discriminate.
  - unfold pure. intros [= H <-]. split; [reflexivity |].
    exists blob, data, page. auto.
Qed.

Lemma extract_ranked html w rows w' :
  extract_search_results re_search json_loads html w = (inr rows, w') -> ranked rows.
Proof.
  intros H. apply extract_returns in H as (_ & blob & data & page & _ & _ & _ & H).
  apply page_rows_ranked in H. exact H.
Qed.

(** X25: the entries [extract_search_results] returns are ranked
    1, 2, 3, ... in the order of the list, first-page and deferred
    entries alike; an extraction that returns has written nothing. *)
Theorem extract_ranks_consecutive (html : string) (w w' : RWorld) (rows : list Row) :
  extract_search_results re_search json_loads html w = (inr rows, w') ->
  List.map rank rows = seq 1 (length rows) /\ w' = w.
Proof.
  intros H. split; [eapply extract_ranked, H |].
  apply extract_returns in H as [-> _]. reflexivity.
Qed.

Lemma py_getitem0_error v e :
  py_getitem0 v = inl e ->
  e = TypeError \/ e = Builtin IndexError \/ exists key, e = Builtin (KeyError key).
Proof.
  destruct v as [| | | | [] | [] |]; simpl; intros [= <-]; eauto.
Qed.

Lemma navigate_error data e :
  navigate data = inl e ->
  e = TypeError \/ e = Builtin IndexError \/ exists key, e = Builtin (KeyError key).
Proof.
  unfold navigate. intros H.
  apply ebind_inl in H as [H | (d & _ & H)].
  { apply py_getitem_error in H as [-> | ->]; eauto. }
  apply ebind_inl in H as [H | (d0 & _ & H)].
  { apply py_getitem0_error in H. exact H. }
  apply py_getitem_error in H as [-> | ->]; eauto.
Qed.

(** X28: how [extract_search_results] fails.  It exits, always with
    status 1 and after writing to standard error, when the script is not
    found, when its text is not JSON, or when [data["data"][0]["data"]]
    hits a missing key or index.  Past that point nothing is caught: the
    only [KeyError] that escapes is that of a deferred entry of type
    ["apps"] without ["id"], and neither it nor a [TypeError] or
    [AttributeError] comes with any output. *)
Theorem extract_failure_modes (html : string) (w w' : RWorld) (e : PyErr) :
  extract_search_results re_search json_loads html w = (inl e, w') ->
  match e with
  | SystemExit code =>
      code = 1 /\ opened w' = opened w /\ slept w' = slept w /\
      (exists l ls, stderr w' = stderr w ++ l :: ls) /\
      (forall blob data,
         re_search html = Some blob -> json_loads blob = inr data ->
         navigate data = inl (Builtin IndexError) \/
         exists key, navigate data = inl (Builtin (KeyError key)))
  | Builtin x =>
      x = KeyError "id" /\ w' = w /\
      exists blob data page,
        re_search html = Some blob /\ json_loads blob = inr data /\
        navigate data = inr page /\ page_rows page = inl e
  | TypeError | AttributeError => w' = w
  end.
Proof.
  unfold extract_search_results.
  destruct (re_search html) as [blob |] eqn:Eb.
  2:{ intros [= <- <-]. simpl. repeat split.
      - eexists _, _. rewrite <- app_assoc. reflexivity.
      - intros blob data Hb. discriminate. }
  destruct (json_loads blob) as [msg | data] eqn:Ed.
  { intros [= <- <-]. simpl. repeat split.
    - eexists _, _. reflexivity.
    - intros blob' data' [= <-] Hd. congruence. }
  destruct (navigate data) as [e0 | page] eqn:En.
  - destruct (navigate_error _ _ En) as [-> | Hcaught].
    + intros [= <- <-]. reflexivity.
    + intros H.
      assert (He : e = SystemExit 1 /\
                   w' = mkRWorld (opened w) (stderr w ++ [ErrorStructure]) (slept w)).
      { destruct Hcaught as [-> | [key ->]]; injection H as <- <-; auto. }
      destruct He as [-> ->]. clear H. simpl. repeat split.
      * eexists _, _. reflexivity.
      * intros blob' data' [= <-] Hd. assert (data' = data) as -> by congruence.
        rewrite En. destruct Hcaught as [-> | [key ->]]; eauto.
  - unfold pure. intros [= H <-].
    destruct (page_rows_error _ _ H) as [Ht | ->].
    + destruct e; try discriminate; reflexivity.
    + split; [reflexivity |]. split; [reflexivity |]. exists blob, data, page. auto.
Qed.


(** *** The lookup inside [get_rankings] *)

Lemma all_strings ids :
  forallb is_str ids = true -> ids = List.map JStr (List.map str_of ids).
Proof.
  induction ids as [| v ids IH]; [reflexivity |].
  simpl. intros H. apply andb_true_iff in H as [Hv H].
  destruct v; try discriminate. simpl. rewrite <- (IH H). reflexivity.
Qed.

Lemma forallb_concat {A} (p : A -> bool) (xss : list (list A)) :
  Forall (fun xs => forallb p xs = true) xss -> forallb p (concat xss) = true.
Proof.
  induction 1 as [| xs xss H _ IH]; [reflexivity |].
  simpl. rewrite forallb_app, H, IH. reflexivity.
Qed.

(** A lookup that returns has met strings only, and has done what
    [Lookup.lookup_app_metadata] does on them. *)
Lemma dyn_lookup_loop ids country offs : forall md w l md' w',
  rfor offs (lookup_batch fetch ids country) md w = (inr md', w') ->
  Forall (fun i => forallb is_str (take Lookup.LOOKUP_BATCH_SIZE (drop i ids)) = true)
         offs /\
  exists lw' l',
    for_each offs (Lookup.lookup_batch fetch (List.map str_of ids) country) md
             (Lookup.mkLWorld (opened w) l (slept w)) = (inr md', lw') /\
    opened w' = Lookup.fetched lw' /\ slept w' = Lookup.slept lw' /\
    Lookup.stderr lw' = l ++ l' /\
    stderr w' = stderr w ++ List.map (fun ie => Warning (fst ie) (snd ie)) l'.
Proof.
  induction offs as [| i offs IH]; intros md w l md' w' H.
  - injection H as <- <-. split; [constructor |].
    exists (Lookup.mkLWorld (opened w) l (slept w)), [].
    simpl. rewrite !app_nil_r. auto.
  - cbn [rfor] in H. unfold rbind at 1 in H.
    destruct (lookup_batch fetch ids country i md w) as [[e | md1] w1] eqn:E;
      [discriminate |].
    unfold lookup_batch in E.
    destruct (forallb is_str (take Lookup.LOOKUP_BATCH_SIZE (drop i ids))) eqn:Hs;
      [| discriminate].
    unfold of_lookup in E. rewrite lookup_batch_eq in E. cbn zeta in E.
    cbn [for_each]. unfold bind at 1. rewrite lookup_batch_eq. cbn zeta.
    cbn [Lookup.fetched Lookup.stderr Lookup.slept] in E |- *.
    destruct (fetch (length (opened w))
                (LookupSpec.batch_url (List.map str_of ids) country i)) as [e | data].
    + destruct (Lookup.caught e); [| discriminate].
      injection E as <- <-.
      destruct (IH _ _ (l ++ [(i, e)]) _ _ H)
        as (Hall & lw' & l' & Hrun & Ho & Hsl & Herr & Hst).
      split; [constructor; assumption |].
      exists lw', ((i, e) :: l'). cbn [opened slept stderr] in *.
      rewrite Hrun. repeat split; try assumption.
      * rewrite Herr, <- app_assoc. reflexivity.
      * rewrite Hst. simpl. rewrite <- app_assoc. reflexivity.
    + injection E as <- <-.
      destruct (IH _ _ l _ _ H)
        as (Hall & lw' & l' & Hrun & Ho & Hsl & Herr & Hst).
      split; [constructor; assumption |].
      exists lw', l'. cbn [opened slept stderr] in *.
      rewrite Hrun. repeat split; try assumption.
      rewrite Hst. simpl. rewrite app_nil_r. reflexivity.
Qed.

Lemma dyn_lookup_returns ids country w md w' :
  lookup_app_metadata fetch ids country w = (inr md, w') ->
  exists strs lw',
    ids = List.map JStr strs /\
    Lookup.lookup_app_metadata fetch strs country
      (Lookup.mkLWorld (opened w) [] (slept w)) = (inr md, lw') /\
    opened w' = Lookup.fetched lw' /\ slept w' = Lookup.slept lw' /\
    stderr w' = stderr w ++ List.map (fun ie => Warning (fst ie) (snd ie))
                                     (Lookup.stderr lw').
Proof.
  unfold lookup_app_metadata. intros H.
  apply (dyn_lookup_loop _ _ _ _ _ []) in H
    as (Hall & lw' & l' & Hrun & Ho & Hsl & Herr & Hst).
  assert (Hstr : forallb is_str ids = true).
  { destruct (batches_concat_aux Lookup.LOOKUP_BATCH_SIZE (length ids) ids)
      as [Hc _]; [unfold Lookup.LOOKUP_BATCH_SIZE; lia | lia |].
    rewrite <- Hc at 1. apply forallb_concat. apply Forall_map.
    rewrite Forall_forall in Hall. apply Forall_forall. intros i Hi.
    apply Hall. exact Hi. }
  exists (List.map str_of ids), lw'. split; [apply all_strings, Hstr |].
  unfold Lookup.lookup_app_metadata. rewrite length_map.
  simpl in Herr. subst l'. auto.
Qed.


(** *** [get_rankings] *)

Lemma extract_pure html w rows w' :
  extract_search_results re_search json_loads html w = (inr rows, w') ->
  forall w0, extract_search_results re_search json_loads html w0 = (inr rows, w0).
Proof.
  intros H w0. apply extract_returns in H as (_ & blob & data & page & Hb & Hd & Hn & Hp).
  unfold extract_search_results. rewrite Hb, Hd, Hn. unfold pure. rewrite Hp. reflexivity.
Qed.

Lemma resolve_rows_Forall2 md rs : forall rs',
  resolve_rows md rs = inr rs' ->
  Forall2 (fun r r' => resolve_row md r = inr r') rs rs'.
Proof.
  induction rs as [| r rs IH]; simpl; intros rs' H.
  - injection H as <-. constructor.
  - split_binds. injection H as <-. constructor; auto.
Qed.

(** What a run of [get_rankings] that returned has gone through. *)
Lemma get_rankings_returns term country platform top_n resolve w rows w' :
  get_rankings quote re_search json_loads urlopen_html fetch
               term country platform top_n resolve w = (inr rows, w') ->
  exists html all,
    urlopen_html (search_url quote term country platform) (search_headers country)
      = inr html /\
    extract_search_results re_search json_loads html w = (inr all, w) /\
    let kept := py_slice_to top_n all in
    let ids := ids_needing_names kept in
    let w1 := mkRWorld (opened w ++ [search_url quote term country platform])
                       (stderr w ++ [Fetching term country platform;
                                     HtmlFetched (String.length html);
                                     Found (length all)])
                       (slept w) in
    ((resolve = false \/ ids = []) /\ rows = kept /\ w' = w1) \/
    (resolve = true /\ ids <> [] /\
     exists md w2,
       lookup_app_metadata fetch ids country
         (mkRWorld (opened w1) (stderr w1 ++ [Resolving (length ids)]) (slept w1))
         = (inr md, w2) /\
       resolve_rows md kept = inr rows /\
       w' = mkRWorld (opened w2) (stderr w2 ++ [Resolved (size md)]) (slept w2)).
Proof.
  unfold get_rankings. unfold rbind at 1. cbn [eprint].
  unfold rbind at 1. unfold fetch_search_html. cbn [opened stderr slept].
  destruct (urlopen_html (search_url quote term country platform) (search_headers country))
    as [e | html] eqn:Eh.
  { destruct e; discriminate. }
  unfold rbind at 1. cbn [eprint opened stderr slept].
  unfold rbind at 1.
  match goal with |- context [extract_search_results _ _ html ?w1] =>
    destruct (extract_search_results re_search json_loads html w1)
      as [[e | all] wx] eqn:Ex end; [discriminate |].
  pose proof (extract_pure _ _ _ _ Ex) as Hpure.
  apply extract_returns in Ex as [-> _].
  unfold rbind at 1. cbn [eprint opened stderr slept].
  rewrite <- !app_assoc. cbn [app].
  intros H. exists html, all. split; [reflexivity |]. split; [apply Hpure |].
  cbn zeta. destruct resolve.
  - destruct (ids_needing_names (py_slice_to top_n all)) as [| v ids] eqn:Ei.
    + left. injection H as <- <-. auto.
    + right. split; [reflexivity |]. split; [discriminate |].
      unfold rbind at 1 in H. cbn [eprint opened stderr slept] in H.
      unfold rbind at 1 in H.
      match type of H with context [lookup_app_metadata _ _ _ ?w1] =>
        destruct (lookup_app_metadata fetch (v :: ids) country w1)
          as [[e | md] w2] eqn:El end; [discriminate |].
      unfold rbind at 1, pure in H.
      destruct (resolve_rows md (py_slice_to top_n all)) as [e | rows'] eqn:Er;
        [discriminate |].
      unfold rbind, eprint, rret in H. injection H as <- <-.
      exists md, w2. rewrite <- El. repeat split. exact Er.
  - left. injection H as <- <-. auto.
Qed.

Lemma py_slice_to_prefix {A} (n : Z) (xs : list A) :
  exists k, py_slice_to n xs = take k xs /\
            (0 <= n -> k = Z.to_nat n) /\
            (n < 0 -> k = (length xs - Z.to_nat (- n))%nat).
Proof.
  unfold py_slice_to. destruct (0 <=? n) eqn:E.
  - exists (Z.to_nat n). repeat split; lia.
  - exists (length xs - Z.to_nat (- n))%nat. repeat split; lia.
Qed.

Lemma ranked_take k rs : ranked rs -> ranked (take k rs).
Proof.
  unfold ranked. intros H.
  rewrite <- (firstn_map rank k rs), H. 
  change (firstn k (seq 1 (length rs))) with (take k (seq 1 (length rs))).
  rewrite take_seq, length_take. reflexivity.
Qed.

Lemma resolve_row_rank md r r' : resolve_row md r = inr r' -> rank r' = rank r.
Proof.
  unfold resolve_row. destruct (negb _); [| congruence].
  intros H. split_binds. destruct v; injection H as <-; reflexivity.
Qed.

Lemma resolve_rows_ranks md rs rs' :
  resolve_rows md rs = inr rs' -> List.map rank rs' = List.map rank rs.
Proof.
  intros H. apply resolve_rows_Forall2 in H.
  induction H as [| r r' rs rs' Hr _ IH]; [reflexivity |].
  simpl. rewrite IH, (resolve_row_rank _ _ _ Hr). reflexivity.
Qed.

(** X29: [get_rankings] returns the first entries of the extraction,
    with their ranks: as many as [top_n] when it is not negative, all
    but the last [-top_n] when it is negative; their ranks are
    1, 2, 3, ....  When names are not resolved the entries are returned
    as extracted, one URL has been opened, and the count written to
    standard error is that before trimming. *)
Theorem get_rankings_trims (term country platform : string) (top_n : Z)
    (resolve : bool) (w w' : RWorld) (rows : list Row) :
  get_rankings quote re_search json_loads urlopen_html fetch
               term country platform top_n resolve w = (inr rows, w') ->
  exists html all,
    urlopen_html (search_url quote term country platform) (search_headers country)
      = inr html /\
    extract_search_results re_search json_loads html w = (inr all, w) /\
    List.map rank rows = seq 1 (length rows) /\
    (0 <= top_n -> length rows = Nat.min (Z.to_nat top_n) (length all)) /\
    (top_n < 0 -> length rows = (length all - Z.to_nat (- top_n))%nat) /\
    (resolve = false ->
       rows = py_slice_to top_n all /\
       opened w' = opened w ++ [search_url quote term country platform] /\
       slept w' = slept w /\
       stderr w' = stderr w ++ [Fetching term country platform;
                                HtmlFetched (String.length html);
                                Found (length all)]).
Proof.
  intros H. apply get_rankings_returns in H as (html & all & Hh & Hx & H).
  exists html, all. split; [exact Hh |]. split; [exact Hx |]. cbn zeta in H.
  pose proof (extract_ranked _ _ _ _ Hx) as Hranked.
  destruct (py_slice_to_prefix top_n all) as (k & Hk & Hpos & Hneg).
  assert (Hkept : ranked (py_slice_to top_n all)).
  { rewrite Hk. apply ranked_take, Hranked. }
  assert (Hrows : List.map rank rows = List.map rank (py_slice_to top_n all)).
  { destruct H as [(_ & -> & _) | (_ & _ & md & w2 & _ & Hr & _)]; [reflexivity |].
    apply resolve_rows_ranks in Hr. exact Hr. }
  assert (Hlen : length rows = length (py_slice_to top_n all)).
  { rewrite <- (length_map rank rows), Hrows, length_map. reflexivity. }
  split; [rewrite Hrows, Hlen; exact Hkept |].
  split; [intros Hp; rewrite Hlen, Hk, length_take, (Hpos Hp); reflexivity |].
  split; [intros Hn; rewrite Hlen, Hk, length_take, (Hneg Hn); lia |].
  intros ->. destruct H as [(_ & -> & ->) | (Hf & _)]; [| discriminate].
  auto.
Qed.

Lemma filter_nil_Forall {A} (f : A -> bool) (xs : list A) :
  List.filter f xs = [] -> Forall (fun x => f x = false) xs.
Proof.
  induction xs as [| x xs IH]; simpl; [constructor |].
  destruct (f x) eqn:E; [discriminate |]. intros H. constructor; auto.
Qed.

Lemma resolution_refl md rs :
  Forall (fun r => negb (truthy (name r)) = false) rs ->
  Forall2 (resolution md) rs rs.
Proof.
  induction 1 as [| r rs Hr _ IH]; constructor; [| exact IH].
  unfold resolution. apply negb_false_iff in Hr. rewrite Hr. reflexivity.
Qed.

Lemma resolve_rows_resolution md rs strs : forall rs',
  ids_needing_names rs = List.map JStr strs ->
  resolve_rows md rs = inr rs' ->
  Forall2 (resolution md) rs rs'.
Proof.
  revert strs. induction rs as [| r rs IH]; intros strs rs' Hids H.
  - injection H as <-. constructor.
  - cbn [resolve_rows] in H. split_binds. injection H as <-.
    unfold ids_needing_names in Hids. cbn [List.filter] in Hids.
    unfold resolve_row in Hv.
    destruct (truthy (name r)) eqn:Et; cbn [negb] in Hv, Hids.
    + injection Hv as <-. constructor; [| eapply IH; eauto].
      unfold resolution. rewrite Et. reflexivity.
    + cbn [List.map] in Hids. destruct strs as [| s strs]; [discriminate |].
      injection Hids as Hid Hids. split_binds. rewrite Hid in Hv1.
      simpl in Hv1. injection Hv1 as <-.
      constructor; [| eapply IH; eauto].
      unfold resolution. rewrite Et. exists s. split; [exact Hid |].
      destruct (md !! s); injection Hv as <-; reflexivity.
Qed.

(** X30: names are resolved for the entries without a name and for no
    other.  When [get_rankings] resolves names and returns, the
    identifiers of the nameless entries it kept are strings, the
    metadata is what [lookup_app_metadata] returns for exactly these
    identifiers, in rank order, asked after the search page; an entry
    with a name is returned as extracted, a nameless entry takes name,
    bundle id, developer and genre from the metadata when its identifier
    is known there and is returned as extracted otherwise. *)
Theorem get_rankings_resolves_nameless (term country platform : string) (top_n : Z)
    (w w' : RWorld) (rows : list Row) :
  get_rankings quote re_search json_loads urlopen_html fetch
               term country platform top_n true w = (inr rows, w') ->
  exists html all strs metadata lw,
    urlopen_html (search_url quote term country platform) (search_headers country)
      = inr html /\
    extract_search_results re_search json_loads html w = (inr all, w) /\
    ids_needing_names (py_slice_to top_n all) = List.map JStr strs /\
    Lookup.lookup_app_metadata fetch strs country
      (Lookup.mkLWorld (opened w ++ [search_url quote term country platform]) []
                       (slept w)) = (inr metadata, lw) /\
    opened w' = Lookup.fetched lw /\ slept w' = Lookup.slept lw /\
    Forall2 (resolution metadata) (py_slice_to top_n all) rows.
Proof.
  intros H. apply get_rankings_returns in H as (html & all & Hh & Hx & H).
  exists html, all. cbn zeta in H.
  destruct H as [([Hf | Hids] & -> & ->) | (_ & _ & md & w2 & Hl & Hr & ->)].
  - discriminate.
  - exists [], ∅, (Lookup.mkLWorld (opened w ++ [search_url quote term country platform])
                                   [] (slept w)).
    repeat split; try assumption.
    apply resolution_refl. apply filter_nil_Forall.
    unfold ids_needing_names in Hids. apply map_eq_nil in Hids. exact Hids.
  - apply dyn_lookup_returns in Hl as (strs & lw & Hids & Hrun & Ho & Hs & _).
    exists strs, md, lw. cbn [opened slept] in *.
    repeat split; try assumption.
    eapply resolve_rows_resolution; eauto.
Qed.

End ScraperProps.

(** On the sample page: three entries, ranked 1, 2, 3. *)
Lemma extract_ranks_consecutive_witness :
  exists rows,
    Rankings.extract_search_results sample_re_search sample_json_loads "{page}" rworld0
      = (inr rows, rworld0) /\
    List.map Rankings.rank rows = [1; 2; 3]%nat.
Proof.
  assert (Hrun : exists rows w',
            Rankings.extract_search_results sample_re_search sample_json_loads
              "{page}" rworld0 = (inr rows, w'))
    by (eexists _, _; vm_compute; reflexivity).
  destruct Hrun as (rows & w' & Hrun).
  destruct (extract_ranks_consecutive _ _ _ _ _ _ Hrun) as [Hr ->].
  exists rows. split; [exact Hrun |].
  rewrite Hr. vm_compute in Hrun. injection Hrun as <-. reflexivity.
Defined.

(** An empty object where the page was expected: exit with status 1. *)
Lemma extract_failure_modes_witness :
  exists code w',
    Rankings.extract_search_results sample_re_search sample_json_loads "{}" rworld0
      = (inl (Rankings.SystemExit code), w') /\
    code = 1 /\ Rankings.opened w' = [] /\
    Rankings.navigate (Rankings.JDict []) = inl (Rankings.Builtin (KeyError "data")).
Proof.
  assert (Hrun : exists code w',
            Rankings.extract_search_results sample_re_search sample_json_loads
              "{}" rworld0 = (inl (Rankings.SystemExit code), w'))
    by (eexists _, _; vm_compute; reflexivity).
  destruct Hrun as (code & w' & Hrun).
  pose proof (extract_failure_modes _ _ _ _ _ _ Hrun) as (Hc & Ho & _ & _ & _).
  exists code, w'. repeat split; assumption || reflexivity.
Defined.

(** The sample page trimmed to two entries, names not resolved. *)
Lemma get_rankings_trims_witness :
  exists rows w',
    Rankings.get_rankings sample_quote sample_re_search sample_json_loads
      (sample_urlopen "{page}") (fetch_first_fails IndexError)
      "facebook" "us" "iphone" 2 false rworld0 = (inr rows, w') /\
    length rows = 2%nat /\ List.map Rankings.rank rows = [1; 2]%nat /\
    Rankings.opened w' = ["https://apps.apple.com/us/iphone/search?term=facebook"%string].
Proof.
  assert (Hrun : exists rows w',
            Rankings.get_rankings sample_quote sample_re_search sample_json_loads
              (sample_urlopen "{page}") (fetch_first_fails IndexError)
              "facebook" "us" "iphone" 2 false rworld0 = (inr rows, w'))
    by (eexists _, _; vm_compute; reflexivity).
  destruct Hrun as (rows & w' & Hrun).
  destruct (get_rankings_trims _ _ _ _ _ _ _ _ _ _ _ _ _ Hrun)
    as (html & all & Hh & Hx & Hr & Hlen & _ & Hno).
  injection Hh as <-. vm_compute in Hx. injection Hx as <-.
  destruct (Hno eq_refl) as (_ & Ho & _).
  assert (Hl : length rows = 2%nat) by (rewrite Hlen; [reflexivity | lia]).
  exists rows, w'. split; [exact Hrun |]. split; [exact Hl |].
  split; [rewrite Hr, Hl; reflexivity | exact Ho].
Defined.

(** The sample page with names resolved: the lookup is asked for the
    two deferred identifiers and knows the first. *)
Lemma get_rankings_resolves_nameless_witness :
  exists rows w' metadata,
    Rankings.get_rankings sample_quote sample_re_search sample_json_loads
      (sample_urlopen "{page}") (fetch_first_fails IndexError)
      "facebook" "us" "iphone" 50 true rworld0 = (inr rows, w') /\
    Forall2 (Rankings.resolution metadata)
      [Rankings.mkRow 1 (Rankings.JStr "284882215") (Rankings.JStr "Facebook")
                      (Rankings.JStr "com.facebook.Facebook") (Rankings.JInt 0) None None;
       Rankings.mkRow 2 (Rankings.JStr "42") (Rankings.JStr "") (Rankings.JStr "")
                      Rankings.JNone None None;
       Rankings.mkRow 3 (Rankings.JStr "7") (Rankings.JStr "") (Rankings.JStr "")
                      Rankings.JNone None None]
      rows /\
    List.map Rankings.name rows
      = [Rankings.JStr "Facebook"; Rankings.JStr "App"; Rankings.JStr ""].
Proof.
  assert (Hrun : exists rows w',
            Rankings.get_rankings sample_quote sample_re_search sample_json_loads
              (sample_urlopen "{page}") (fetch_first_fails IndexError)
              "facebook" "us" "iphone" 50 true rworld0 = (inr rows, w'))
    by (eexists _, _; vm_compute; reflexivity).
  destruct Hrun as (rows & w' & Hrun).
  destruct (get_rankings_resolves_nameless _ _ _ _ _ _ _ _ _ _ _ _ Hrun)
    as (html & all & strs & metadata & lw & Hh & Hx & _ & _ & _ & _ & Hres).
  injection Hh as <-. vm_compute in Hx. injection Hx as <-.
  exists rows, w', metadata. split; [exact Hrun |]. split; [exact Hres |].
  vm_compute in Hrun. injection Hrun as <- _. reflexivity.
Defined.
